(** * flatParse: planning of flat-frame calibration

    A shallow embedding of the planning core of [flat_parse4_0.py]: the
    metadata readers, the directory filter, the exposure grouping of
    [scan_flats], the plan gathered for a run, and the PJSR executor
    embedded in [PJSR_TEMPLATE] ([metaScore], [groupByExp],
    [integrateToMaster], [pickDarkFor]).

    Conventions.
    - Python and JavaScript floating-point numbers are rationals ([Q]);
      rounding error, infinities, NaN and the sign of zero are outside
      the model.
    - Text is a Rocq [string] of 8-bit characters and stands for ASCII text;
      character classes and case conversion act on ASCII.
    - Library calls whose result depends on the machine ([os.listdir],
      [os.path.join], [astropy], the XML parser, the PixInsight engine) are
      Section variables: every theorem holds for each behaviour of them. *)

From Stdlib Require Import List ZArith NArith QArith Qabs Qround Bool Ascii String Lia Lqa.
From Stdlib Require Import Permutation Sorted DecimalString DecimalN.
Import ListNotations.

Local Open Scope string_scope.
Local Open Scope list_scope.

(* ------------------------------------------------------------------ *)
(** ** Characters and strings *)

Module Chars.

Definition code (c : ascii) : N := N_of_ascii c.

Definition between (lo hi : N) (c : ascii) : bool :=
  (N.leb lo (code c) && N.leb (code c) hi)%N.

(** [\d] *)
Definition is_digit : ascii -> bool := between 48 57.
Definition is_upper_c : ascii -> bool := between 65 90.
Definition is_lower_c : ascii -> bool := between 97 122.
(** [[A-Za-z]] *)
Definition is_alpha (c : ascii) : bool := is_upper_c c || is_lower_c c.
(** [\s]: tab, newline, vertical tab, form feed, return, the four
    separators 28..31 and the blank. *)
Definition is_space (c : ascii) : bool :=
  between 9 13 c || between 28 32 c.
(** [\w] *)
Definition is_word (c : ascii) : bool :=
  is_alpha c || is_digit c || Ascii.eqb c "_".
(** [.] without DOTALL *)
Definition not_newline (c : ascii) : bool := negb (Ascii.eqb c "010").

Definition lower_c (c : ascii) : ascii :=
  if is_upper_c c then ascii_of_N (code c + 32) else c.
Definition upper_c (c : ascii) : ascii :=
  if is_lower_c c then ascii_of_N (code c - 32) else c.

(** A pattern character under [re.IGNORECASE]. *)
Definition ci (p : ascii) (c : ascii) : bool :=
  Ascii.eqb (lower_c c) (lower_c p).
Definition one_of (s : string) (c : ascii) : bool :=
  existsb (Ascii.eqb c) (list_ascii_of_string s).

End Chars.

Module Str.

Fixpoint map (f : ascii -> ascii) (s : string) : string :=
  match s with
  | EmptyString => EmptyString
  | String c r => String (f c) (map f r)
  end.

(** [str.lower], [str.upper] *)
Definition lower : string -> string := map Chars.lower_c.
Definition upper : string -> string := map Chars.upper_c.

Fixpoint forallb (p : ascii -> bool) (s : string) : bool :=
  match s with
  | EmptyString => true
  | String c r => p c && forallb p r
  end.

Fixpoint take (n : nat) (s : string) : string :=
  match n, s with
  | S n', String c r => String c (take n' r)
  | _, _ => EmptyString
  end.

Fixpoint drop (n : nat) (s : string) : string :=
  match n, s with
  | S n', String _ r => drop n' r
  | _, _ => s
  end.

(** [s.startswith(p)] *)
Definition startswith (p s : string) : bool := String.prefix p s.

(** [s.endswith(p)] *)
Definition endswith (p s : string) : bool :=
  (String.length p <=? String.length s)%nat
  && String.eqb (drop (String.length s - String.length p) s) p.

(** [sub in s] for strings *)
Fixpoint contains (sub s : string) : bool :=
  String.prefix sub s
  || match s with
     | EmptyString => false
     | String _ r => contains sub r
     end.

(** The text after the last character satisfying [p], the whole string if
    there is none: [s.rsplit(c, 1)[-1]]. *)
Fixpoint after_last (p : ascii -> bool) (s : string) : string :=
  match s with
  | EmptyString => EmptyString
  | String c r =>
      if existsb p (list_ascii_of_string r) then after_last p r
      else if p c then r else s
  end.

(** The text before the first character satisfying [p]:
    [s.split(c, 1)[0]]. *)
Fixpoint before_first (p : ascii -> bool) (s : string) : string :=
  match s with
  | EmptyString => EmptyString
  | String c r => if p c then EmptyString else String c (before_first p r)
  end.

(** [s.strip(chars)] *)
Fixpoint lstrip (p : ascii -> bool) (s : string) : string :=
  match s with
  | String c r => if p c then lstrip p r else s
  | EmptyString => EmptyString
  end.

Definition rev (s : string) : string :=
  string_of_list_ascii (List.rev (list_ascii_of_string s)).

Definition rstrip (p : ascii -> bool) (s : string) : string :=
  rev (lstrip p (rev s)).

Definition strip (p : ascii -> bool) (s : string) : string :=
  rstrip p (lstrip p s).

End Str.

(* ------------------------------------------------------------------ *)
(** ** Regular expressions

    The fragment of Python's [re] that the program's patterns use, with
    the backtracking semantics of the library: greedy quantifiers, an
    optional group that is tried before it is skipped, one capturing
    group, a negative look-behind and a look-ahead on one character. *)

Module Re.

Inductive re : Type :=
| Cls (p : ascii -> bool)            (* one character of a class *)
| Seq (a b : re)                     (* ab *)
| Opt (a : re)                       (* (?:a)? *)
| Star (p : ascii -> bool)           (* [p]* *)
| Plus (p : ascii -> bool)           (* [p]+ *)
| Grp (a : re)                       (* (a), group 1 *)
| NotBehind (p : ascii -> bool)      (* (?<![p]) *)
| AheadOrEnd (p : ascii -> bool)     (* (?=[p]|$) *)
| Bos                                (* ^ *)
| Eos.                               (* $ *)

(** A position in the subject: the character before it, the text from it
    on, its index, and what group 1 has captured so far. *)
Record pos : Type := mkPos {
  prev : option ascii;
  rest : string;
  idx : nat;
  grp1 : option string
}.

(** A match: [m.start()], [m.end()], [m.group(1)]. *)
Record mtch : Type := mkMatch {
  m_start : nat;
  m_end : nat;
  m_group1 : option string
}.

(** [$] without MULTILINE: the end, or just before a final newline. *)
Definition at_end (s : string) : bool :=
  match s with
  | EmptyString => true
  | String c EmptyString => Ascii.eqb c "010"
  | _ => false
  end.

Section Run.
Context {R : Type}.

(** Greedy [p]*: the longest run first, then shorter ones. *)
Fixpoint star (p : ascii -> bool) (k : pos -> option R)
    (pv : option ascii) (s : string) (i : nat) (g : option string)
    : option R :=
  match s with
  | String c r =>
      if p c then
        match star p k (Some c) r (S i) g with
        | Some m => Some m
        | None => k (mkPos pv s i g)
        end
      else k (mkPos pv s i g)
  | EmptyString => k (mkPos pv s i g)
  end.

Fixpoint run (r : re) (k : pos -> option R) (st : pos) : option R :=
  match r with
  | Cls p =>
      match rest st with
      | String c s' =>
          if p c then k (mkPos (Some c) s' (S (idx st)) (grp1 st)) else None
      | EmptyString => None
      end
  | Seq a b => run a (run b k) st
  | Opt a =>
      match run a k st with
      | Some m => Some m
      | None => k st
      end
  | Star p => star p k (prev st) (rest st) (idx st) (grp1 st)
  | Plus p =>
      match rest st with
      | String c s' =>
          if p c then star p k (Some c) s' (S (idx st)) (grp1 st) else None
      | EmptyString => None
      end
  | Grp a =>
      run a (fun st' =>
               k (mkPos (prev st') (rest st') (idx st')
                    (Some (Str.take (idx st' - idx st) (rest st))))) st
  | NotBehind p =>
      match prev st with
      | Some c => if p c then None else k st
      | None => k st
      end
  | AheadOrEnd p =>
      match rest st with
      | String c _ => if p c || at_end (rest st) then k st else None
      | EmptyString => k st
      end
  | Bos => if Nat.eqb (idx st) 0 then k st else None
  | Eos => if at_end (rest st) then k st else None
  end.

End Run.

Definition finish (start : nat) (st : pos) : option mtch :=
  Some (mkMatch start (idx st) (grp1 st)).

(** [rx.match(s)]: a match at the beginning of [s]. *)
Definition match_ (r : re) (s : string) : option mtch :=
  run r (finish 0) (mkPos None s 0 None).

(** The leftmost match from index [i] on. *)
Fixpoint search_from (r : re) (pv : option ascii) (s : string) (i : nat)
    : option mtch :=
  match run r (finish i) (mkPos pv s i None) with
  | Some m => Some m
  | None =>
      match s with
      | String c s' => search_from r (Some c) s' (S i)
      | EmptyString => None
      end
  end.

(** [rx.search(s)] *)
Definition search (r : re) (s : string) : option mtch :=
  search_from r None s 0.

(** A literal under IGNORECASE. *)
Fixpoint lit_ci (s : string) (k : re) : re :=
  match s with
  | EmptyString => k
  | String c r => Seq (Cls (Chars.ci c)) (lit_ci r k)
  end.

End Re.

Declare Scope re_scope.
Delimit Scope re_scope with re.
Infix "+>" := Re.Seq (at level 61, right associativity) : re_scope.

(* ------------------------------------------------------------------ *)
(** ** Numbers as text *)

Module Num.

Local Open Scope Q_scope.

Definition Qlt_bool (x y : Q) : bool := negb (Qle_bool y x).

Fixpoint span (p : ascii -> bool) (s : string) : string * string :=
  match s with
  | String c r =>
      if p c then let '(a, b) := span p r in (String c a, b)
      else (EmptyString, s)
  | EmptyString => (EmptyString, EmptyString)
  end.

Fixpoint digits_value (acc : N) (s : string) : N :=
  match s with
  | String c r => digits_value (acc * 10 + (Chars.code c - 48))%N r
  | EmptyString => acc
  end.

Definition sign_of (s : string) : bool * string :=
  match s with
  | String "-" r => (true, r)
  | String "+" r => (false, r)
  | _ => (false, s)
  end.

(** [10 ** e] as a rational, [e] of either sign. *)
Definition scale10 (neg : bool) (e : N) : Q :=
  let p := Z.pow 10 (Z.of_N e) in
  if neg then 1 # Z.to_pos p else p # 1.

(** [float(s)] on the decimal literals: blanks around, a sign, digits
    with an optional fraction, an optional exponent.  The other spellings
    Python accepts ([inf], [nan], digit groups with underscores) have no
    rational value and are read as not numeric. *)
Definition py_float (s0 : string) : option Q :=
  let '(neg, s1) := sign_of (Str.strip Chars.is_space s0) in
  let '(ip, s2) := span Chars.is_digit s1 in
  let '(fp, s3) :=
    match s2 with
    | String "." r => span Chars.is_digit r
    | _ => (EmptyString, s2)
    end in
  if (String.length ip + String.length fp =? 0)%nat then None
  else
    let den := Z.to_pos (Z.pow 10 (Z.of_nat (String.length fp))) in
    let mant :=
      Z.of_N (digits_value (digits_value 0 ip) fp) in
    let v := (if neg then (- mant)%Z else mant) # den in
    match s3 with
    | EmptyString => Some v
    | String e r =>
        if Chars.one_of "eE" e then
          let '(eneg, r1) := sign_of r in
          let '(ed, r2) := span Chars.is_digit r1 in
          match ed, r2 with
          | String _ _, EmptyString =>
              Some (v * scale10 eneg (digits_value 0 ed))
          | _, _ => None
          end
        else None
    end.

Definition string_of_N (n : N) : string :=
  NilEmpty.string_of_uint (N.to_uint n).

(** Three digits, zero padded. *)
Definition pad3 (n : N) : string :=
  let s := string_of_N n in
  match String.length s with
  | 1%nat => "00" ++ s
  | 2%nat => "0" ++ s
  | _ => s
  end.

(** Python's [round(x, 3)] in thousandths, [x] being the exact value of
    the float: to the nearest, an exact tie to the even neighbour. The
    floats at an exact tie are the odd multiples of 1/16 (0.0625,
    0.1875, ...); a decimal spelling like [0.0005] names a float beside
    the tie, and [x] is then the value of that float. *)
Definition round3 (x : Q) : Z :=
  let n := (Qnum x * 1000)%Z in
  let d := Z.pos (Qden x) in
  let f := (n / d)%Z in
  let r := (n mod d)%Z in
  match (2 * r ?= d)%Z with
  | Lt => f
  | Gt => (f + 1)%Z
  | Eq => if Z.even f then f else (f + 1)%Z
  end.

(** [f"{v:.3f}"] of a value given in thousandths. *)
Definition fmt3 (k : Z) : string :=
  let a := Z.abs_N k in
  (if (k <? 0)%Z then "-" else "")
  ++ string_of_N (a / 1000) ++ "." ++ pad3 (a mod 1000).

(** The value a key in thousandths stands for. *)
Definition of_thousandths (k : Z) : Q := k # 1000.

(** JavaScript's [Math.round(x*1000)]: to the nearest, a tie upwards;
    the product is taken exactly. *)
Definition js_round1000 (x : Q) : Z :=
  Qfloor (x * 1000 + (1 # 2)).

(** [(k/1000).toString()] in JavaScript, for magnitudes below 1e21: no
    trailing zeros, no point for an integer. *)
Definition js_string_of_thousandths (k : Z) : string :=
  let a := Z.abs_N k in
  let frac := Str.rstrip (Ascii.eqb "0") (pad3 (a mod 1000)) in
  (if (k <? 0)%Z then "-" else "")
  ++ string_of_N (a / 1000)
  ++ (if String.eqb frac "" then "" else "." ++ frac).

End Num.

(* ------------------------------------------------------------------ *)
(** ** Dictionaries keyed by an exposure

    Both halves of the program file items under the text of a rounded
    exposure: [bins.setdefault(k, []).append(p)] in Python,
    [(m[k] = m[k] || []).push(c)] in the script.  The key is kept as the
    number of thousandths its text spells, the dictionary as the list of
    its items in insertion order. *)

Module KDict.

Definition kdict (V : Type) : Type := list (Z * V).

(** [d.get(k)], [m[k]] *)
Fixpoint kget {V : Type} (k : Z) (d : kdict V) : option V :=
  match d with
  | [] => None
  | (k', v) :: r => if (k =? k')%Z then Some v else kget k r
  end.

(** Append [x] to the list under [k], a new key going last. *)
Fixpoint push {A : Type} (k : Z) (x : A) (d : kdict (list A)) : kdict (list A) :=
  match d with
  | [] => [(k, [x])]
  | (k', l) :: r =>
      if (k =? k')%Z then (k', l ++ [x]) :: r else (k', l) :: push k x r
  end.

(** Filing one item, left out when it has no key. *)
Definition put {A : Type} (key : A -> option Z) (d : kdict (list A)) (x : A)
    : kdict (list A) :=
  match key x with
  | Some k => push k x d
  | None => d
  end.

(** Filing the items of a list. *)
Definition group_by {A : Type} (key : A -> option Z) (l : list A)
    : kdict (list A) := fold_left (put key) l [].

(** The items of [l] whose key is [k], in their order. *)
Definition has_key {A : Type} (key : A -> option Z) (k : Z) (x : A) : bool :=
  match key x with
  | Some k' => (k =? k')%Z
  | None => false
  end.

Definition bucket {A : Type} (key : A -> option Z) (k : Z) (l : list A)
    : list A := filter (has_key key k) l.

(** Every list of the dictionary is non-empty and holds items of its
    key only. *)
Definition well_keyed {A : Type} (key : A -> option Z) (d : kdict (list A))
    : Prop :=
  forall k b, In (k, b) d -> b <> [] /\ forall x, In x b -> key x = Some k.

End KDict.

(* ------------------------------------------------------------------ *)
(** ** Python side: header readers *)

Module Py.

Import Re.
Local Open Scope re_scope.

(** What a call returns: a value, or an exception that travels up until a
    [try] catches it. *)
Inductive exn : Type := PermissionError | OtherError.

Inductive result (A : Type) : Type :=
| Ok (a : A)
| Raise (e : exn).
Arguments Ok {A} a.
Arguments Raise {A} e.

(** The dictionary the readers return. *)
Record meta : Type := mkMeta {
  exposure : option Q;
  binning : option string;
  gain : option Q;
  offset : option Q;
  temp : option Q
}.

(** The value of a header card as the FITS library hands it over; a value
    of an XISF attribute is always a string. *)
Inductive hval : Type :=
| HStr (s : string)
| HInt (z : Z)
| HFloat (q : Q)
| HBool (b : bool)
| HUndef.

Definition header : Type := list (string * hval).

(** An element of the parsed XISF header, in document order. *)
Record elem : Type := mkElem {
  tag : string;
  attrib : list (string * string);
  text : option string
}.

(** What reading a file in 512 KiB pieces yields: the pieces, then the end
    of the file or an exception. *)
Inductive stream : Type :=
| Eof
| Broken
| Chunk (b : string) (more : stream).

(** The machine the program runs on. *)
Record platform : Type := mkPlatform {
  os_path_basename : string -> string;
  os_path_join : string -> string -> string;
  os_path_isfile : string -> bool;
  os_listdir : string -> result (list string);
  path_suffix : string -> string;            (* Path(p).suffix *)
  py_str : hval -> string;                   (* str(v) *)
  _HAS_ASTROPY : bool;
  fits_open : string -> result header;       (* fits.open(p)[0].header *)
  open_rb : string -> stream;                (* open(p, "rb"), f.read(512*1024) ... *)
  decode_utf8 : string -> string;            (* buf.decode("utf-8", errors="ignore") *)
  ET_fromstring : string -> result (list elem)  (* list(ET.fromstring(xml).iter()) *)
}.

Definition FILE_EXTS : list string := [".xisf"; ".fits"; ".fit"].
Definition MAX_HEADER_BYTES : N := 4 * 1024 * 1024.

Definition _FITS_KEYS_EXPTIME := ["EXPTIME"; "EXPOSURE"; "EXPOSURETIME"; "X_EXPOSURE"].
Definition _FITS_KEYS_BIN := ["XBINNING"; "BINNING"; "CCDBINNING"; "BINNING_MODE"].
Definition _FITS_KEYS_GAIN := ["GAIN"; "EGAIN"].
Definition _FITS_KEYS_OFFSET := ["OFFSET"; "BLACKLEVEL"].
Definition _FITS_KEYS_TEMP := ["CCD-TEMP"; "CCD_TEMP"; "SENSOR_TEMP"; "SENSOR-TEMP"].

(** [^MasterFlat_.*\.xisf$], IGNORECASE *)
Definition MASTER_RE : re :=
  Bos +> lit_ci "MasterFlat_"
    (Star Chars.not_newline +> lit_ci ".xisf" Eos).

(** [(\d+(?:\.\d+)?)] *)
Definition number : re :=
  Grp (Plus Chars.is_digit
       +> Opt (Cls (Ascii.eqb ".") +> Plus Chars.is_digit)).

(** [(?=[_\- \.]|$)] *)
Definition token_end : re := AheadOrEnd (Chars.one_of "_- .").

(** [(?<![A-Za-z])(\d+(?:\.\d+)?)\s*s(?=[_\- \.]|$)], IGNORECASE *)
Definition rx_seconds : re :=
  NotBehind Chars.is_alpha +> number +> Star Chars.is_space
    +> Cls (Chars.ci "s") +> token_end.

(** [EXPOSURE[_\-=: ]?(\d+(?:\.\d+)?)], IGNORECASE *)
Definition rx_exposure : re :=
  lit_ci "EXPOSURE" (Opt (Cls (Chars.one_of "_-=: ")) +> number).

(** [(?<![A-Za-z])S(?:IN)?\s*(\d+(?:\.\d+)?)\s*s(?=[_\- \.]|$)], IGNORECASE *)
Definition rx_s_seconds : re :=
  NotBehind Chars.is_alpha +> Cls (Chars.ci "S")
    +> Opt (Cls (Chars.ci "I") +> Cls (Chars.ci "N"))
    +> Star Chars.is_space +> number +> Star Chars.is_space
    +> Cls (Chars.ci "s") +> token_end.

Definition _EXPOSURE_NAME_RES : list re :=
  [rx_seconds; rx_exposure; rx_s_seconds].

(** [</\s*(?:\w+:)?XISF\s*>], IGNORECASE *)
Definition _XISF_CLOSE_RE : re :=
  Cls (Ascii.eqb "<") +> Cls (Ascii.eqb "/") +> Star Chars.is_space
    +> Opt (Plus Chars.is_word +> Cls (Ascii.eqb ":"))
    +> lit_ci "XISF" (Star Chars.is_space +> Cls (Ascii.eqb ">")).

Definition _TAG_FITSKEY := "FITSKeyword".
Definition _TAG_PROP := "Property".

(** [_coerce_float]: the [try] turns every failure of [float] into
    [None]. *)
Definition _coerce_float (v : option hval) : option Q :=
  match v with
  | None => None
  | Some (HStr s) =>
      let s' :=
        if Str.startswith "'" s && Str.endswith "'" s
        then Str.strip (Ascii.eqb "'") s else s in
      Num.py_float s'
  | Some (HInt z) => Some (inject_Z z)
  | Some (HFloat q) => Some q
  | Some (HBool b) => Some (if b then 1 else 0)%Q
  | Some HUndef => None
  end.


(** A name of the form [MasterFlat_*.xisf], in either case, on one
    line. *)
Definition master_xisf_name (fn : string) : Prop :=
  exists pre mid suf,
    fn = (pre ++ mid ++ suf)%string
    /\ Str.lower pre = "masterflat_"
    /\ Str.lower suf = ".xisf"
    /\ Str.forallb Chars.not_newline mid = true.

(** The loop of [_infer_exposure_from_name] on the base name: the first
    pattern that matches and whose group converts. *)
Fixpoint infer_loop (res : list re) (name : string) : option Q :=
  match res with
  | [] => None
  | rx :: more =>
      match search rx name with
      | Some m =>
          match m_group1 m with
          | Some g =>
              match Num.py_float g with
              | Some x => Some x
              | None => infer_loop more name
              end
          | None => infer_loop more name
          end
      | None => infer_loop more name
      end
  end.

(** [d.get(k)] and [k in d] on a dictionary kept as a list of items. *)
Fixpoint dict_get {V : Type} (k : string) (d : list (string * V)) : option V :=
  match d with
  | [] => None
  | (k', v) :: r => if String.eqb k k' then Some v else dict_get k r
  end.

(** [d[k] = v]: a present key keeps its place. *)
Fixpoint dict_set {V : Type} (k : string) (v : V) (d : list (string * V))
    : list (string * V) :=
  match d with
  | [] => [(k, v)]
  | (k', v') :: r =>
      if String.eqb k k' then (k', v) :: r else (k', v') :: dict_set k v r
  end.

(** The value of the first key that is present. *)
Fixpoint first_present {V : Type} (keys : list string) (d : list (string * V))
    : option V :=
  match keys with
  | [] => None
  | k :: more =>
      match dict_get k d with
      | Some v => Some v
      | None => first_present more d
      end
  end.

(** Python's [a or b] on optional strings: [a] when it is a non-empty
    string. *)
Definition truthy (a : option string) : bool :=
  match a with
  | Some (String _ _) => true
  | _ => false
  end.
Definition or_ (a b : option string) : option string :=
  if truthy a then a else b.

Definition local_name (t : string) : string :=
  Str.after_last (Ascii.eqb ":") (Str.after_last (Ascii.eqb "}") t).

Definition iter_by_local (local : string) (root : list elem) : list elem :=
  filter (fun e => String.eqb (local_name (tag e)) local) root.

Definition unwrap (a : option string) : string :=
  match a with Some s => s | None => "" end.

(** The loop over the [FITSKeyword] elements. *)
Definition collect_vals (ks : list elem) : list (string * option string) :=
  fold_left
    (fun vals k =>
       let name :=
         Str.upper (unwrap (or_ (or_ (dict_get "name" (attrib k))
                                     (dict_get "keyword" (attrib k)))
                                (Some ""))) in
       let val := dict_get "value" (attrib k) in
       let val := if negb (truthy val) && truthy (text k) then text k else val in
       if String.eqb name "" then vals else dict_set name val vals)
    ks [].

(** The loop over the [Property] elements. *)
Definition collect_props (ps : list elem) : list (string * option string) :=
  fold_left
    (fun props p =>
       let pid := Str.upper (unwrap (or_ (dict_get "id" (attrib p)) (Some ""))) in
       let pv := dict_get "value" (attrib p) in
       let pv :=
         match pv with
         | None => if truthy (text p) then text p else pv
         | Some _ => pv
         end in
       if String.eqb pid "" then props else dict_set pid pv props)
    ps [].

Fixpoint first_prop (k : string) (props : list (string * option string))
    : option (option string) :=
  match props with
  | [] => None
  | (pid, val) :: r => if Str.contains k pid then Some val else first_prop k r
  end.

Fixpoint pick_props (alt_props : list string)
    (props : list (string * option string)) : option string :=
  match alt_props with
  | [] => None
  | k :: more =>
      match first_prop k props with
      | Some val => val
      | None => pick_props more props
      end
  end.

(** [pick] of [_xisf_meta]: a FITS keyword first, then a property whose
    id contains one of the alternatives. *)
Definition pick (vals props : list (string * option string))
    (keys alt_props : list string) : option string :=
  match first_present keys vals with
  | Some v => v
  | None => pick_props alt_props props
  end.

Section Readers.
Variable P : platform.

Definition _infer_exposure_from_name (path : string) : option Q :=
  infer_loop _EXPOSURE_NAME_RES (os_path_basename P path).

(** The dictionary every failure path returns. *)
Definition fallback_meta (path : string) : meta :=
  mkMeta (_infer_exposure_from_name path) None None None None.

Definition _fits_meta (path : string) : result meta :=
  if negb (_HAS_ASTROPY P) then Ok (fallback_meta path)
  else
    match fits_open P path with
    | Raise _ => Ok (fallback_meta path)
    | Ok hdr =>
        let get keys := first_present keys hdr in
        let ex := _coerce_float (get _FITS_KEYS_EXPTIME) in
        let ex :=
          match ex with
          | None => _infer_exposure_from_name path
          | Some _ => ex
          end in
        let bn := option_map (fun v => Str.upper (py_str P v)) (get _FITS_KEYS_BIN) in
        let gn := _coerce_float (get _FITS_KEYS_GAIN) in
        let of_ := _coerce_float (get _FITS_KEYS_OFFSET) in
        let tp := _coerce_float (get _FITS_KEYS_TEMP) in
        Ok (mkMeta ex bn gn of_ tp)
    end.

(** The reading loop of [_xisf_header_xml]; [buf] is what was read
    before. *)
Fixpoint header_loop (buf : string) (f : stream) : option string :=
  match f with
  | Eof => None
  | Broken => None
  | Chunk chunk more =>
      if String.eqb chunk "" then None
      else
        let buf := (buf ++ chunk)%string in
        if (MAX_HEADER_BYTES <? N.of_nat (String.length buf))%N then None
        else
          let text := decode_utf8 P buf in
          match search _XISF_CLOSE_RE text with
          | Some var_m => Some (Str.take (m_end var_m) text)
          | None => header_loop buf more
          end
  end.

Definition _xisf_header_xml (path : string) : option string :=
  header_loop "" (open_rb P path).

Definition _xisf_meta (path : string) : result meta :=
  match _xisf_header_xml path with
  | None => Ok (fallback_meta path)
  | Some EmptyString => Ok (fallback_meta path)
  | Some xml =>
      match ET_fromstring P xml with
      | Raise _ => Ok (fallback_meta path)
      | Ok root =>
          let vals := collect_vals (iter_by_local _TAG_FITSKEY root) in
          let props := collect_props (iter_by_local _TAG_PROP root) in
          let str v := option_map HStr v in
          let ex :=
            _coerce_float (str (pick vals props _FITS_KEYS_EXPTIME ["EXPOSURE"; "EXPTIME"])) in
          let ex :=
            match ex with
            | None => _infer_exposure_from_name path
            | Some _ => ex
            end in
          let bn := option_map Str.upper (pick vals props _FITS_KEYS_BIN ["BINNING"]) in
          let gn := _coerce_float (str (pick vals props _FITS_KEYS_GAIN ["GAIN"])) in
          let of_ :=
            _coerce_float (str (pick vals props _FITS_KEYS_OFFSET ["OFFSET"; "BLACKLEVEL"])) in
          let tp := _coerce_float (str (pick vals props _FITS_KEYS_TEMP ["TEMP"])) in
          Ok (mkMeta ex bn gn of_ tp)
      end
  end.

Definition read_meta (path : string) : result meta :=
  let ext := Str.lower (path_suffix P path) in
  if existsb (String.eqb ext) [".fits"; ".fit"] then _fits_meta path
  else if String.eqb ext ".xisf" then _xisf_meta path
  else Ok (fallback_meta path).

End Readers.

End Py.

(* ------------------------------------------------------------------ *)
(** ** Python side: directory filter, grouping, the plan of a run *)

Module Scan.

Import Py.
Import KDict.

(** [os.path.splitext(fn)[1]], separators as on Windows: the text from
    the last dot of the last component on, when a character other than a
    dot stands before that dot in the component. *)
Definition is_sep (c : ascii) : bool := Ascii.eqb c "/" || Ascii.eqb c "\".
Definition is_dot (c : ascii) : bool := Ascii.eqb c ".".

Definition splitext_ext (p : string) : string :=
  let comp := Str.after_last is_sep p in
  if existsb is_dot (list_ascii_of_string comp) then
    let e := Str.after_last is_dot comp in
    let stem := Str.take (String.length comp - String.length e - 1) comp in
    if Str.forallb is_dot stem then "" else String "." e
  else "".

(** [sorted] on a list of strings. *)
Fixpoint insert_str (x : string) (l : list string) : list string :=
  match l with
  | [] => [x]
  | y :: r => if String.leb x y then x :: l else y :: insert_str x r
  end.
Definition sorted_str (l : list string) : list string :=
  fold_right insert_str [] l.

(** [sorted(keys, key=lambda s: float(s))] on keys kept in thousandths;
    an equal key stays behind the ones already placed. *)
Fixpoint insert_key (x : Z) (l : list Z) : list Z :=
  match l with
  | [] => [x]
  | y :: r => if (x <? y)%Z then x :: l else y :: insert_key x r
  end.
Definition sorted_keys (l : list Z) : list Z :=
  fold_left (fun acc x => insert_key x acc) l [].

(** The wanted profile of a group. *)
Record want : Type := mkWant {
  w_binning : option string;
  w_gain : option Q;
  w_offset : option Q;
  w_temp : option Q
}.

(** A group of the plan; [g_want = None] is the empty dictionary [{}]. *)
Record group : Type := mkGroup {
  g_exposure : Q;
  g_files : list string;
  g_want : option want
}.

Record job : Type := mkJob {
  dirPath : string;
  groups : list group
}.

(** The rows of the flat tree of the window: a directory row that can be
    ticked, under it one row per group, under that one row per file. *)
Record group_item : Type := mkGroupItem {
  gi_label : string;
  gi_children : list string
}.

Record dir_item : Type := mkDirItem {
  di_text : string;
  di_checked : bool;
  di_groups : list group_item
}.

(** [bins.setdefault(k, []).append(p)]; the key [k] is
    [f"{round(ex,3):.3f}"], whose text is [Num.fmt3] of the thousandths. *)
Definition setdefault_append (k : Z) (p : string) (bins : kdict (list string))
    : kdict (list string) := KDict.push k p bins.

Section Grouping.
(** [meta_map[p]] *)
Variable meta_map : string -> meta.

Definition add_file (bins : kdict (list string)) (p : string)
    : kdict (list string) :=
  match exposure (meta_map p) with
  | None => bins
  | Some ex => setdefault_append (Num.round3 ex) p bins
  end.

Definition make_bins (flat_files : list string) : kdict (list string) :=
  fold_left add_file flat_files [].

(** The key a file is filed under, none without an exposure. The code
    keeps the key as text, and so keeps apart [-0.000], of a negative
    exposure that rounds to zero, and [0.000]; here they are the one key
    0, so what depends on telling them apart is stated for positive
    exposures. *)
Definition file_key (p : string) : option Z :=
  option_map Num.round3 (exposure (meta_map p)).

Definition want_of (m0 : meta) : want :=
  mkWant (binning m0) (gain m0) (offset m0) (temp m0).

(** [wants[k]] from [plist[0]]; a list of [bins] is never empty
    ([make_bins_nonempty]). *)
Definition make_wants (bins : kdict (list string)) : kdict want :=
  map (fun kp => (fst kp, want_of (meta_map (hd "" (snd kp))))) bins.

Definition filter_bins (bins : kdict (list string)) : kdict (list string) :=
  filter (fun kp => (3 <=? List.length (snd kp))%nat) bins.

(** The group of key [k]; both look-ups find their key
    ([make_groups_complete]). *)
Definition group_of (bins_filtered : kdict (list string)) (wants : kdict want)
    (k : Z) : list group :=
  match kget k bins_filtered, kget k wants with
  | Some plist, Some w => [mkGroup (Num.of_thousandths k) plist (Some w)]
  | _, _ => []
  end.

Definition make_groups (bins_filtered : kdict (list string))
    (wants : kdict want) : list group :=
  flat_map (group_of bins_filtered wants) (sorted_keys (map fst bins_filtered)).

(** The body of the loop of [scan_flats] for one directory, from the
    bucketing on: [None] when the directory is skipped. *)
Definition group_dir (flat_files : list string) : option (list group) :=
  let bins := make_bins flat_files in
  let wants := make_wants bins in
  let bins_filtered := filter_bins bins in
  match bins_filtered with
  | [] => None
  | _ => Some (make_groups bins_filtered wants)
  end.

(** The group the files of key [k] make: the files of that key in the
    order of the directory, and the profile of the first of them. *)
Definition bucket_group (flat_files : list string) (k : Z) : group :=
  let plist := bucket file_key k flat_files in
  mkGroup (Num.of_thousandths k) plist (Some (want_of (meta_map (hd "" plist)))).

(** The keys whose bucket is kept, in the order of the plan. *)
Definition surviving_keys (flat_files : list string) : list Z :=
  sorted_keys (map fst (filter_bins (make_bins flat_files))).

End Grouping.

Section Scanner.
Variable P : platform.

(** The loop of [_dir_image_files]. *)
Fixpoint image_loop (dir_path : string) (names : list string) : list string :=
  match names with
  | [] => []
  | fn :: more =>
      let p := os_path_join P dir_path fn in
      if negb (os_path_isfile P p) then image_loop dir_path more
      else
        let ext := Str.lower (splitext_ext fn) in
        if negb (existsb (String.eqb ext) FILE_EXTS) then image_loop dir_path more
        else
          match Re.match_ MASTER_RE fn with
          | Some _ => image_loop dir_path more
          | None => p :: image_loop dir_path more
          end
  end.

Definition _dir_image_files (dir_path : string) : result (list string) :=
  match os_listdir P dir_path with
  | Ok names => Ok (sorted_str (image_loop dir_path names))
  | Raise PermissionError => Ok (sorted_str [])
  | Raise e => Raise e
  end.

(** [_scan_files_meta_threaded]: the dictionary [out], or the exception
    of a task. *)
Fixpoint _scan_files_meta_threaded (paths : list string)
    : result (list (string * meta)) :=
  match paths with
  | [] => Ok []
  | p :: more =>
      match read_meta P p with
      | Raise e => Raise e
      | Ok m =>
          match _scan_files_meta_threaded more with
          | Raise e => Raise e
          | Ok out => Ok (dict_set p m out)
          end
      end
  end.

(** [meta_map[p]]; every path looked up was a task
    ([scanned_meta_found]). *)
Definition lookup_meta (out : list (string * meta)) (p : string) : meta :=
  match dict_get p out with
  | Some m => m
  | None => mkMeta None None None None None
  end.

Definition group_label (k : Z) (n : nat) : string :=
  Num.fmt3 k ++ "s  (" ++ Num.string_of_N (N.of_nat n) ++ " files)".

(** The row of a group: its label and the base names of its files. *)
Definition group_row (g : group) : group_item :=
  mkGroupItem
    (group_label (Qnum (g_exposure g)) (List.length (g_files g)))
    (map (os_path_basename P) (g_files g)).

Record scan_state : Type := mkScan {
  plan : list job;
  tree : list dir_item;
  seen_dirs : list string
}.

(** One turn of the loop over the directories [os.walk] yields. *)
Definition scan_dir (st : scan_state) (r : string) : result scan_state :=
  match _dir_image_files r with
  | Raise e => Raise e
  | Ok flat_files =>
      match flat_files with
      | [] => Ok st
      | _ =>
          if existsb (String.eqb r) (seen_dirs st) then Ok st
          else
            let seen := r :: seen_dirs st in
            match _scan_files_meta_threaded flat_files with
            | Raise e => Raise e
            | Ok out =>
                match group_dir (lookup_meta out) flat_files with
                | None => Ok (mkScan (plan st) (tree st) seen)
                | Some gs =>
                    Ok (mkScan (plan st ++ [mkJob r gs])
                          (tree st ++ [mkDirItem r true (map group_row gs)])
                          seen)
                end
            end
      end
  end.

Fixpoint scan_loop (st : scan_state) (walk : list string) : result scan_state :=
  match walk with
  | [] => Ok st
  | r :: more =>
      match scan_dir st r with
      | Raise e => Raise e
      | Ok st' => scan_loop st' more
      end
  end.

(** [scan_flats] over the directories the walks of the base roots yield,
    in their order. *)
Definition scan_flats (walk : list string) : result scan_state :=
  scan_loop (mkScan [] [] []) walk.

(** The groups [_gather_selected_plan] reads back from the rows of one
    directory: the exposure from the label, the files joined to the
    directory again, and an empty wanted profile. *)
Fixpoint gather_groups (dir : string) (rows : list group_item) : list group :=
  match rows with
  | [] => []
  | groupNode :: more =>
      let ex_key := Str.before_first (Ascii.eqb "s") (gi_label groupNode) in
      match Num.py_float ex_key with
      | None => gather_groups dir more
      | Some exposure =>
          mkGroup exposure (map (os_path_join P dir) (gi_children groupNode)) None
          :: gather_groups dir more
      end
  end.

Fixpoint _gather_selected_plan (rows : list dir_item) : list job :=
  match rows with
  | [] => []
  | dirItem :: more =>
      if di_checked dirItem then
        mkJob (di_text dirItem) (gather_groups (di_text dirItem) (di_groups dirItem))
        :: _gather_selected_plan more
      else _gather_selected_plan more
  end.

End Scanner.



(** The groups a directory is left with, none when it is skipped. *)
Definition kept_groups (o : option (list group)) : list group :=
  match o with
  | Some gs => gs
  | None => []
  end.

(** The same groups with the same members: the exposures agree and the
    files of a group are the files of the other in some order. *)
Definition same_membership (a b : option (list group)) : Prop :=
  match a, b with
  | Some ga, Some gb =>
      Forall2 (fun x y => g_exposure x = g_exposure y
                          /\ Permutation (g_files x) (g_files y)) ga gb
  | None, None => True
  | _, _ => False
  end.


End Scan.

(* ------------------------------------------------------------------ *)
(** ** The executor: the PJSR script of [PJSR_TEMPLATE] *)

Module Js.

Import KDict.
Import Scan.
Local Open Scope Q_scope.

(** [c.type], one of the four names [_classify_dark_type] gives. *)
Inductive dark_type : Type := MASTERDARKFLAT | MASTERDARK | DARKFLAT | DARK.

Definition dark_type_eqb (a b : dark_type) : bool :=
  match a, b with
  | MASTERDARKFLAT, MASTERDARKFLAT | MASTERDARK, MASTERDARK
  | DARKFLAT, DARKFLAT | DARK, DARK => true
  | _, _ => false
  end.

(** An entry of [CFG.darkCatalog]; [None] is JSON [null]. *)
Record dark : Type := mkDark {
  path : string;
  type : dark_type;
  exposure : Q;
  binning : option string;
  gain : option Q;
  offset : option Q;
  temp : option Q
}.

(** [CFG.match] *)
Record match_cfg : Type := mkMatchCfg {
  enforceBinning : bool;
  preferSameGainOffset : bool;
  preferClosestTemp : bool;
  maxTempDeltaC : Q
}.

(** [CFG.rejection]; a field is [None] when it is not a number. *)
Record rej_cfg : Type := mkRej {
  lowSigma : option Q;
  highSigma : option Q
}.

(** What [pickDarkFor] returns. *)
Record selection : Type := mkSel {
  sel_path : string;
  optimize : bool;
  kind : string
}.

(** [kexp(x)] as the number of thousandths; its text is
    [Num.js_string_of_thousandths]. *)
Definition kexp (x : Q) : Z := Num.js_round1000 x.
Definition kexp_text (k : Z) : string := Num.js_string_of_thousandths k.

Definition joinPath (a b : string) : string :=
  if String.eqb a "" then b
  else
    let slash := if Str.contains "\" a then "\" else "/" in
    if Str.endswith "/" a || Str.endswith "\" a then (a ++ b)%string
    else (a ++ slash ++ b)%string.

(** A JavaScript truth test of a string that may be [null]. *)
Definition truthy (s : option string) : bool :=
  match s with
  | Some (String _ _) => true
  | _ => false
  end.

Definition same_text (a b : option string) : bool :=
  match a, b with
  | Some x, Some y => String.eqb x y
  | _, _ => false
  end.

(** [!isNaN(a) && !isNaN(b) && Math.abs(a-b) < eps] after [safeNum]. *)
Definition near (a b : option Q) (eps : Q) : bool :=
  match a, b with
  | Some x, Some y => Num.Qlt_bool (Qabs (x - y)) eps
  | _, _ => false
  end.

Definition metaScore (c : dark) (want : Scan.want) (match_ : match_cfg) : Q :=
  let s := 0 in
  let s :=
    if enforceBinning match_ && truthy (w_binning want) && truthy (binning c)
       && same_text (binning c) (w_binning want)
    then s + 3 else s in
  let s :=
    if preferSameGainOffset match_ then
      let s := if near (gain c) (w_gain want) (1 # 100) then s + 2 else s in
      if near (offset c) (w_offset want) (1 # 2) then s + 2 else s
    else s in
  match preferClosestTemp match_, temp c, w_temp want with
  | true, Some ct, Some wt =>
      let dt := Qabs (ct - wt) in
      if Qle_bool dt (maxTempDeltaC match_) then s + ((3 # 2) - dt * (2 # 10))
      else s
  | _, _, _ => s
  end.

(** [(m[k] = m[k] || []).push(c)] *)
Definition push_at (k : Z) (c : dark) (m : kdict (list dark)) : kdict (list dark) :=
  KDict.push k c m.

(** The object [groupByExp] builds, its keys in the order they were
    added; [for (kk in m)] is read as going through them in that order. *)
Definition groupByExp (cats : list dark) (typeName : dark_type)
    : kdict (list dark) :=
  fold_left
    (fun m c =>
       if dark_type_eqb (type c) typeName then push_at (kexp (exposure c)) c m
       else m)
    cats [].

(** [m[k]] when it is a non-empty array. *)
Definition slot (m : kdict (list dark)) (k : Z) : list dark :=
  match kget k m with
  | Some l => l
  | None => []
  end.

(** The loop over the candidates of one exposure: a candidate replaces
    the best one only with a strictly higher score. *)
Fixpoint best_loop (l : list dark) (want : Scan.want) (match_ : match_cfg)
    (best : dark) (bestS : Q) : dark :=
  match l with
  | [] => best
  | c :: r =>
      let s := metaScore c want match_ in
      if Num.Qlt_bool bestS s then best_loop r want match_ c s
      else best_loop r want match_ best bestS
  end.

Definition best_of (c0 : dark) (l : list dark) (want : Scan.want)
    (match_ : match_cfg) : dark :=
  best_loop (c0 :: l) want match_ c0 (-1).

(** *** The integration process *)

(** A value of a property of a process instance. *)
Inductive jsval : Type :=
| JNum (q : Q)
| JBool (b : bool)
| JRows (paths : list string).

(** [a === b] *)
Definition strict_eq (a b : option jsval) : bool :=
  match a, b with
  | Some (JNum x), Some (JNum y) => Qeq_bool x y
  | Some (JBool x), Some (JBool y) => Bool.eqb x y
  | _, _ => false
  end.

(** A process instance: its properties by name; reading a property
    gives what was last assigned to it. *)
Definition obj : Type := string -> option jsval.

Definition set (o : obj) (name : string) (v : jsval) : obj :=
  fun n => if String.eqb n name then Some v else o n.

Declare Scope js_scope.
Delimit Scope js_scope with js.
Notation "o .[ n <- v ]" := (set o n v)
  (at level 1, left associativity, format "o .[ n  <-  v ]") : js_scope.

(** [II_ENUM], as [enumVal] found the constants in the engine. *)
Record enum_table : Type := mkEnum {
  Comb_Average : Q;
  Weight_Dont : Q;
  Norm_None : Q;
  Norm_Mult : Q;
  Rej_None : Q;
  Rej_Winsor : Q;
  Rej_PC : Q;
  Rej_LinFit : Q;
  RejNorm_None : Q;
  RejNorm_Eq : Q
}.

(** The state the script acts on: the files there are, and the
    integrations the engine was asked to execute, the oldest first. *)
Record world : Type := mkWorld {
  files : list string;
  executed : list (obj * string)
}.

Inductive outcome (A : Type) : Type :=
| Ret (a : A)
| Throw (msg : string).
Arguments Ret {A} a.
Arguments Throw {A} msg.

(** A piece of script: it may change the world and throw. *)
Definition M (A : Type) : Type := world -> outcome A * world.

Definition ret {A : Type} (a : A) : M A := fun w => (Ret a, w).
Definition throw {A : Type} (msg : string) : M A := fun w => (Throw msg, w).
Definition bind {A B : Type} (m : M A) (f : A -> M B) : M B :=
  fun w =>
    match m w with
    | (Ret a, w') => f a w'
    | (Throw msg, w') => (Throw msg, w')
    end.

Notation "'let*' x ':=' m 'in' f" := (bind m (fun x => f))
  (at level 10, x name, m at level 100, f at level 200) : js_scope.

Local Open Scope js_scope.

(** [File.exists(p)] *)
Definition File_exists (p : string) : M bool :=
  fun w => (Ret (existsb (String.eqb p) (files w)), w).

Section Engine.
(** The engine: the constants, a fresh [ImageIntegration], whether
    [executeGlobal] succeeds, whether the window is found and saved. *)
Variable II_ENUM : enum_table.
Variable new_ImageIntegration : obj.
Variable executeGlobal : world -> obj -> bool.
Variable saveXISF : world -> string -> bool.

(** [integrateToMaster] up to the call of [executeGlobal]: the instance
    as it is executed. *)
Definition configure (paths : list string) (forDark : bool)
    (rej : option rej_cfg) : obj :=
  let II := new_ImageIntegration in
  let II := II.["images" <- JRows paths] in
  let II := II.["combination" <- JNum (Comb_Average II_ENUM)] in
  let II := II.["weightMode" <- JNum (Weight_Dont II_ENUM)] in
  let II := II.["evaluateNoise" <- JBool false] in
  let II := II.["generate64BitResult" <- JBool true] in
  let II := II.["generateRejectionMaps" <- JBool false] in
  let II := II.["generateSlopeMaps" <- JBool false] in
  let II := II.["generateIntegratedImage" <- JBool true] in
  let II :=
    if forDark then
      II.["normalization" <- JNum (Norm_None II_ENUM)]
        .["rejection" <- JNum (Rej_Winsor II_ENUM)]
        .["rejectionNormalization" <- JNum (RejNorm_None II_ENUM)]
    else
      let II := II.["normalization" <- JNum (Norm_Mult II_ENUM)] in
      let II := II.["rejectionNormalization" <- JNum (RejNorm_Eq II_ENUM)] in
      let n := List.length paths in
      let II :=
        if (n <? 6)%nat then
          II.["rejection" <- JNum (Rej_PC II_ENUM)]
            .["pcClipLow" <- JNum (20 # 100)]
            .["pcClipHigh" <- JNum (10 # 100)]
        else if (n <=? 15)%nat then
          II.["rejection" <- JNum (Rej_Winsor II_ENUM)]
            .["sigmaLow" <- JNum 4]
            .["sigmaHigh" <- JNum 3]
            .["winsorizationCutoff" <- JNum 5]
            .["clipLow" <- JBool true]
            .["clipHigh" <- JBool true]
        else
          II.["rejection" <- JNum (Rej_LinFit II_ENUM)]
            .["linearFitLow" <- JNum 5]
            .["linearFitHigh" <- JNum 4]
            .["clipLow" <- JBool true]
            .["clipHigh" <- JBool true] in
      II.["largeScaleClipHigh" <- JBool false] in
  if strict_eq (II "rejection") (Some (JNum (Rej_Winsor II_ENUM))) then
    let II :=
      match rej with
      | Some (mkRej (Some lo) _) => II.["sigmaLow" <- JNum lo]
      | _ => II
      end in
    match rej with
    | Some (mkRej _ (Some hi)) => II.["sigmaHigh" <- JNum hi]
    | _ => II
    end
  else II.

Definition integrateToMaster (paths : list string) (outPath : string)
    (forDark : bool) (hints : string) (rej : option rej_cfg) : M unit :=
  if (List.length paths =? 0)%nat then throw ("No frames for " ++ outPath)
  else if (List.length paths <? 3)%nat then
    throw ("ImageIntegration needs >=3 inputs; got "
           ++ Num.string_of_N (N.of_nat (List.length paths)))
  else
    let II := configure paths forDark rej in
    fun w =>
      let w1 := mkWorld (files w) (executed w ++ [(II, outPath)]) in
      if negb (executeGlobal w II) then
        (Throw ("ImageIntegration failed: " ++ outPath), w1)
      else if negb (saveXISF w outPath) then
        (Throw ("saveAs failed for " ++ outPath), w1)
      else (Ret tt, mkWorld (outPath :: files w) (executed w1)).

(** *** [pickDarkFor] *)

(** A master dark of the last tier: its path and its exposure. *)
Definition cand : Type := (string * Q)%type.

(** [allMD.sort(...)]: by distance to [exp], an equal distance keeping
    the order. *)
Definition dist (exp : Q) (a : cand) : Q := Qabs (snd a - exp).

Fixpoint insert_cand (exp : Q) (a : cand) (l : list cand) : list cand :=
  match l with
  | [] => [a]
  | b :: r =>
      if Num.Qlt_bool (dist exp a) (dist exp b) then a :: l
      else b :: insert_cand exp a r
  end.
Definition sort_by_dist (exp : Q) (l : list cand) : list cand :=
  fold_left (fun acc a => insert_cand exp a acc) l [].

(** The loop over the keys of [D]: a master dark per exposure, built
    when its file is not there yet. *)
Fixpoint build_all (cacheDir : string) (hintsCal : string)
    (rej : option rej_cfg) (D : kdict (list dark)) : M (list cand) :=
  match D with
  | [] => ret []
  | (kk, frames) :: more =>
      let out3 := joinPath cacheDir ("MasterDark_" ++ kexp_text kk ++ "s.xisf") in
      let* there := File_exists out3 in
      let* _ :=
        (if there then ret tt
         else integrateToMaster (map path frames) out3 true hintsCal rej) in
      let* rest := build_all cacheDir hintsCal rej more in
      ret ((out3, Num.of_thousandths kk) :: rest)
  end.

Definition pickDarkFor (allowNearestExposureWithOptimize : bool)
    (exp : Q) (want : Scan.want) (cacheDir : string) (cats : list dark)
    (rej : option rej_cfg) (hintsCal : string) (match_ : match_cfg)
    : M (option selection) :=
  let MDF := groupByExp cats MASTERDARKFLAT in
  let MD := groupByExp cats MASTERDARK in
  let DF := groupByExp cats DARKFLAT in
  let D := groupByExp cats DARK in
  let k := kexp exp in
  match slot MDF k with
  | c0 :: l =>
      let best := best_of c0 l want match_ in
      ret (Some (mkSel (path best) false "MasterDarkFlat(exact)"))
  | [] =>
  match slot DF k with
  | _ :: _ =>
      let out := joinPath cacheDir ("MasterDarkFlat_" ++ kexp_text k ++ "s.xisf") in
      let* _ := integrateToMaster (map path (slot DF k)) out true hintsCal rej in
      ret (Some (mkSel out false "MasterDarkFlat(built)"))
  | [] =>
  match slot MD k with
  | c0 :: l =>
      let best2 := best_of c0 l want match_ in
      ret (Some (mkSel (path best2) false "MasterDark(exact)"))
  | [] =>
  match slot D k with
  | _ :: _ =>
      let out2 := joinPath cacheDir ("MasterDark_" ++ kexp_text k ++ "s.xisf") in
      let* _ := integrateToMaster (map path (slot D k)) out2 true hintsCal rej in
      ret (Some (mkSel out2 false "MasterDark(built)"))
  | [] =>
      if allowNearestExposureWithOptimize then
        let allMD :=
          map (fun c => (path c, exposure c)) (flat_map snd MD) in
        let* built := build_all cacheDir hintsCal rej D in
        let allMD := allMD ++ built in
        match sort_by_dist exp allMD with
        | best3 :: _ => ret (Some (mkSel (fst best3) true "MasterDark(nearest+optimize)"))
        | [] => ret None
        end
      else ret None
  end end end end.

End Engine.

(** The key [groupByExp] files an entry under, for the type asked. *)
Definition dark_key (typeName : dark_type) (c : dark) : option Z :=
  if dark_type_eqb (type c) typeName then Some (kexp (exposure c)) else None.

(** The entries of one type whose exposure rounds to the key [k], in the
    order of the catalog. *)
Definition entries_at (cats : list dark) (typeName : dark_type) (k : Z)
    : list dark := bucket (dark_key typeName) k cats.

(** The path of the master dark the script builds for a key. *)
Definition built_dark (cacheDir : string) (kk : Z) : string :=
  joinPath cacheDir ("MasterDark_" ++ kexp_text kk ++ "s.xisf").
Definition built_darkflat (cacheDir : string) (kk : Z) : string :=
  joinPath cacheDir ("MasterDarkFlat_" ++ kexp_text kk ++ "s.xisf").

(** [allMD] of the last tier once every master is there: the master
    darks of the catalog with their exposure, then one built master per
    exposure of raw darks with the exposure its key spells. *)
Definition nearest_candidates (cacheDir : string) (cats : list dark)
    : list cand :=
  map (fun c => (path c, exposure c)) (flat_map snd (groupByExp cats MASTERDARK))
  ++ map (fun kd => (built_dark cacheDir (fst kd), Num.of_thousandths (fst kd)))
       (groupByExp cats DARK).

(** No entry after the first is nearer to [exp] than the first. *)
Definition head_min (exp : Q) (l : list cand) : Prop :=
  match l with
  | [] => True
  | b :: r => forall c, In c r -> (dist exp b <= dist exp c)%Q
  end.

(** [r] is the first of [l] with the highest value of [score]. *)
Definition first_max {A : Type} (score : A -> Q) (r : A) (l : list A) : Prop :=
  exists pre post,
    l = pre ++ r :: post
    /\ (forall c, In c pre -> score c < score r)
    /\ (forall c, In c post -> score c <= score r).

(** *** The score as the specification words it *)

(** A text is known when it is there and not empty; a number when it is
    there. *)
Definition known_text (s : option string) : bool := truthy s.
Definition bonus (granted : bool) (points : Q) : Q :=
  if granted then points else 0.

Definition binning_bonus (c : dark) (want : Scan.want) (match_ : match_cfg) : Q :=
  bonus (enforceBinning match_ && known_text (binning c)
         && known_text (w_binning want) && same_text (binning c) (w_binning want)) 3.

Definition gain_bonus (c : dark) (want : Scan.want) (match_ : match_cfg) : Q :=
  bonus (preferSameGainOffset match_ && near (gain c) (w_gain want) (1 # 100)) 2.

Definition offset_bonus (c : dark) (want : Scan.want) (match_ : match_cfg) : Q :=
  bonus (preferSameGainOffset match_ && near (offset c) (w_offset want) (1 # 2)) 2.

Definition temp_bonus (c : dark) (want : Scan.want) (match_ : match_cfg) : Q :=
  match temp c, w_temp want with
  | Some ct, Some wt =>
      bonus (preferClosestTemp match_
             && Qle_bool (Qabs (ct - wt)) (maxTempDeltaC match_))
        ((3 # 2) - (2 # 10) * Qabs (ct - wt))
  | _, _ => 0
  end.

Definition stated_score (c : dark) (want : Scan.want) (match_ : match_cfg) : Q :=
  binning_bonus c want match_ + gain_bonus c want match_
  + offset_bonus c want match_ + temp_bonus c want match_.

(** The sigma a configuration gives, when it gives a number. *)
Definition rej_low (rej : option rej_cfg) : option Q :=
  match rej with Some r => lowSigma r | None => None end.
Definition rej_high (rej : option rej_cfg) : option Q :=
  match rej with Some r => highSigma r | None => None end.
Definition or_default (v : option Q) (d : Q) : Q :=
  match v with Some x => x | None => d end.

(** [run]: the rejection settings and the wanted profile it passes on. *)
Definition run_rej (CFG_rejection : option rej_cfg) : rej_cfg :=
  match CFG_rejection with
  | Some r => r
  | None => mkRej (Some 5) (Some 5)
  end.

(** [grp.want || {}] with its missing fields set to [null]. *)
Definition run_want (grp_want : option Scan.want) : Scan.want :=
  match grp_want with
  | Some w => w
  | None => mkWant None None None None
  end.

(** The settings [runSelected] writes into the configuration. *)
Definition shipped_match : match_cfg := mkMatchCfg true true true 5.
Definition shipped_rejection : option rej_cfg := Some (mkRej (Some 5) (Some 5)).
Definition shipped_allowNearest : bool := true.

End Js.

(* ------------------------------------------------------------------ *)
(** ** The walk of the roots and the dark inventory *)

Module Darks.

Import Py.
Import KDict.
Import Scan.

(** [SKIP_DIR_PATTERNS] *)
Definition SKIP_DIR_PATTERNS : list string :=
  ["_darkmasters"; "_calibratedflats"; "masters"].

Definition _is_skip_dir (name : string) : bool :=
  existsb (String.eqb (Str.lower name)) SKIP_DIR_PATTERNS
  || Str.startswith "." name.

(** A directory as [os.walk] goes through it: the sub-directories it
    descends into, by name, and the names of its other entries. A
    directory that cannot be listed, on which [os.walk] is silent, and a
    link to a directory, which it does not follow, are not in the tree. *)
#[local] Unset Elimination Schemes.
Inductive dir_tree : Type :=
| Dir (subdirs : list (string * dir_tree)) (files : list string).
#[local] Set Elimination Schemes.

(** [os.walk(top)], top down, for a caller that leaves in [dirs] the
    names satisfying [keep]: the [r] and [files] of what it yields. *)
Fixpoint os_walk (join : string -> string -> string) (keep : string -> bool)
    (top : string) (t : dir_tree) : list (string * list string) :=
  match t with
  | Dir subdirs files =>
      (top, files)
      :: flat_map
           (fun ds =>
              if keep (fst ds)
              then os_walk join keep (join top (fst ds)) (snd ds)
              else [])
           subdirs
  end.

(** The directory reached from [t] by going down the names of [chain]. *)
Inductive at_chain : dir_tree -> list string -> dir_tree -> Prop :=
| at_here (t : dir_tree) : at_chain t [] t
| at_down (subdirs : list (string * dir_tree)) (files : list string)
    (d : string) (sub : dir_tree) (chain : list string) (t' : dir_tree) :
    In (d, sub) subdirs -> at_chain sub chain t' ->
    at_chain (Dir subdirs files) (d :: chain) t'.

(** [_classify_dark_type]; [None] is the empty string. *)
Definition _classify_dark_type (name : string) : option Js.dark_type :=
  let u := Str.upper name in
  if Str.contains "MASTERDARKFLAT" u then Some Js.MASTERDARKFLAT
  else if Str.contains "MASTERDARK" u then Some Js.MASTERDARK
  else if Str.contains "DARKFLAT" u then Some Js.DARKFLAT
  else if Str.contains "DARK" u then Some Js.DARK
  else None.

Definition type_name (t : Js.dark_type) : string :=
  match t with
  | Js.MASTERDARKFLAT => "MASTERDARKFLAT"
  | Js.MASTERDARK => "MASTERDARK"
  | Js.DARKFLAT => "DARKFLAT"
  | Js.DARK => "DARK"
  end.

(** The order in which a type is preferred to another. *)
Definition rank (t : option Js.dark_type) : nat :=
  match t with
  | Some Js.MASTERDARKFLAT => 4
  | Some Js.MASTERDARK => 3
  | Some Js.DARKFLAT => 2
  | Some Js.DARK => 1
  | None => 0
  end.

(** The rows of the dark tree of the window: a row per type, under it a
    row per exposure, under that a row per file, which can be ticked.
    The ticks of the rows above are not read back. *)
Record file_item : Type := mkFileItem {
  fi_text : string;
  fi_checked : bool
}.

Record exp_item : Type := mkExpItem {
  ei_text : string;
  ei_files : list file_item
}.

Record type_item : Type := mkTypeItem {
  ti_text : string;
  ti_exps : list exp_item
}.

(** [sorted(l, key=lambda dd: dd["path"].lower())]; an equal key stays
    behind the ones already placed. *)
Fixpoint insert_dark (d : Js.dark) (l : list Js.dark) : list Js.dark :=
  match l with
  | [] => [d]
  | e :: r =>
      if String.ltb (Str.lower (Js.path d)) (Str.lower (Js.path e)) then d :: l
      else e :: insert_dark d r
  end.
Definition sorted_darks (l : list Js.dark) : list Js.dark :=
  fold_left (fun acc d => insert_dark d acc) l [].

(** The key of [by_type[typ]] an entry is filed under: the text
    [f"{d['exposure']:.3f}s"], kept as the thousandths it spells. *)
Definition inventory_key (typ : Js.dark_type) (d : Js.dark) : option Z :=
  if Js.dark_type_eqb (Js.type d) typ then Some (Num.round3 (Js.exposure d))
  else None.

Definition type_row (catalog : list Js.dark) (typ : Js.dark_type) : type_item :=
  let by_exp := group_by (inventory_key typ) catalog in
  mkTypeItem (type_name typ)
    (map (fun kexp =>
            mkExpItem (Num.fmt3 kexp ++ "s")
              (map (fun d => mkFileItem (Js.path d) true)
                 (sorted_darks
                    (match kget kexp by_exp with Some l => l | None => [] end))))
       (sorted_keys (map fst by_exp))).

Record dark_state : Type := mkDarkState {
  dark_catalog : list Js.dark;
  dark_tree : list type_item
}.

Section Inventory.
Variable P : platform.

(** The directories the walks of the roots yield, in their order; a
    root comes with the tree that is found there. *)
Definition walk_roots (roots : list (string * dir_tree))
    : list (string * list string) :=
  flat_map
    (fun rt =>
       os_walk (os_path_join P) (fun d => negb (_is_skip_dir d)) (fst rt) (snd rt))
    roots.

Definition _iter_candidate_files (roots : list (string * dir_tree))
    : list string :=
  flat_map
    (fun rf =>
       map (os_path_join P (fst rf))
         (filter
            (fun fn => existsb (String.eqb (Str.lower (splitext_ext fn))) FILE_EXTS)
            (snd rf)))
    (walk_roots roots).

(** The loop of [scan_darks] that fills the catalog. *)
Fixpoint catalog_loop (meta_map : list (string * meta)) (cand : list string)
    : list Js.dark :=
  match cand with
  | [] => []
  | p :: more =>
      match _classify_dark_type (os_path_basename P p) with
      | None => catalog_loop meta_map more
      | Some typ =>
          let mm := lookup_meta meta_map p in
          match exposure mm with
          | None => catalog_loop meta_map more
          | Some ex =>
              Js.mkDark p typ ex (binning mm) (gain mm) (offset mm) (temp mm)
              :: catalog_loop meta_map more
          end
      end
  end.

Definition scan_darks (dark_roots : list (string * dir_tree))
    : result dark_state :=
  match dark_roots with
  | [] => Ok (mkDarkState [] [])
  | _ =>
      let cand := _iter_candidate_files dark_roots in
      match _scan_files_meta_threaded P cand with
      | Raise e => Raise e
      | Ok meta_map =>
          let catalog := catalog_loop meta_map cand in
          Ok (mkDarkState catalog
                (map (type_row catalog)
                   [Js.MASTERDARKFLAT; Js.MASTERDARK; Js.DARKFLAT; Js.DARK]))
      end
  end.

End Inventory.

(** The texts of the file rows that are ticked. *)
Definition allowed (rows : list type_item) : list string :=
  flat_map
    (fun typItem =>
       flat_map
         (fun expItem => map fi_text (filter fi_checked (ei_files expItem)))
         (ti_exps typItem))
    rows.

Definition _gather_allowed_darks (rows : list type_item)
    (dark_catalog : list Js.dark) : list Js.dark :=
  filter (fun d => existsb (String.eqb (Js.path d)) (allowed rows)) dark_catalog.

End Darks.

(* ------------------------------------------------------------------ *)
(** ** The helpers of a run *)

Module Run.

(** [f"{round(x, 3):.3f}"]: the thousandths [x] rounds to, with three
    decimals; a negative [x] that rounds to zero keeps its sign, as the
    float [round] returns for it does. *)
Definition fmt_round3 (x : Q) : string :=
  let k := Num.round3 x in
  if (k =? 0)%Z && Num.Qlt_bool x 0 then "-0.000" else Num.fmt3 k.

(** [_kexp_py] of [runSelected]: that text without its trailing zeros
    and without a trailing point. *)
Definition _kexp_py (x : Q) : string :=
  let s := fmt_round3 x in
  Str.rstrip (Ascii.eqb ".") (Str.rstrip (Ascii.eqb "0") s).

(** What the first [n] calls of [f.read] give, put together. *)
Fixpoint first_chunks (n : nat) (f : Py.stream) : string :=
  match n, f with
  | S n', Py.Chunk b more => b ++ first_chunks n' more
  | _, _ => ""
  end.

(** [_set_all_dirs]: every directory row is ticked, or none is. *)
Definition _set_all_dirs (checked : bool) (rows : list Scan.dir_item)
    : list Scan.dir_item :=
  map (fun dirItem =>
         Scan.mkDirItem (Scan.di_text dirItem) checked (Scan.di_groups dirItem))
    rows.

(** [_set_all_darks], through [_set_children_check]: every file row below
    every type row gets the state. *)
Definition _set_all_darks (checked : bool) (rows : list Darks.type_item)
    : list Darks.type_item :=
  map (fun typItem =>
         Darks.mkTypeItem (Darks.ti_text typItem)
           (map (fun expItem =>
                   Darks.mkExpItem (Darks.ei_text expItem)
                     (map (fun fItem => Darks.mkFileItem (Darks.fi_text fItem) checked)
                        (Darks.ei_files expItem)))
              (Darks.ti_exps typItem)))
    rows.

(** [masterName] of [run]: the name of the master flat of a group, from
    the date and the filter guessed for it. *)
Definition masterName (dateStr filt : string) (exp : Q) : string :=
  "MasterFlat_" ++ dateStr ++ "_" ++ filt ++ "_"
  ++ Js.kexp_text (Js.kexp exp) ++ "s.xisf".

End Run.

(* ------------------------------------------------------------------ *)
(** ** Sample machines, for the worked examples *)

Module Sample.

Import Py.

(** A machine with Windows separators on which [listing] is the content
    of every directory and [hdr] what the FITS library reads. *)
Definition machine (listing : list string) (hdr : result header) : platform :=
  mkPlatform
    (Str.after_last Scan.is_sep)
    (fun d f => (d ++ "\" ++ f)%string)
    (fun _ => true)
    (fun _ => Ok listing)
    Scan.splitext_ext
    (fun v => match v with HStr s => s | _ => "" end)
    true
    (fun _ => hdr)
    (fun _ => Eof)
    (fun b => b)
    (fun _ => Raise OtherError).

(** Metadata that holds the exposure the name of the file spells and
    nothing else. *)
Definition by_name (p : string) : meta :=
  mkMeta (infer_loop _EXPOSURE_NAME_RES p) None None None None.

(** An engine whose rejection constants are pairwise different, whose
    fresh instance has no property set, and which never fails. *)
Definition enum : Js.enum_table := Js.mkEnum 0 0 0 1 0 1 2 3 0 1.
Definition fresh : Js.obj := fun _ => None.
Definition always (w : Js.world) (o : Js.obj) : bool := true.
Definition saves (w : Js.world) (p : string) : bool := true.
Definition empty_world : Js.world := Js.mkWorld [] [].

End Sample.

(* ================================================================== *)
(** * Properties *)

(** ** Dictionaries keyed by an exposure *)

Section KDictFacts.
Import KDict.
Context {A : Type} (key : A -> option Z).

Lemma kget_push (k k' : Z) (x : A) (d : kdict (list A)) :
  kget k (push k' x d) =
  if (k =? k')%Z
  then Some (match kget k d with Some l => l ++ [x] | None => [x] end)
  else kget k d.
Proof.
  induction d as [|[k0 l0] d IH]; simpl.
  - destruct (k =? k')%Z eqn:E; reflexivity.
  - destruct (k' =? k0)%Z eqn:E0; simpl.
    + apply Z.eqb_eq in E0; subst k0.
      destruct (k =? k')%Z; reflexivity.
    + destruct (k =? k0)%Z eqn:E1.
      * apply Z.eqb_eq in E1; subst k0.
        rewrite Z.eqb_sym in E0. rewrite E0. reflexivity.
      * exact IH.
Qed.

Lemma keys_push (k : Z) (x : A) (d : kdict (list A)) :
  map fst (push k x d) =
  if existsb (Z.eqb k) (map fst d) then map fst d else map fst d ++ [k].
Proof.
  induction d as [|[k0 l0] d IH]; simpl; [reflexivity|].
  destruct (k =? k0)%Z; simpl; [reflexivity|].
  rewrite IH. destruct (existsb _ _); reflexivity.
Qed.

Lemma NoDup_keys_push (k : Z) (x : A) (d : kdict (list A)) :
  NoDup (map fst d) -> NoDup (map fst (push k x d)).
Proof.
  intros H. rewrite keys_push.
  destruct (existsb (Z.eqb k) (map fst d)) eqn:E; [exact H|].
  apply NoDup_rev in H. rewrite <- (rev_involutive (_ ++ _)).
  apply NoDup_rev. rewrite rev_app_distr. simpl.
  constructor; [|exact H].
  rewrite <- in_rev. intros Hin.
  assert (existsb (Z.eqb k) (map fst d) = true) as E'
    by (apply existsb_exists; exists k; split; [exact Hin|apply Z.eqb_refl]).
  congruence.
Qed.

Lemma NoDup_keys_fold (l : list A) (d : kdict (list A)) :
  NoDup (map fst d) -> NoDup (map fst (fold_left (put key) l d)).
Proof.
  revert d. induction l as [|x l IH]; intros d H; simpl; [exact H|].
  apply IH. unfold put. destruct (key x); [apply NoDup_keys_push|]; exact H.
Qed.

Lemma NoDup_keys_group_by (l : list A) : NoDup (map fst (group_by key l)).
Proof. apply NoDup_keys_fold. constructor. Qed.

Lemma kget_fold (k : Z) (l : list A) (d : kdict (list A)) :
  kget k (fold_left (put key) l d) =
  match kget k d, bucket key k l with
  | Some b0, b => Some (b0 ++ b)
  | None, [] => None
  | None, b => Some b
  end.
Proof.
  revert d. induction l as [|x l IH]; intros d; simpl.
  - destruct (kget k d); [rewrite app_nil_r|]; reflexivity.
  - rewrite IH. unfold put, bucket, has_key. simpl.
    destruct (key x) as [k'|]; [|reflexivity].
    rewrite kget_push. fold (has_key key k). fold (bucket key k l).
    destruct (k =? k')%Z.
    + destruct (kget k d); [rewrite <- app_assoc|]; reflexivity.
    + reflexivity.
Qed.

Lemma kget_group_by (k : Z) (l : list A) :
  kget k (group_by key l) =
  match bucket key k l with [] => None | b => Some b end.
Proof. unfold group_by. rewrite kget_fold. reflexivity. Qed.

Lemma In_kget {V : Type} (d : kdict V) (k : Z) (v : V) :
  NoDup (map fst d) -> (In (k, v) d <-> kget k d = Some v).
Proof.
  induction d as [|[k0 v0] d IH]; simpl; intros H.
  - split; [tauto|discriminate].
  - inversion H as [|? ? Hnot Hnd]; subst.
    destruct (k =? k0)%Z eqn:E.
    + apply Z.eqb_eq in E; subst k0. split.
      * intros [Heq|Hin]; [congruence|].
        exfalso. apply Hnot. apply (in_map fst) in Hin. exact Hin.
      * intros Heq. left. congruence.
    + apply Z.eqb_neq in E. rewrite <- (IH Hnd). split.
      * intros [Heq|Hin]; [congruence|exact Hin].
      * intros Hin. right. exact Hin.
Qed.

Lemma kget_key_in {V : Type} (d : kdict V) (k : Z) (v : V) :
  kget k d = Some v -> In (k, v) d.
Proof.
  induction d as [|[k0 v0] d IH]; simpl; [discriminate|].
  destruct (k =? k0)%Z eqn:E.
  - apply Z.eqb_eq in E; subst. intros H; left; congruence.
  - intros H; right; exact (IH H).
Qed.

Lemma bucket_keyed (k : Z) (l : list A) (x : A) :
  In x (bucket key k l) -> In x l /\ key x = Some k.
Proof.
  unfold bucket. rewrite filter_In. unfold has_key.
  intros [Hin Hk]. split; [exact Hin|].
  destruct (key x) as [k'|]; [|discriminate].
  apply Z.eqb_eq in Hk. congruence.
Qed.

Lemma group_by_well_keyed (l : list A) : well_keyed key (group_by key l).
Proof.
  intros k b Hin.
  apply In_kget in Hin; [|apply NoDup_keys_group_by].
  rewrite kget_group_by in Hin.
  destruct (bucket key k l) as [|x b'] eqn:E; [discriminate|].
  injection Hin as <-. split; [discriminate|].
  intros y Hy. rewrite <- E in Hy. apply bucket_keyed in Hy. tauto.
Qed.

(** Filing again the lists of a dictionary, one after the other, builds
    the same dictionary. *)
Lemma fold_same_key (k : Z) (b b0 : list A) (acc : kdict (list A)) :
  (forall x, In x b -> key x = Some k) ->
  ~ In k (map fst acc) ->
  fold_left (put key) b (acc ++ [(k, b0)]) = acc ++ [(k, b0 ++ b)].
Proof.
  revert b0. induction b as [|x b IH]; intros b0 Hk Hnot; simpl.
  - rewrite app_nil_r. reflexivity.
  - unfold put at 2. rewrite (Hk x (or_introl eq_refl)).
    assert (push k x (acc ++ [(k, b0)]) = acc ++ [(k, b0 ++ [x])]) as ->.
    { clear -Hnot. induction acc as [|[k1 l1] acc IHa]; simpl.
      - rewrite Z.eqb_refl. reflexivity.
      - destruct (k =? k1)%Z eqn:E.
        + apply Z.eqb_eq in E. subst. exfalso. apply Hnot. left. reflexivity.
        + rewrite IHa; [reflexivity|]. intros H. apply Hnot. right. exact H. }
    rewrite IH; [rewrite <- app_assoc; reflexivity| |exact Hnot].
    intros y Hy. apply Hk. right. exact Hy.
Qed.

Lemma fold_flat (d acc : kdict (list A)) :
  well_keyed key d ->
  NoDup (map fst (acc ++ d)) ->
  fold_left (put key) (flat_map snd d) acc = acc ++ d.
Proof.
  revert acc. induction d as [|[k b] d IH]; intros acc Hwk Hnd; simpl.
  - rewrite app_nil_r. reflexivity.
  - rewrite fold_left_app.
    destruct (Hwk k b (or_introl eq_refl)) as [Hne Hk].
    destruct b as [|x b]; [congruence|].
    assert (~ In k (map fst acc)) as Hnot.
    { rewrite map_app in Hnd. simpl in Hnd.
      apply NoDup_remove_2 in Hnd. intros H. apply Hnd.
      apply in_or_app. left. exact H. }
    assert (fold_left (put key) (x :: b) acc = acc ++ [(k, x :: b)]) as ->.
    { simpl. unfold put at 2. rewrite (Hk x (or_introl eq_refl)).
      assert (push k x acc = acc ++ [(k, [x])]) as ->.
      { clear -Hnot. induction acc as [|[k1 l1] acc IHa]; simpl; [reflexivity|].
        destruct (k =? k1)%Z eqn:E.
        - apply Z.eqb_eq in E. subst. exfalso. apply Hnot. left. reflexivity.
        - rewrite IHa; [reflexivity|]. intros H. apply Hnot. right. exact H. }
      apply (fold_same_key k b [x] acc); [|exact Hnot].
      intros y Hy. apply Hk. right. exact Hy. }
    rewrite IH.
    + rewrite <- app_assoc. reflexivity.
    + intros k' b' Hin. apply Hwk. right. exact Hin.
    + rewrite <- app_assoc. exact Hnd.
Qed.

Lemma group_by_flat (d : kdict (list A)) :
  well_keyed key d -> NoDup (map fst d) ->
  group_by key (flat_map snd d) = d.
Proof.
  intros Hwk Hnd. unfold group_by.
  rewrite (fold_flat d []); [reflexivity|exact Hwk|exact Hnd].
Qed.

Lemma In_flat_group_by (l : list A) (x : A) :
  In x (flat_map snd (group_by key l)) <-> In x l /\ key x <> None.
Proof.
  rewrite in_flat_map. split.
  - intros [[k b] [Hin Hx]]. simpl in Hx.
    apply In_kget in Hin; [|apply NoDup_keys_group_by].
    rewrite kget_group_by in Hin.
    destruct (bucket key k l) as [|y b'] eqn:E; [discriminate|].
    injection Hin as <-. rewrite <- E in Hx.
    apply bucket_keyed in Hx. destruct Hx as [H1 H2].
    split; [exact H1|congruence].
  - intros [Hin Hk]. destruct (key x) as [k|] eqn:E; [|congruence].
    assert (In x (bucket key k l)) as Hb.
    { unfold bucket. apply filter_In. split; [exact Hin|].
      unfold has_key. rewrite E. apply Z.eqb_refl. }
    exists (k, bucket key k l). split; [|exact Hb].
    apply kget_key_in. rewrite kget_group_by.
    destruct (bucket key k l); [contradiction|reflexivity].
Qed.

End KDictFacts.

(** ** Sorting the keys *)

Section SortFacts.
Import Scan.

Lemma insert_key_perm (x : Z) (l : list Z) : Permutation (insert_key x l) (x :: l).
Proof.
  induction l as [|y l IH]; simpl; [reflexivity|].
  destruct (x <? y)%Z; [reflexivity|].
  rewrite IH. apply perm_swap.
Qed.

Lemma sorted_keys_fold_perm (l acc : list Z) :
  Permutation (fold_left (fun a x => insert_key x a) l acc) (acc ++ l).
Proof.
  revert acc. induction l as [|x l IH]; intros acc; simpl.
  - rewrite app_nil_r. reflexivity.
  - rewrite IH, insert_key_perm.
    change (x :: acc) with ([x] ++ acc).
    rewrite (Permutation_app_comm [x] acc), <- app_assoc. reflexivity.
Qed.

Lemma sorted_keys_perm (l : list Z) : Permutation (sorted_keys l) l.
Proof. apply (sorted_keys_fold_perm l []). Qed.

Lemma In_sorted_keys (l : list Z) (x : Z) : In x (sorted_keys l) <-> In x l.
Proof.
  split; apply Permutation_in; [|symmetry]; apply sorted_keys_perm.
Qed.

Lemma insert_key_sorted (x : Z) (l : list Z) :
  StronglySorted Z.le l -> StronglySorted Z.le (insert_key x l).
Proof.
  induction 1 as [|y l Hs IH Hall]; simpl.
  - constructor; constructor.
  - destruct (x <? y)%Z eqn:E.
    + apply Z.ltb_lt in E. constructor.
      * constructor; assumption.
      * constructor; [lia|].
        eapply Forall_impl; [|exact Hall]. simpl. intros; lia.
    + apply Z.ltb_ge in E. constructor; [exact IH|].
      rewrite Forall_forall. intros z Hz.
      apply (Permutation_in _ (insert_key_perm x l)) in Hz.
      destruct Hz as [<-|Hz]; [exact E|].
      rewrite Forall_forall in Hall. exact (Hall z Hz).
Qed.

Lemma sorted_keys_sorted (l : list Z) : StronglySorted Z.le (sorted_keys l).
Proof.
  unfold sorted_keys.
  assert (forall acc, StronglySorted Z.le acc ->
            StronglySorted Z.le (fold_left (fun a x => insert_key x a) l acc))
    as H.
  { induction l as [|x l IH]; intros acc Ha; simpl; [exact Ha|].
    apply IH. apply insert_key_sorted. exact Ha. }
  apply H. constructor.
Qed.

Lemma insert_key_last (x : Z) (l : list Z) :
  Forall (fun y => (y <= x)%Z) l -> insert_key x l = l ++ [x].
Proof.
  induction 1 as [|y l Hy _ IH]; simpl; [reflexivity|].
  destruct (x <? y)%Z eqn:E; [apply Z.ltb_lt in E; lia|].
  rewrite IH. reflexivity.
Qed.

Lemma sorted_keys_fold_id (l acc : list Z) :
  StronglySorted Z.le (acc ++ l) ->
  fold_left (fun a x => insert_key x a) l acc = acc ++ l.
Proof.
  revert acc. induction l as [|x l IH]; intros acc Hs; simpl.
  - rewrite app_nil_r. reflexivity.
  - rewrite insert_key_last.
    + rewrite IH; rewrite <- app_assoc; [reflexivity|exact Hs].
    + clear IH. induction acc as [|a acc IHa]; [constructor|].
      simpl in Hs. inversion Hs as [|? ? Hs' Hall]; subst.
      constructor; [|exact (IHa Hs')].
      rewrite Forall_forall in Hall. apply Hall.
      apply in_or_app. right. left. reflexivity.
Qed.

(** Sorting a sorted list of keys changes nothing. *)
Lemma sorted_keys_id (l : list Z) :
  StronglySorted Z.le l -> sorted_keys l = l.
Proof. intros H. apply (sorted_keys_fold_id l []). exact H. Qed.

Lemma sorted_keys_idem (l : list Z) : sorted_keys (sorted_keys l) = sorted_keys l.
Proof. apply sorted_keys_id, sorted_keys_sorted. Qed.

Lemma sorted_keys_NoDup (l : list Z) : NoDup l -> NoDup (sorted_keys l).
Proof.
  apply Permutation_NoDup. symmetry. apply sorted_keys_perm.
Qed.

(** Two sorted lists of keys without repetition and with the same
    elements are the same list. *)
Lemma sorted_unique (l1 l2 : list Z) :
  StronglySorted Z.le l1 -> StronglySorted Z.le l2 ->
  NoDup l1 -> NoDup l2 ->
  (forall x, In x l1 <-> In x l2) -> l1 = l2.
Proof.
  revert l2. induction l1 as [|a l1 IH]; intros l2 S1 S2 N1 N2 Hin.
  - destruct l2 as [|b l2]; [reflexivity|].
    exfalso. apply (proj2 (Hin b)). left. reflexivity.
  - destruct l2 as [|b l2].
    + exfalso. apply (proj1 (Hin a)). left. reflexivity.
    + inversion S1 as [|? ? S1' A1]; subst.
      inversion S2 as [|? ? S2' A2]; subst.
      inversion N1 as [|? ? Na N1']; subst.
      inversion N2 as [|? ? Nb N2']; subst.
      rewrite Forall_forall in A1, A2.
      assert (a = b) as ->.
      { destruct (proj1 (Hin a) (or_introl eq_refl)) as [E|Ha]; [congruence|].
        destruct (proj2 (Hin b) (or_introl eq_refl)) as [E|Hb]; [congruence|].
        specialize (A1 b Hb). specialize (A2 a Ha). lia. }
      f_equal. apply IH; try assumption.
      intros x. split; intros Hx.
      * destruct (proj1 (Hin x) (or_intror Hx)) as [E|H]; [|exact H].
        subst. contradiction.
      * destruct (proj2 (Hin x) (or_intror Hx)) as [E|H]; [|exact H].
        subst. contradiction.
Qed.

End SortFacts.

(** ** Grouping the files of a directory *)

Section DictFacts.
Import KDict.

Lemma kget_notin {V : Type} (k : Z) (d : kdict V) :
  ~ In k (map fst d) -> kget k d = None.
Proof.
  induction d as [|[k0 v0] d IH]; simpl; intros H; [reflexivity|].
  destruct (k =? k0)%Z eqn:E.
  - apply Z.eqb_eq in E. exfalso. apply H. left. congruence.
  - apply IH. intros Hin. apply H. right. exact Hin.
Qed.

Lemma kget_filter {V : Type} (f : Z * V -> bool) (k : Z) (d : kdict V) :
  NoDup (map fst d) ->
  kget k (filter f d) =
  match kget k d with
  | Some v => if f (k, v) then Some v else None
  | None => None
  end.
Proof.
  induction d as [|[k0 v0] d IH]; simpl; intros H; [reflexivity|].
  inversion H as [|? ? Hnot Hnd]; subst.
  destruct (k =? k0)%Z eqn:E.
  - apply Z.eqb_eq in E. subst k0.
    destruct (f (k, v0)); simpl.
    + rewrite Z.eqb_refl. reflexivity.
    + apply kget_notin. intros Hin. apply Hnot.
      apply in_map_iff in Hin. destruct Hin as [[k1 v1] [E1 Hin]].
      apply filter_In in Hin. destruct Hin as [Hin _]. simpl in E1. subst k1.
      apply (in_map fst) in Hin. exact Hin.
  - destruct (f (k0, v0)); simpl; [rewrite E|]; exact (IH Hnd).
Qed.

Lemma kget_map_values {V W : Type} (h : V -> W) (k : Z) (d : kdict V) :
  kget k (map (fun kp => (fst kp, h (snd kp))) d) = option_map h (kget k d).
Proof.
  induction d as [|[k0 v0] d IH]; simpl; [reflexivity|].
  destruct (k =? k0)%Z; [reflexivity|exact IH].
Qed.

Lemma flat_map_singleton {X Y : Type} (f : X -> list Y) (g : X -> Y)
    (l : list X) :
  (forall x, In x l -> f x = [g x]) -> flat_map f l = map g l.
Proof.
  induction l as [|x l IH]; simpl; intros H; [reflexivity|].
  rewrite (H x (or_introl eq_refl)). simpl. f_equal.
  apply IH. intros y Hy. apply H. right. exact Hy.
Qed.

Lemma fold_left_pointwise {X Y : Type} (f g : X -> Y -> X) (l : list Y) (a : X) :
  (forall a y, f a y = g a y) -> fold_left f l a = fold_left g l a.
Proof.
  intros H. revert a. induction l as [|y l IH]; intros a; simpl; [reflexivity|].
  rewrite H. apply IH.
Qed.

Lemma filter_all {X : Type} (f : X -> bool) (l : list X) :
  (forall x, In x l -> f x = true) -> filter f l = l.
Proof.
  induction l as [|x l IH]; simpl; intros H; [reflexivity|].
  rewrite (H x (or_introl eq_refl)). f_equal.
  apply IH. intros y Hy. apply H. right. exact Hy.
Qed.

Lemma filter_perm {X : Type} (f : X -> bool) (l l' : list X) :
  Permutation l l' -> Permutation (filter f l) (filter f l').
Proof.
  induction 1 as [|x l l' _ IH|x y l|l l' l'' _ IH1 _ IH2]; simpl.
  - constructor.
  - destruct (f x); [constructor|]; exact IH.
  - destruct (f x), (f y); try reflexivity. apply perm_swap.
  - etransitivity; eassumption.
Qed.

End DictFacts.

Section GroupingFacts.
Import KDict Py Scan.
Variable meta_map : string -> meta.



Lemma make_bins_group_by (l : list string) :
  make_bins meta_map l = group_by (file_key meta_map) l.
Proof.
  unfold make_bins, group_by. apply fold_left_pointwise.
  intros bins p. unfold add_file, put, file_key, setdefault_append.
  destruct (exposure (meta_map p)); reflexivity.
Qed.

Lemma make_bins_NoDup (l : list string) : NoDup (map fst (make_bins meta_map l)).
Proof. rewrite make_bins_group_by. apply NoDup_keys_group_by. Qed.

Lemma kget_make_bins (k : Z) (l : list string) :
  kget k (make_bins meta_map l) =
  match bucket (file_key meta_map) k l with [] => None | b => Some b end.
Proof. rewrite make_bins_group_by. apply kget_group_by. Qed.

(** No list of [bins] is empty: [plist[0]] is always there. *)
Lemma make_bins_nonempty (l : list string) (k : Z) (plist : list string) :
  In (k, plist) (make_bins meta_map l) -> plist <> [].
Proof.
  rewrite make_bins_group_by. intros H.
  exact (proj1 (group_by_well_keyed (file_key meta_map) l k plist H)).
Qed.

Lemma In_surviving_keys (l : list string) (k : Z) :
  In k (surviving_keys meta_map l) <-> (3 <= List.length (bucket (file_key meta_map) k l))%nat.
Proof.
  unfold surviving_keys. rewrite In_sorted_keys, in_map_iff. split.
  - intros [[k' b] [E Hin]]. simpl in E. subst k'.
    apply filter_In in Hin. destruct Hin as [Hin Hlen]. simpl in Hlen.
    apply In_kget in Hin; [|apply make_bins_NoDup].
    rewrite kget_make_bins in Hin.
    destruct (bucket (file_key meta_map) k l) as [|x b'] eqn:Eb; [discriminate|].
    injection Hin as <-. apply Nat.leb_le. exact Hlen.
  - intros Hlen. exists (k, bucket (file_key meta_map) k l). split; [reflexivity|].
    apply filter_In. split; [|apply Nat.leb_le; exact Hlen].
    apply kget_key_in. rewrite kget_make_bins.
    destruct (bucket (file_key meta_map) k l); [simpl in Hlen; lia|reflexivity].
Qed.

Lemma surviving_keys_sorted (l : list string) :
  StronglySorted Z.le (surviving_keys meta_map l).
Proof. apply sorted_keys_sorted. Qed.

Lemma surviving_keys_NoDup (l : list string) : NoDup (surviving_keys meta_map l).
Proof.
  apply sorted_keys_NoDup.
  assert (forall (d : kdict (list string)) f,
            NoDup (map fst d) -> NoDup (map fst (filter f d))) as H.
  { intros d f. induction d as [|[k0 v0] d IH]; simpl; intros Hd; [constructor|].
    inversion Hd as [|? ? Hnot Hnd]; subst.
    destruct (f (k0, v0)); simpl; [|exact (IH Hnd)].
    constructor; [|exact (IH Hnd)].
    intros Hin. apply Hnot. apply in_map_iff in Hin.
    destruct Hin as [[k1 v1] [E Hin]]. apply filter_In in Hin.
    destruct Hin as [Hin _].
    simpl in E. subst k1. apply (in_map fst) in Hin. exact Hin. }
  apply H, make_bins_NoDup.
Qed.

(** Both look-ups of [make_groups] find their key, so the groups are the
    buckets of the surviving keys. *)
Lemma make_groups_complete (l : list string) :
  make_groups (filter_bins (make_bins meta_map l))
    (make_wants meta_map (make_bins meta_map l))
  = map (bucket_group meta_map l) (surviving_keys meta_map l).
Proof.
  unfold make_groups. fold (surviving_keys meta_map l).
  apply flat_map_singleton. intros k Hk.
  apply In_surviving_keys in Hk.
  unfold group_of, filter_bins, make_wants.
  rewrite kget_filter by apply make_bins_NoDup.
  rewrite (kget_map_values (fun plist => want_of (meta_map (hd "" plist)))).
  rewrite kget_make_bins.
  destruct (bucket (file_key meta_map) k l) as [|x b] eqn:E; [simpl in Hk; lia|].
  simpl snd. apply Nat.leb_le in Hk. rewrite Hk. simpl.
  unfold bucket_group. rewrite E. reflexivity.
Qed.

Lemma group_dir_spec (l : list string) :
  group_dir meta_map l =
  match surviving_keys meta_map l with
  | [] => None
  | ks => Some (map (bucket_group meta_map l) ks)
  end.
Proof.
  unfold group_dir. rewrite make_groups_complete.
  unfold surviving_keys.
  destruct (filter_bins (make_bins meta_map l)) as [|kb d] eqn:E.
  - reflexivity.
  - destruct (sorted_keys (map fst (kb :: d))) as [|k ks] eqn:Es; [|reflexivity].
    exfalso. pose proof (sorted_keys_perm (map fst (kb :: d))) as Hp.
    rewrite Es in Hp. apply Permutation_nil in Hp. discriminate.
Qed.

End GroupingFacts.

Section Regrouping.
Import KDict Py Scan.
Variable meta_map : string -> meta.

Lemma kget_tabulate {V : Type} (h : Z -> V) (k : Z) (ks : list Z) :
  kget k (map (fun k' => (k', h k')) ks) =
  if existsb (Z.eqb k) ks then Some (h k) else None.
Proof.
  induction ks as [|k0 ks IH]; simpl; [reflexivity|].
  destruct (k =? k0)%Z eqn:E; simpl; [|exact IH].
  apply Z.eqb_eq in E. subst. reflexivity.
Qed.

Lemma files_of_bucket_groups (l : list string) (ks : list Z) :
  flat_map g_files (map (bucket_group meta_map l) ks)
  = flat_map snd (map (fun k => (k, bucket (file_key meta_map) k l)) ks).
Proof.
  induction ks as [|k ks IH]; simpl; [reflexivity|]. rewrite IH. reflexivity.
Qed.

(** The files of the kept groups, taken group after group, fall into the
    buckets they came from. *)
Lemma bucket_of_kept (l : list string) (k : Z) :
  bucket (file_key meta_map) k
    (flat_map g_files
       (map (bucket_group meta_map l) (surviving_keys meta_map l))) =
  if existsb (Z.eqb k) (surviving_keys meta_map l)
  then bucket (file_key meta_map) k l else [].
Proof.
  set (ks := surviving_keys meta_map l).
  set (l' := flat_map g_files (map (bucket_group meta_map l) ks)).
  assert (kget k (group_by (file_key meta_map) l') =
          if existsb (Z.eqb k) ks
          then Some (bucket (file_key meta_map) k l) else None) as H.
  { unfold l'. rewrite files_of_bucket_groups, group_by_flat.
    - apply (kget_tabulate (fun k0 => bucket (file_key meta_map) k0 l)).
    - intros k' b Hin. apply in_map_iff in Hin.
      destruct Hin as [k1 [E Hk1]]. injection E as -> <-.
      apply In_surviving_keys in Hk1. split.
      + destruct (bucket (file_key meta_map) k' l); [simpl in Hk1; lia|discriminate].
      + intros x Hx. apply bucket_keyed in Hx. tauto.
    - rewrite map_map. simpl. rewrite map_id. apply surviving_keys_NoDup. }
  rewrite kget_group_by in H.
  destruct (existsb (Z.eqb k) ks) eqn:E.
  - destruct (bucket (file_key meta_map) k l'); [discriminate|congruence].
  - destruct (bucket (file_key meta_map) k l'); [reflexivity|discriminate].
Qed.

Lemma surviving_keys_of_perm (l files' : list string) :
  let ks := surviving_keys meta_map l in
  Permutation files' (flat_map g_files (map (bucket_group meta_map l) ks)) ->
  surviving_keys meta_map files' = ks
  /\ forall k, In k ks ->
       Permutation (bucket (file_key meta_map) k files')
                   (bucket (file_key meta_map) k l).
Proof.
  intros ks Hp.
  assert (forall k, Permutation (bucket (file_key meta_map) k files')
            (if existsb (Z.eqb k) ks
             then bucket (file_key meta_map) k l else [])) as Hb.
  { intros k. unfold ks. rewrite <- bucket_of_kept. apply filter_perm. exact Hp. }
  assert (forall k, In k ks <-> existsb (Z.eqb k) ks = true) as Hex.
  { intros k. rewrite existsb_exists. split.
    - intros H. exists k. split; [exact H|apply Z.eqb_refl].
    - intros [x [Hx E]]. apply Z.eqb_eq in E. subst. exact Hx. }
  split.
  - apply sorted_unique;
      try apply surviving_keys_sorted; try apply surviving_keys_NoDup.
    intros k. rewrite In_surviving_keys.
    rewrite (Permutation_length (Hb k)).
    destruct (existsb (Z.eqb k) ks) eqn:E.
    + split; intros _; [apply Hex; exact E|].
      apply In_surviving_keys. apply Hex. exact E.
    + simpl. split; [lia|]. intros H. apply Hex in H. congruence.
  - intros k Hk. specialize (Hb k). apply Hex in Hk. rewrite Hk in Hb. exact Hb.
Qed.

Lemma Forall2_map_in {X Y : Type} (R : Y -> Y -> Prop) (f g : X -> Y)
    (l : list X) :
  (forall x, In x l -> R (f x) (g x)) -> Forall2 R (map f l) (map g l).
Proof.
  induction l as [|x l IH]; simpl; intros H; constructor.
  - apply H. left. reflexivity.
  - apply IH. intros y Hy. apply H. right. exact Hy.
Qed.

Lemma kept_groups_spec (l : list string) :
  kept_groups (group_dir meta_map l)
  = map (bucket_group meta_map l) (surviving_keys meta_map l).
Proof.
  rewrite group_dir_spec.
  destruct (surviving_keys meta_map l); reflexivity.
Qed.

End Regrouping.

(** C9. Grouping the files of the groups a directory is left with, under
    the same metadata, gives the same groups again: exactly the same
    plan when the files are taken group after group, and for every other
    order of these files the same exposures with the same members. *)
Theorem regrouping_is_idempotent (meta_map : string -> Py.meta)
    (flat_files : list string) :
  let union :=
    flat_map Scan.g_files (Scan.kept_groups (Scan.group_dir meta_map flat_files)) in
  Scan.group_dir meta_map union = Scan.group_dir meta_map flat_files
  /\ forall files',
       Permutation files' union ->
       Scan.same_membership (Scan.group_dir meta_map files')
                            (Scan.group_dir meta_map flat_files).
Proof.
  intros union. unfold union. rewrite kept_groups_spec.
  assert (forall files',
            Permutation files'
              (flat_map Scan.g_files
                 (map (Scan.bucket_group meta_map flat_files)
                    (Scan.surviving_keys meta_map flat_files))) ->
            Scan.surviving_keys meta_map files'
            = Scan.surviving_keys meta_map flat_files
            /\ forall k, In k (Scan.surviving_keys meta_map flat_files) ->
                 Permutation (KDict.bucket (Scan.file_key meta_map) k files')
                   (KDict.bucket (Scan.file_key meta_map) k flat_files)) as H
    by (intros files'; apply surviving_keys_of_perm).
  set (ks := Scan.surviving_keys meta_map flat_files) in *.
  set (l' := flat_map Scan.g_files (map (Scan.bucket_group meta_map flat_files) ks)) in *.
  assert (map (Scan.bucket_group meta_map l') ks
          = map (Scan.bucket_group meta_map flat_files) ks) as Hmap.
  { apply map_ext_in. intros k Hin. unfold Scan.bucket_group.
    pose proof (bucket_of_kept meta_map flat_files k) as Hb.
    fold ks in Hb. fold l' in Hb.
    assert (existsb (Z.eqb k) ks = true) as Hex
      by (apply existsb_exists; exists k; split; [exact Hin|apply Z.eqb_refl]).
    rewrite Hex in Hb. rewrite Hb. reflexivity. }
  split.
  - destruct (H _ (Permutation_refl _)) as [Hk _].
    rewrite !group_dir_spec. fold ks. rewrite Hk.
    clearbody l' ks. destruct ks; [reflexivity|]. rewrite Hmap. reflexivity.
  - intros files' Hp. destruct (H files' Hp) as [Hk Hb].
    rewrite !group_dir_spec. fold ks. rewrite Hk.
    assert (Forall2
              (fun x y => Scan.g_exposure x = Scan.g_exposure y
                          /\ Permutation (Scan.g_files x) (Scan.g_files y))
              (map (Scan.bucket_group meta_map files') ks)
              (map (Scan.bucket_group meta_map flat_files) ks)) as HF.
    { apply Forall2_map_in. intros k Hin.
      split; [reflexivity|]. simpl. apply Hb. exact Hin. }
    clearbody l' ks. destruct ks; [exact I|exact HF].
Qed.

(** Three flats of 1 s and two of 2 s: the three make the one group, and
    grouping them again, in any order, gives that group. *)
Lemma regrouping_is_idempotent_witness :
  let flat_files :=
    ["a_1s.fits"; "b_2s.fits"; "c_1s.fits"; "d_2s.fits"; "e_1s.fits"] in
  Scan.group_dir Sample.by_name ["a_1s.fits"; "c_1s.fits"; "e_1s.fits"]
  = Scan.group_dir Sample.by_name flat_files
  /\ Scan.same_membership
       (Scan.group_dir Sample.by_name ["e_1s.fits"; "c_1s.fits"; "a_1s.fits"])
       (Scan.group_dir Sample.by_name flat_files).
Proof.
  intros flat_files. split.
  - exact (proj1 (regrouping_is_idempotent Sample.by_name flat_files)).
  - apply (proj2 (regrouping_is_idempotent Sample.by_name flat_files)).
    symmetry. exact (Permutation_rev ["a_1s.fits"; "c_1s.fits"; "e_1s.fits"]).
Defined.

(** ** The plan of a scan *)

Section PlanFacts.
Import KDict Py Scan.
Variable P : platform.

Lemma group_dir_sizes (meta_map : string -> meta) (l : list string)
    (gs : list group) (g : group) :
  group_dir meta_map l = Some gs -> In g gs ->
  (3 <= List.length (g_files g))%nat.
Proof.
  intros Hg Hin.
  assert (In g (kept_groups (group_dir meta_map l))) as H
    by (rewrite Hg; exact Hin).
  rewrite kept_groups_spec in H. apply in_map_iff in H.
  destruct H as [k [<- Hk]]. apply In_surviving_keys in Hk. exact Hk.
Qed.






(** Every group the run is given comes without a wanted profile. *)
Lemma gather_want_empty (rows : list dir_item) (j : job) (g : group) :
  In j (_gather_selected_plan P rows) -> In g (groups j) -> g_want g = None.
Proof.
  induction rows as [|d rows IH]; simpl; intros Hj Hg; [contradiction|].
  destruct (di_checked d); [|exact (IH Hj Hg)].
  destruct Hj as [<-|Hj]; [|exact (IH Hj Hg)].
  simpl in Hg. clear IH. induction (di_groups d) as [|row rs IHr]; simpl in Hg;
    [contradiction|].
  destruct (Num.py_float _); [|exact (IHr Hg)].
  destruct Hg as [<-|Hg]; [reflexivity|exact (IHr Hg)].
Qed.


End PlanFacts.

Section PlanComplete.
Import KDict Py Scan.
Variable P : platform.





End PlanComplete.





(** ** The integration settings *)

Section ConfigureFacts.
Import Js.
Variable II_ENUM : enum_table.
Variable new_ImageIntegration : obj.

Lemma strict_eq_num_refl (x : Q) : strict_eq (Some (JNum x)) (Some (JNum x)) = true.
Proof. simpl. apply Qeq_bool_refl. Qed.

(** The override of the two sigmas, once the rejection is the
    winsorized one. *)
Lemma configure_winsor (paths : list string) (rej : option rej_cfg) :
  (6 <= List.length paths <= 15)%nat ->
  let II := configure II_ENUM new_ImageIntegration paths false rej in
  II "rejection" = Some (JNum (Rej_Winsor II_ENUM))
  /\ II "sigmaLow" = Some (JNum (or_default (rej_low rej) 4))
  /\ II "sigmaHigh" = Some (JNum (or_default (rej_high rej) 3))
  /\ II "winsorizationCutoff" = Some (JNum 5)
  /\ II "clipLow" = Some (JBool true)
  /\ II "clipHigh" = Some (JBool true).
Proof.
  intros [H6 H15]. unfold configure.
  assert ((List.length paths <? 6)%nat = false) as -> by (apply Nat.ltb_ge; exact H6).
  assert ((List.length paths <=? 15)%nat = true) as -> by (apply Nat.leb_le; exact H15).
  cbv beta zeta.
  match goal with
  | |- context [strict_eq ?a ?b] =>
      replace (strict_eq a b) with true by (symmetry; apply strict_eq_num_refl)
  end.
  destruct rej as [[[lo|] [hi|]]|]; repeat split; reflexivity.
Qed.

Lemma configure_flat_other (paths : list string) (rej : option rej_cfg) :
  let n := List.length paths in
  let II := configure II_ENUM new_ImageIntegration paths false rej in
  II "normalization" = Some (JNum (Norm_Mult II_ENUM))
  /\ II "rejectionNormalization" = Some (JNum (RejNorm_Eq II_ENUM))
  /\ ((n < 6)%nat ->
        II "rejection" = Some (JNum (Rej_PC II_ENUM))
        /\ II "pcClipLow" = Some (JNum (20 # 100))
        /\ II "pcClipHigh" = Some (JNum (10 # 100)))
  /\ ((15 < n)%nat ->
        II "rejection" = Some (JNum (Rej_LinFit II_ENUM))
        /\ II "linearFitLow" = Some (JNum 5)
        /\ II "linearFitHigh" = Some (JNum 4)
        /\ II "clipLow" = Some (JBool true)
        /\ II "clipHigh" = Some (JBool true)).
Proof.
  intros n II. unfold II, configure. fold n.
  destruct (Nat.ltb_spec n 6) as [E6|E6];
    [|destruct (Nat.leb_spec n 15) as [E15|E15]];
    cbv beta zeta;
    match goal with
    | |- context [strict_eq ?a ?b] => destruct (strict_eq a b)
    end;
    destruct rej as [[[lo|] [hi|]]|];
    (split; [reflexivity|split; [reflexivity|split]]);
    intros Hn; try lia; repeat split; reflexivity.
Qed.

End ConfigureFacts.

(** ** The score and the choice among the candidates *)

Section ScoreFacts.
Import Js.
Local Open Scope Q_scope.

Lemma Qlt_bool_iff (x y : Q) : Num.Qlt_bool x y = true <-> x < y.
Proof.
  unfold Num.Qlt_bool. rewrite negb_true_iff. split.
  - intros H. apply Qnot_le_lt. intros Hle.
    apply Qle_bool_iff in Hle. congruence.
  - intros H. destruct (Qle_bool y x) eqn:E; [|reflexivity].
    apply Qle_bool_iff in E. exfalso. exact (Qlt_not_le _ _ H E).
Qed.

Lemma Qlt_bool_false (x y : Q) : Num.Qlt_bool x y = false <-> y <= x.
Proof.
  unfold Num.Qlt_bool. rewrite negb_false_iff. apply Qle_bool_iff.
Qed.

Lemma metaScore_stated (c : dark) (want : Scan.want) (m : match_cfg) :
  metaScore c want m == stated_score c want m.
Proof.
  unfold metaScore, stated_score, binning_bonus, gain_bonus, offset_bonus,
    temp_bonus, bonus, known_text.
  destruct (temp c) as [ct|], (Scan.w_temp want) as [wt|];
    try generalize (Qabs (ct - wt)); try intros dt;
    try destruct (Qle_bool dt (maxTempDeltaC m));
    destruct (enforceBinning m), (truthy (Scan.w_binning want)),
      (truthy (binning c)), (same_text (binning c) (Scan.w_binning want)),
      (preferSameGainOffset m),
      (near (gain c) (Scan.w_gain want) (1 # 100)),
      (near (offset c) (Scan.w_offset want) (1 # 2)),
      (preferClosestTemp m);
    cbv beta iota zeta delta [andb]; ring.
Qed.

(** With a temperature window below 12.5 every score is above the -1 the
    loop starts from. *)
Lemma metaScore_above_start (c : dark) (want : Scan.want) (m : match_cfg) :
  maxTempDeltaC m < 25 # 2 -> -1 < metaScore c want m.
Proof.
  intros Hmax. rewrite metaScore_stated.
  assert (0 <= binning_bonus c want m) as H1
    by (unfold binning_bonus, bonus; destruct (_ && _)%bool; lra).
  assert (0 <= gain_bonus c want m) as H2
    by (unfold gain_bonus, bonus; destruct (_ && _)%bool; lra).
  assert (0 <= offset_bonus c want m) as H3
    by (unfold offset_bonus, bonus; destruct (_ && _)%bool; lra).
  assert (-1 < temp_bonus c want m) as H4.
  { unfold temp_bonus, bonus.
    destruct (temp c) as [ct|], (Scan.w_temp want) as [wt|]; try lra.
    generalize (Qabs (ct - wt)). intros dt.
    destruct (preferClosestTemp m); cbv beta iota delta [andb]; [|lra].
    destruct (Qle_bool dt (maxTempDeltaC m)) eqn:E; [|lra].
    apply Qle_bool_iff in E. lra. }
  unfold stated_score. lra.
Qed.

Lemma best_loop_spec (want : Scan.want) (m : match_cfg) (l : list dark)
    (b : dark) (s : Q) :
  let score c := metaScore c want m in
  let r := best_loop l want m b s in
  (r = b /\ forall c, In c l -> score c <= s)
  \/ (s < score r /\ first_max score r l).
Proof.
  intros score. revert b s. induction l as [|c l IH]; intros b s; simpl.
  - left. split; [reflexivity|]. intros c [].
  - fold (score c). destruct (Num.Qlt_bool s (score c)) eqn:E.
    + apply Qlt_bool_iff in E.
      destruct (IH c (score c)) as [[Hr Hle]|[Hlt [pre [post [El [Hpre Hpost]]]]]].
      * right. rewrite Hr. split; [exact E|]. exists [], l.
        split; [reflexivity|]. split; [intros x []|exact Hle].
      * right. split; [exact (Qlt_trans _ _ _ E Hlt)|]. exists (c :: pre), post.
        split; [simpl; f_equal; exact El|]. split; [|exact Hpost].
        intros x [<-|Hx]; [exact Hlt|exact (Hpre x Hx)].
    + apply Qlt_bool_false in E.
      destruct (IH b s) as [[Hr Hle]|[Hlt [pre [post [El [Hpre Hpost]]]]]].
      * left. split; [exact Hr|].
        intros x [<-|Hx]; [exact E|exact (Hle x Hx)].
      * right. split; [exact Hlt|]. exists (c :: pre), post.
        split; [simpl; f_equal; exact El|]. split; [|exact Hpost].
        intros x [<-|Hx]; [exact (Qle_lt_trans _ _ _ E Hlt)|exact (Hpre x Hx)].
Qed.

Lemma best_of_in (c0 : dark) (l : list dark) (want : Scan.want) (m : match_cfg) :
  In (best_of c0 l want m) (c0 :: l).
Proof.
  unfold best_of.
  destruct (best_loop_spec want m (c0 :: l) c0 (-1))
    as [[Hr _]|[_ [pre [post [E _]]]]].
  - rewrite Hr. left. reflexivity.
  - remember (best_loop (c0 :: l) want m c0 (-1)) as r.
    rewrite E. apply in_or_app. right. left. reflexivity.
Qed.

End ScoreFacts.

(** ** The tiers of [pickDarkFor] *)

Section CatalogFacts.
Import KDict Js.

Lemma dark_type_eqb_eq (a b : dark_type) : dark_type_eqb a b = true <-> a = b.
Proof. destruct a, b; simpl; split; congruence. Qed.

Lemma groupByExp_group_by (cats : list dark) (t : dark_type) :
  groupByExp cats t = group_by (dark_key t) cats.
Proof.
  unfold groupByExp, group_by. apply fold_left_pointwise.
  intros d c. unfold put, dark_key, push_at.
  destruct (dark_type_eqb (type c) t); reflexivity.
Qed.

Lemma slot_entries (cats : list dark) (t : dark_type) (k : Z) :
  slot (groupByExp cats t) k = entries_at cats t k.
Proof.
  unfold slot, entries_at. rewrite groupByExp_group_by, kget_group_by.
  destruct (bucket (dark_key t) k cats); reflexivity.
Qed.

Lemma entries_at_iff (cats : list dark) (t : dark_type) (k : Z) (c : dark) :
  In c (entries_at cats t k)
  <-> In c cats /\ type c = t /\ kexp (exposure c) = k.
Proof.
  unfold entries_at, bucket. rewrite filter_In. unfold has_key, dark_key.
  destruct (dark_type_eqb (type c) t) eqn:E.
  - apply dark_type_eqb_eq in E. rewrite Z.eqb_eq. intuition congruence.
  - assert (type c <> t) as Hne
      by (intros H; apply dark_type_eqb_eq in H; congruence).
    intuition congruence.
Qed.

Lemma In_groupByExp_keys (cats : list dark) (t : dark_type) (k : Z) :
  In k (map fst (groupByExp cats t))
  <-> exists c, In c cats /\ type c = t /\ kexp (exposure c) = k.
Proof.
  rewrite groupByExp_group_by. split.
  - intros H. apply in_map_iff in H. destruct H as [[k' b] [E Hin]].
    simpl in E. subst k'.
    destruct (group_by_well_keyed (dark_key t) cats k b Hin) as [Hne Hk].
    apply In_kget in Hin; [|apply NoDup_keys_group_by].
    rewrite kget_group_by in Hin.
    destruct (bucket (dark_key t) k cats) as [|c b'] eqn:Eb; [discriminate|].
    exists c. apply entries_at_iff. unfold entries_at. rewrite Eb.
    left. reflexivity.
  - intros [c Hc]. apply entries_at_iff in Hc. unfold entries_at in Hc.
    apply (in_map fst (group_by (dark_key t) cats) (k, bucket (dark_key t) k cats)).
    apply kget_key_in. rewrite kget_group_by.
    destruct (bucket (dark_key t) k cats); [contradiction|reflexivity].
Qed.

Lemma In_flat_groupByExp (cats : list dark) (t : dark_type) (c : dark) :
  In c (flat_map snd (groupByExp cats t)) <-> In c cats /\ type c = t.
Proof.
  rewrite groupByExp_group_by, In_flat_group_by. unfold dark_key.
  destruct (dark_type_eqb (type c) t) eqn:E.
  - apply dark_type_eqb_eq in E. intuition congruence.
  - assert (type c <> t) as Hne
      by (intros H; apply dark_type_eqb_eq in H; congruence).
    intuition congruence.
Qed.

(** What the last tier chooses from. *)
Lemma nearest_candidates_iff (cacheDir : string) (cats : list dark)
    (p : string) (e : Q) :
  In (p, e) (nearest_candidates cacheDir cats)
  <-> (exists c, In c cats /\ type c = MASTERDARK
                 /\ p = path c /\ e = exposure c)
      \/ (exists c, In c cats /\ type c = DARK
                    /\ p = built_dark cacheDir (kexp (exposure c))
                    /\ e = Num.of_thousandths (kexp (exposure c))).
Proof.
  unfold nearest_candidates. rewrite in_app_iff, !in_map_iff. split.
  - intros [[c [E Hc]]|[[k b] [E Hk]]].
    + left. exists c. apply In_flat_groupByExp in Hc.
      injection E as <- <-. tauto.
    + right. simpl in E. injection E as <- <-.
      apply (in_map fst) in Hk. simpl in Hk.
      apply In_groupByExp_keys in Hk. destruct Hk as [c [H1 [H2 <-]]].
      exists c. tauto.
  - intros [[c [H1 [H2 [-> ->]]]]|[c [H1 [H2 [-> ->]]]]].
    + left. exists c. split; [reflexivity|].
      apply In_flat_groupByExp. tauto.
    + right.
      assert (In (kexp (exposure c)) (map fst (groupByExp cats DARK))) as Hk
        by (apply In_groupByExp_keys; exists c; tauto).
      apply in_map_iff in Hk. destruct Hk as [[k b] [E Hin]].
      simpl in E. subst k. exists (kexp (exposure c), b).
      split; [reflexivity|exact Hin].
Qed.

Lemma In_insert_cand (exp : Q) (a c : cand) (l : list cand) :
  In c (insert_cand exp a l) <-> c = a \/ In c l.
Proof.
  induction l as [|b l IH]; simpl.
  - intuition congruence.
  - destruct (Num.Qlt_bool (dist exp a) (dist exp b)); simpl.
    + intuition congruence.
    + rewrite IH. intuition congruence.
Qed.

Lemma insert_cand_head_min (exp : Q) (a : cand) (l : list cand) :
  head_min exp l -> head_min exp (insert_cand exp a l).
Proof.
  destruct l as [|b l]; simpl; [intros _ c []|].
  intros Hmin. destruct (Num.Qlt_bool (dist exp a) (dist exp b)) eqn:E; simpl.
  - apply Qlt_bool_iff in E. intros c [<-|Hc].
    + apply Qlt_le_weak. exact E.
    + apply Qle_trans with (dist exp b); [apply Qlt_le_weak; exact E|].
      exact (Hmin c Hc).
  - apply Qlt_bool_false in E. intros c Hc. apply In_insert_cand in Hc.
    destruct Hc as [->|Hc]; [exact E|exact (Hmin c Hc)].
Qed.

Lemma sort_by_dist_fold (exp : Q) (l acc : list cand) :
  head_min exp acc ->
  let s := fold_left (fun acc a => insert_cand exp a acc) l acc in
  head_min exp s /\ forall c, In c s <-> In c acc \/ In c l.
Proof.
  revert acc. induction l as [|a l IH]; intros acc Hacc; simpl.
  - split; [exact Hacc|]. intuition.
  - destruct (IH _ (insert_cand_head_min exp a acc Hacc)) as [H1 H2].
    split; [exact H1|]. intros c. rewrite H2, In_insert_cand. intuition congruence.
Qed.

Lemma sort_by_dist_head (exp : Q) (l : list cand) (b : cand) (r : list cand) :
  sort_by_dist exp l = b :: r ->
  In b l /\ forall c, In c l -> (dist exp b <= dist exp c)%Q.
Proof.
  intros E. destruct (sort_by_dist_fold exp l [] I) as [Hmin Hin].
  fold (sort_by_dist exp l) in Hmin, Hin. rewrite E in Hmin, Hin.
  split.
  - destruct (proj1 (Hin b) (or_introl eq_refl)) as [[]|H]. exact H.
  - intros c Hc. destruct (proj2 (Hin c) (or_intror Hc)) as [<-|Hr].
    + apply Qle_refl.
    + exact (Hmin c Hr).
Qed.

End CatalogFacts.

Section PickFacts.
Import KDict Js.
Variable II_ENUM : enum_table.
Variable new_ImageIntegration : obj.
Variable executeGlobal : world -> obj -> bool.
Variable saveXISF : world -> string -> bool.

Lemma bind_ret_inv {A B : Type} (m : M A) (b y : B) (w w' : world) :
  bind m (fun _ => ret b) w = (Ret y, w') -> y = b.
Proof.
  unfold bind, ret. destruct (m w) as [[a|msg] w1]; intros [= E _]; congruence.
Qed.

Lemma build_all_ret (cacheDir hintsCal : string) (rej : option rej_cfg)
    (D : kdict (list dark)) (w w' : world) (l : list cand) :
  build_all II_ENUM new_ImageIntegration executeGlobal saveXISF
    cacheDir hintsCal rej D w = (Ret l, w') ->
  l = map (fun kd => (built_dark cacheDir (fst kd), Num.of_thousandths (fst kd))) D.
Proof.
  revert w w' l. induction D as [|[kk frames] D IH]; intros w w' l; simpl.
  - unfold ret. intros [= <- _]. reflexivity.
  - unfold bind at 1. unfold File_exists at 1.
    unfold bind at 1.
    match goal with
    | |- context [(if ?b then ret tt else ?m) w] =>
        destruct ((if b then ret tt else m) w) as [[u|msg] w1]
    end; [|discriminate].
    unfold bind.
    destruct (build_all _ _ _ _ cacheDir hintsCal rej D w1) as [[rest|msg] w2] eqn:E;
      [|discriminate].
    unfold ret. intros [= <- _]. simpl. f_equal.
    exact (IH w1 w2 rest E).
Qed.

(** What one call of [integrateToMaster] does to the world. *)
Lemma integrate_effect (paths : list string) (outPath : string)
    (forDark : bool) (hints : string) (rej : option rej_cfg) (w : world) :
  let II := configure II_ENUM new_ImageIntegration paths forDark rej in
  let r := integrateToMaster II_ENUM new_ImageIntegration executeGlobal
             saveXISF paths outPath forDark hints rej w in
  ((List.length paths < 3)%nat /\ (exists msg, fst r = Throw msg) /\ snd r = w)
  \/ ((3 <= List.length paths)%nat
      /\ executed (snd r) = executed w ++ [(II, outPath)]
      /\ ((fst r = Ret tt /\ files (snd r) = outPath :: files w
           /\ executeGlobal w II = true /\ saveXISF w outPath = true)
          \/ (files (snd r) = files w
              /\ ((fst r = Throw ("ImageIntegration failed: " ++ outPath)
                   /\ executeGlobal w II = false)
                  \/ (fst r = Throw ("saveAs failed for " ++ outPath)
                      /\ executeGlobal w II = true
                      /\ saveXISF w outPath = false))))).
Proof.
  intros II r. unfold r, integrateToMaster. fold II.
  destruct (Nat.eqb_spec (List.length paths) 0) as [E0|E0].
  - left. split; [lia|]. split; [eexists; reflexivity|reflexivity].
  - destruct (Nat.ltb_spec (List.length paths) 3) as [E3|E3].
    + left. split; [lia|]. split; [eexists; reflexivity|reflexivity].
    + right. split; [exact E3|].
      destruct (executeGlobal w II) eqn:Ee; simpl.
      * destruct (saveXISF w outPath) eqn:Es; simpl.
        -- split; [reflexivity|]. left. repeat split; reflexivity.
        -- split; [reflexivity|]. right. split; [reflexivity|].
           right. repeat split; reflexivity.
      * split; [reflexivity|]. right. split; [reflexivity|].
        left. split; reflexivity.
Qed.

(** The chain of tiers, read on the entries of each type at the key of
    the exposure. *)
Lemma pickDarkFor_tiers (allow : bool) (exp : Q) (want : Scan.want)
    (cacheDir : string) (cats : list dark) (rej : option rej_cfg)
    (hintsCal : string) (m : match_cfg) :
  let k := kexp exp in
  let integrate := integrateToMaster II_ENUM new_ImageIntegration executeGlobal saveXISF in
  pickDarkFor II_ENUM new_ImageIntegration executeGlobal saveXISF
    allow exp want cacheDir cats rej hintsCal m
  = match entries_at cats MASTERDARKFLAT k with
    | c0 :: l => ret (Some (mkSel (path (best_of c0 l want m)) false "MasterDarkFlat(exact)"))
    | [] =>
    match entries_at cats DARKFLAT k with
    | _ :: _ =>
        bind (integrate (map path (entries_at cats DARKFLAT k))
                (built_darkflat cacheDir k) true hintsCal rej)
          (fun _ => ret (Some (mkSel (built_darkflat cacheDir k) false "MasterDarkFlat(built)")))
    | [] =>
    match entries_at cats MASTERDARK k with
    | c0 :: l => ret (Some (mkSel (path (best_of c0 l want m)) false "MasterDark(exact)"))
    | [] =>
    match entries_at cats DARK k with
    | _ :: _ =>
        bind (integrate (map path (entries_at cats DARK k))
                (built_dark cacheDir k) true hintsCal rej)
          (fun _ => ret (Some (mkSel (built_dark cacheDir k) false "MasterDark(built)")))
    | [] =>
        if allow then
          bind (build_all II_ENUM new_ImageIntegration executeGlobal saveXISF
                  cacheDir hintsCal rej (groupByExp cats DARK))
            (fun built =>
               match sort_by_dist exp
                       (map (fun c => (path c, exposure c))
                          (flat_map snd (groupByExp cats MASTERDARK)) ++ built) with
               | best3 :: _ =>
                   ret (Some (mkSel (fst best3) true "MasterDark(nearest+optimize)"))
               | [] => ret None
               end)
        else ret None
    end end end end.
Proof.
  intros k integrate. unfold pickDarkFor. fold k. rewrite !slot_entries.
  reflexivity.
Qed.

End PickFacts.

(** ** The claims on the executor *)

(** C1, as the script has it. When flats are integrated into a master
    the instance that is executed has multiplicative normalization and
    flux-equalizing rejection normalization; below 6 frames percentile
    clipping with 0.20 and 0.10; above 15 frames linear-fit clipping with
    5.0 and 4.0 on both tails; from 6 to 15 frames winsorized sigma
    clipping with cutoff 5.0 on both tails, whose sigmas 4.0 and 3.0 are
    replaced by the numbers of the rejection settings passed in (5.0 and
    5.0 as the program ships). Fewer than 3 frames are never executed. *)
Theorem flat_rejection_in_effect
    (II_ENUM : Js.enum_table) (new_ImageIntegration : Js.obj)
    (executeGlobal : Js.world -> Js.obj -> bool)
    (saveXISF : Js.world -> string -> bool)
    (paths : list string) (outPath hints : string)
    (rej : option Js.rej_cfg) (w : Js.world) :
  let n := List.length paths in
  let II := Js.configure II_ENUM new_ImageIntegration paths false rej in
  let r := Js.integrateToMaster II_ENUM new_ImageIntegration executeGlobal
             saveXISF paths outPath false hints rej w in
  ((n < 3)%nat -> (exists msg, fst r = Js.Throw msg) /\ snd r = w)
  /\ ((3 <= n)%nat -> Js.executed (snd r) = Js.executed w ++ [(II, outPath)])
  /\ II "normalization" = Some (Js.JNum (Js.Norm_Mult II_ENUM))
  /\ II "rejectionNormalization" = Some (Js.JNum (Js.RejNorm_Eq II_ENUM))
  /\ ((n < 6)%nat ->
        II "rejection" = Some (Js.JNum (Js.Rej_PC II_ENUM))
        /\ II "pcClipLow" = Some (Js.JNum (20 # 100))
        /\ II "pcClipHigh" = Some (Js.JNum (10 # 100)))
  /\ ((6 <= n <= 15)%nat ->
        II "rejection" = Some (Js.JNum (Js.Rej_Winsor II_ENUM))
        /\ II "sigmaLow" = Some (Js.JNum (Js.or_default (Js.rej_low rej) 4))
        /\ II "sigmaHigh" = Some (Js.JNum (Js.or_default (Js.rej_high rej) 3))
        /\ II "winsorizationCutoff" = Some (Js.JNum 5)
        /\ II "clipLow" = Some (Js.JBool true)
        /\ II "clipHigh" = Some (Js.JBool true))
  /\ ((15 < n)%nat ->
        II "rejection" = Some (Js.JNum (Js.Rej_LinFit II_ENUM))
        /\ II "linearFitLow" = Some (Js.JNum 5)
        /\ II "linearFitHigh" = Some (Js.JNum 4)
        /\ II "clipLow" = Some (Js.JBool true)
        /\ II "clipHigh" = Some (Js.JBool true)).
Proof.
  intros n II r.
  destruct (configure_flat_other II_ENUM new_ImageIntegration paths rej)
    as [Hn [Hrn [Hpc Hlf]]].
  split; [|split; [|split; [exact Hn|split; [exact Hrn|split;
    [exact Hpc|split; [|exact Hlf]]]]]].
  - intros Hlt. unfold r, Js.integrateToMaster. fold n.
    destruct n as [|[|[|n']]]; simpl; try lia; split; try reflexivity;
      eexists; reflexivity.
  - intros Hge. unfold r, Js.integrateToMaster. fold n.
    destruct (Nat.eqb_spec n 0) as [E0|E0]; [lia|].
    destruct (Nat.ltb_spec n 3) as [E3|E3]; [lia|].
    fold II. destruct (executeGlobal w II); simpl; [|reflexivity].
    destruct (saveXISF w outPath); reflexivity.
  - exact (configure_winsor II_ENUM new_ImageIntegration paths rej).
Qed.

(** The settings of a flat master of six frames, as the program ships. *)
Lemma flat_rejection_in_effect_witness :
  let II :=
    Js.configure Sample.enum Sample.fresh ["1"; "2"; "3"; "4"; "5"; "6"] false
      (Some (Js.run_rej Js.shipped_rejection)) in
  II "rejection" = Some (Js.JNum (Js.Rej_Winsor Sample.enum))
  /\ II "sigmaLow" = Some (Js.JNum 5)
  /\ II "sigmaHigh" = Some (Js.JNum 5)
  /\ II "winsorizationCutoff" = Some (Js.JNum 5)
  /\ II "clipLow" = Some (Js.JBool true)
  /\ II "clipHigh" = Some (Js.JBool true).
Proof.
  apply (flat_rejection_in_effect Sample.enum Sample.fresh Sample.always
           Sample.saves ["1"; "2"; "3"; "4"; "5"; "6"] "out" ""
           (Some (Js.run_rej Js.shipped_rejection)) Sample.empty_world).
  simpl. lia.
Defined.

(** C1 fails as stated: a flat master of six frames is integrated with
    the sigmas 5.0 and 5.0 of the shipped rejection settings, not with
    4.0 and 3.0. *)
Lemma flat_sigma_is_overridden :
  match
    Js.executed
      (snd (Js.integrateToMaster Sample.enum Sample.fresh Sample.always
              Sample.saves ["1"; "2"; "3"; "4"; "5"; "6"] "MasterFlat.xisf"
              false "" (Some (Js.run_rej Js.shipped_rejection))
              Sample.empty_world))
  with
  | [(II, _)] =>
      II "rejection" = Some (Js.JNum (Js.Rej_Winsor Sample.enum))
      /\ II "sigmaLow" = Some (Js.JNum 5)
      /\ II "sigmaHigh" = Some (Js.JNum 5)
      /\ ~ (5 == 4)%Q /\ ~ (5 == 3)%Q
  | _ => False
  end.
Proof.
  simpl. repeat split; try reflexivity; intros H; discriminate H.
Qed.

(** C2, as the script has it. When the catalog has a master dark-flat
    whose exposure rounds to the key of the target, [pickDarkFor] returns
    the path of one of these master dark-flats, without optimization and
    without touching the world: nothing is integrated, whatever raw
    dark-flats there are. The other tiers follow in their order, and the
    first tier that has an entry at the key decides the outcome alone. A
    tier of masters returns one of its entries and leaves the world as it
    is. A tier of raw frames hands exactly its frames to the engine: with
    three or more of them, an engine that executes and a save that
    succeeds, the master it wrote is returned; with fewer than three it
    throws without touching the world, and when the engine or the save
    fails it throws as well; no later tier is tried after that. With no
    entry of any kind at the key, nothing is returned unless the nearest
    exposure is allowed. *)
Theorem dark_tiers_in_order
    (II_ENUM : Js.enum_table) (new_ImageIntegration : Js.obj)
    (executeGlobal : Js.world -> Js.obj -> bool)
    (saveXISF : Js.world -> string -> bool)
    (allow : bool) (exp : Q) (want : Scan.want) (cacheDir : string)
    (cats : list Js.dark) (rej : option Js.rej_cfg) (hintsCal : string)
    (m : Js.match_cfg) (w : Js.world) :
  let k := Js.kexp exp in
  let at_ t := Js.entries_at cats t k in
  let r :=
    Js.pickDarkFor II_ENUM new_ImageIntegration executeGlobal saveXISF
      allow exp want cacheDir cats rej hintsCal m w in
  let stack_decides (frames : list Js.dark) (out kind : string) :=
    let II := Js.configure II_ENUM new_ImageIntegration (map Js.path frames)
                true rej in
    ((List.length frames < 3)%nat ->
       (exists msg, fst r = Js.Throw msg) /\ snd r = w)
    /\ ((3 <= List.length frames)%nat ->
          Js.executed (snd r) = Js.executed w ++ [(II, out)]
          /\ (executeGlobal w II = true -> saveXISF w out = true ->
                r = (Js.Ret (Some (Js.mkSel out false kind)),
                     Js.mkWorld (out :: Js.files w)
                       (Js.executed w ++ [(II, out)])))
          /\ (executeGlobal w II = false \/ saveXISF w out = false ->
                (exists msg, fst r = Js.Throw msg)
                /\ Js.files (snd r) = Js.files w)) in
  ((exists c, In c cats /\ Js.type c = Js.MASTERDARKFLAT
              /\ Js.kexp (Js.exposure c) = k) ->
     exists best,
       In best cats /\ Js.type best = Js.MASTERDARKFLAT
       /\ Js.kexp (Js.exposure best) = k
       /\ r = (Js.Ret (Some (Js.mkSel (Js.path best) false "MasterDarkFlat(exact)")), w))
  /\ (at_ Js.MASTERDARKFLAT = [] -> at_ Js.DARKFLAT <> [] ->
        stack_decides (at_ Js.DARKFLAT) (Js.built_darkflat cacheDir k)
          "MasterDarkFlat(built)")
  /\ (at_ Js.MASTERDARKFLAT = [] -> at_ Js.DARKFLAT = [] ->
      at_ Js.MASTERDARK <> [] ->
        exists best,
          In best (at_ Js.MASTERDARK)
          /\ r = (Js.Ret (Some (Js.mkSel (Js.path best) false "MasterDark(exact)")), w))
  /\ (at_ Js.MASTERDARKFLAT = [] -> at_ Js.DARKFLAT = [] ->
      at_ Js.MASTERDARK = [] -> at_ Js.DARK <> [] ->
        stack_decides (at_ Js.DARK) (Js.built_dark cacheDir k)
          "MasterDark(built)")
  /\ (at_ Js.MASTERDARKFLAT = [] -> at_ Js.DARKFLAT = [] ->
      at_ Js.MASTERDARK = [] -> at_ Js.DARK = [] ->
        (allow = false -> r = (Js.Ret None, w))
        /\ (allow = true -> forall sel w',
              r = (Js.Ret (Some sel), w') ->
              Js.kind sel = "MasterDark(nearest+optimize)")).
Proof.
  intros k at_ r stack_decides.
  assert (forall (frames : list Js.dark) (out kind : string),
            r = Js.bind
                  (Js.integrateToMaster II_ENUM new_ImageIntegration
                     executeGlobal saveXISF (map Js.path frames) out true
                     hintsCal rej)
                  (fun _ => Js.ret (Some (Js.mkSel out false kind))) w ->
            stack_decides frames out kind) as Hstack.
  { intros frames out kind ->. unfold stack_decides.
    pose proof (integrate_effect II_ENUM new_ImageIntegration executeGlobal
                  saveXISF (map Js.path frames) out true hintsCal rej w) as Hi.
    cbv zeta in Hi. rewrite length_map in Hi. unfold Js.bind.
    destruct (Js.integrateToMaster II_ENUM new_ImageIntegration executeGlobal
                saveXISF (map Js.path frames) out true hintsCal rej w)
      as [o w0].
    simpl in Hi.
    destruct Hi as [[Hlt [[msg ->] ->]]
                   |[Hge [Hex [[-> [Hf [He Hs]]]|[Hf Hthrow]]]]].
    - split; [intros _; split; [exists msg; reflexivity|reflexivity]|lia].
    - split; [lia|]. intros _. unfold Js.ret. simpl.
      split; [exact Hex|]. split.
      + intros _ _. destruct w0 as [fs ex]. simpl in Hf, Hex. subst fs ex.
        reflexivity.
      + intros [H|H]; congruence.
    - split; [lia|]. intros _.
      destruct Hthrow as [[-> He]|[-> [He Hs]]]; simpl.
      + split; [exact Hex|]. split; [congruence|].
        intros _. split; [eexists; reflexivity|exact Hf].
      + split; [exact Hex|]. split; [congruence|].
        intros _. split; [eexists; reflexivity|exact Hf]. }
  clearbody stack_decides.
  revert Hstack. unfold r. rewrite pickDarkFor_tiers.
  fold k. fold (at_ Js.MASTERDARKFLAT) (at_ Js.DARKFLAT)
    (at_ Js.MASTERDARK) (at_ Js.DARK).
  intros Hstack.
  split; [|split; [|split; [|split]]].
  - intros [c Hc]. apply entries_at_iff in Hc. fold (at_ Js.MASTERDARKFLAT) in Hc.
    destruct (at_ Js.MASTERDARKFLAT) as [|c0 l] eqn:E; [contradiction|].
    exists (Js.best_of c0 l want m).
    pose proof (best_of_in c0 l want m) as Hin. rewrite <- E in Hin.
    apply entries_at_iff in Hin. destruct Hin as [H1 [H2 H3]].
    repeat split; assumption.
  - intros E1 Hdf. apply Hstack. rewrite E1.
    destruct (at_ Js.DARKFLAT); [congruence|reflexivity].
  - intros -> -> Hmd.
    destruct (at_ Js.MASTERDARK) as [|c0 l] eqn:E; [congruence|].
    exists (Js.best_of c0 l want m). split; [|reflexivity].
    apply best_of_in.
  - intros E1 E2 E3 Hd. apply Hstack. rewrite E1, E2, E3.
    destruct (at_ Js.DARK); [congruence|reflexivity].
  - intros -> -> -> ->. split.
    + intros ->. reflexivity.
    + intros -> sel w'. unfold Js.bind.
      destruct (Js.build_all _ _ _ _ _ _ _ _ w) as [[built|msg] w1];
        [|discriminate].
      destruct (Js.sort_by_dist _ _) as [|best3 rest]; unfold Js.ret;
        intros [= <- _]; reflexivity.
Qed.

(** A master dark-flat and three raw dark-flats at one exposure: the
    master is returned and nothing is integrated. *)
Lemma dark_tiers_in_order_witness :
  let mdf := Js.mkDark "lib\MasterDarkFlat_2s.xisf" Js.MASTERDARKFLAT 2
               None None None None in
  let raw p := Js.mkDark p Js.DARKFLAT 2 None None None None in
  let cats := [raw "df1.fits"; mdf; raw "df2.fits"; raw "df3.fits"] in
  exists best,
    In best cats /\ Js.type best = Js.MASTERDARKFLAT
    /\ Js.kexp (Js.exposure best) = Js.kexp 2
    /\ Js.pickDarkFor Sample.enum Sample.fresh Sample.always Sample.saves
         true 2 (Js.run_want None) "flats\_DarkMasters" cats
         Js.shipped_rejection "" Js.shipped_match Sample.empty_world
       = (Js.Ret (Some (Js.mkSel (Js.path best) false "MasterDarkFlat(exact)")),
          Sample.empty_world).
Proof.
  intros mdf raw cats.
  apply (dark_tiers_in_order Sample.enum Sample.fresh Sample.always Sample.saves
           true 2 (Js.run_want None) "flats\_DarkMasters" cats
           Js.shipped_rejection "" Js.shipped_match Sample.empty_world).
  exists mdf. split; [right; left; reflexivity|split; reflexivity].
Defined.

(** C2 fails as stated where it has the first success win: with two raw
    dark-flats and a master dark at the exposure of the target, the tier
    of the dark-flat stack cannot succeed, two frames being too few to
    integrate, and the tier of the master darks would, as the call
    without the two raw frames shows; yet the call throws and no master
    is selected. *)
Lemma failed_stack_is_not_passed_over :
  let md := Js.mkDark "lib\MasterDark_2s.xisf" Js.MASTERDARK 2
              None None None None in
  let raw p := Js.mkDark p Js.DARKFLAT 2 None None None None in
  let pick cats :=
    Js.pickDarkFor Sample.enum Sample.fresh Sample.always Sample.saves
      true 2 (Js.run_want None) "flats\_DarkMasters" cats
      Js.shipped_rejection "" Js.shipped_match Sample.empty_world in
  pick [raw "df1.fits"; raw "df2.fits"; md]
  = (Js.Throw "ImageIntegration needs >=3 inputs; got 2", Sample.empty_world)
  /\ pick [md]
     = (Js.Ret (Some (Js.mkSel "lib\MasterDark_2s.xisf" false "MasterDark(exact)")),
        Sample.empty_world).
Proof.
  split; reflexivity.
Qed.

(** When a candidate scores above the start value of the loop, the loop
    ends on the first candidate of the highest score. *)
Lemma best_of_first_max (c0 : Js.dark) (l : list Js.dark)
    (want : Scan.want) (m : Js.match_cfg) :
  (exists c, In c (c0 :: l) /\ (-1 < Js.metaScore c want m)%Q) ->
  Js.first_max (fun c => Js.metaScore c want m) (Js.best_of c0 l want m)
    (c0 :: l).
Proof.
  intros [c [Hc Hs]].
  destruct (best_loop_spec want m (c0 :: l) c0 (-1)) as [[_ Hle]|[_ Hmax]].
  - exfalso. exact (Qlt_not_le _ _ Hs (Hle c Hc)).
  - exact Hmax.
Qed.

(** C3, as the script has it. The score of a candidate is the sum of the
    four bonuses: 3 for an enforced, known and equal binning, 2 for a
    gain within 0.01, 2 for an offset within 0.5, and 1.5 - 0.2*|dT| for
    a temperature within the configured window. Where [pickDarkFor]
    chooses among the master dark-flats, or among the master darks, at
    the key of the target, the path it returns is that of one of them,
    and of the first of them in catalog order with the highest score
    whenever one of them scores above -1, which is so for every
    temperature window below 12.5 degrees, the shipped 5.0 among them. *)
Theorem score_and_choice
    (II_ENUM : Js.enum_table) (new_ImageIntegration : Js.obj)
    (executeGlobal : Js.world -> Js.obj -> bool)
    (saveXISF : Js.world -> string -> bool)
    (allow : bool) (exp : Q) (want : Scan.want) (cacheDir : string)
    (cats : list Js.dark) (rej : option Js.rej_cfg) (hintsCal : string)
    (m : Js.match_cfg) (w : Js.world) :
  let k := Js.kexp exp in
  let at_ t := Js.entries_at cats t k in
  let score c := Js.metaScore c want m in
  let r :=
    Js.pickDarkFor II_ENUM new_ImageIntegration executeGlobal saveXISF
      allow exp want cacheDir cats rej hintsCal m w in
  let chosen_among (l : list Js.dark) (kind : string) :=
    exists best,
      r = (Js.Ret (Some (Js.mkSel (Js.path best) false kind)), w)
      /\ In best l
      /\ ((exists c, In c l /\ (-1 < score c)%Q) -> Js.first_max score best l)
      /\ ((Js.maxTempDeltaC m < 25 # 2)%Q -> Js.first_max score best l) in
  (forall c, (score c == Js.stated_score c want m)%Q)
  /\ (forall t c, In c (at_ t)
                  <-> In c cats /\ Js.type c = t /\ Js.kexp (Js.exposure c) = k)
  /\ (at_ Js.MASTERDARKFLAT <> [] ->
        chosen_among (at_ Js.MASTERDARKFLAT) "MasterDarkFlat(exact)")
  /\ (at_ Js.MASTERDARKFLAT = [] -> at_ Js.DARKFLAT = [] ->
      at_ Js.MASTERDARK <> [] ->
        chosen_among (at_ Js.MASTERDARK) "MasterDark(exact)").
Proof.
  intros k at_ score r chosen_among.
  assert (forall c0 l kind,
            r = (Js.Ret (Some (Js.mkSel (Js.path (Js.best_of c0 l want m))
                                 false kind)), w) ->
            chosen_among (c0 :: l) kind) as Hchosen.
  { intros c0 l kind Hr. exists (Js.best_of c0 l want m).
    split; [exact Hr|]. split; [apply best_of_in|].
    split; [apply best_of_first_max|].
    intros Hmax. apply best_of_first_max. exists c0.
    split; [left; reflexivity|]. apply metaScore_above_start. exact Hmax. }
  clearbody chosen_among. revert Hchosen. unfold r.
  rewrite pickDarkFor_tiers. fold k.
  fold (at_ Js.MASTERDARKFLAT) (at_ Js.DARKFLAT) (at_ Js.MASTERDARK).
  intros Hchosen.
  split; [intros c; apply metaScore_stated|].
  split; [intros t c; apply entries_at_iff|].
  split.
  - intros Hne. destruct (at_ Js.MASTERDARKFLAT) as [|c0 l]; [congruence|].
    apply Hchosen. reflexivity.
  - intros E1 E2 Hne. revert Hchosen. rewrite E1, E2. intros Hchosen.
    destruct (at_ Js.MASTERDARK) as [|c0 l]; [congruence|].
    apply Hchosen. reflexivity.
Qed.

(** With the shipped settings, a master dark of matching binning is
    returned over an earlier one of closer temperature. *)
Lemma score_and_choice_witness :
  let want := Scan.mkWant (Some "2") None None (Some (-10)) in
  let near := Js.mkDark "near.xisf" Js.MASTERDARK 60 (Some "1") None None (Some (-10)) in
  let same := Js.mkDark "same.xisf" Js.MASTERDARK 60 (Some "2") None None (Some (-6)) in
  let r :=
    Js.pickDarkFor Sample.enum Sample.fresh Sample.always Sample.saves
      true 60 want "flats\_DarkMasters" [near; same] Js.shipped_rejection ""
      Js.shipped_match Sample.empty_world in
  (exists best,
     r = (Js.Ret (Some (Js.mkSel (Js.path best) false "MasterDark(exact)")),
          Sample.empty_world)
     /\ Js.first_max (fun c => Js.metaScore c want Js.shipped_match) best
          [near; same])
  /\ r = (Js.Ret (Some (Js.mkSel "same.xisf" false "MasterDark(exact)")),
          Sample.empty_world).
Proof.
  intros want near same r. split; [|reflexivity].
  destruct (proj2 (proj2 (proj2
              (score_and_choice Sample.enum Sample.fresh Sample.always
                 Sample.saves true 60 want "flats\_DarkMasters" [near; same]
                 Js.shipped_rejection "" Js.shipped_match Sample.empty_world)))
              eq_refl eq_refl) as [best [Hr [_ [_ Hmax]]]].
  - discriminate.
  - exists best. split; [exact Hr|]. apply Hmax. reflexivity.
Defined.

(** C3 fails as stated for a wide temperature window: with a window of
    20 degrees, two master darks at the exposure of the target that are
    20 and 15 degrees off score -2.5 and -1.5, and the first is
    returned although the second scores higher. (And a binning that is
    the empty text on both sides, equal though it is, earns nothing.) *)
Lemma highest_score_not_chosen :
  let m := Js.mkMatchCfg true true true 20 in
  let want := Scan.mkWant None None None (Some 0) in
  let far := Js.mkDark "far.xisf" Js.MASTERDARK 60 None None None (Some 20) in
  let near := Js.mkDark "near.xisf" Js.MASTERDARK 60 None None None (Some 15) in
  Js.pickDarkFor Sample.enum Sample.fresh Sample.always Sample.saves
    true 60 want "flats\_DarkMasters" [far; near] Js.shipped_rejection "" m
    Sample.empty_world
  = (Js.Ret (Some (Js.mkSel "far.xisf" false "MasterDark(exact)")),
     Sample.empty_world)
  /\ (Js.metaScore far want m == -5 # 2)%Q
  /\ (Js.metaScore near want m == -3 # 2)%Q
  /\ (Js.metaScore far want m < Js.metaScore near want m)%Q
  /\ (Js.metaScore (Js.mkDark "blank.xisf" Js.MASTERDARK 60 (Some "") None None None)
        (Scan.mkWant (Some "") None None None) Js.shipped_match == 0)%Q.
Proof.
  repeat split; reflexivity.
Qed.

(** C4. A selection asks for optimization exactly when it comes from the
    last tier, which is reached exactly when no entry of any kind is at
    the key of the target and the nearest exposure is allowed; there the
    master dark returned is one of the candidates, the master darks of
    the catalog and the masters built from the raw darks, and none of
    them is nearer to the target. With master darks at 60 s and 300 s
    only and a target of 120 s, the one at 60 s is returned with
    optimization. *)
Theorem nearest_exposure_fallback
    (II_ENUM : Js.enum_table) (new_ImageIntegration : Js.obj)
    (executeGlobal : Js.world -> Js.obj -> bool)
    (saveXISF : Js.world -> string -> bool)
    (allow : bool) (exp : Q) (want : Scan.want) (cacheDir : string)
    (cats : list Js.dark) (rej : option Js.rej_cfg) (hintsCal : string)
    (m : Js.match_cfg) (w : Js.world) :
  let k := Js.kexp exp in
  let none_at_key :=
    Js.entries_at cats Js.MASTERDARKFLAT k = []
    /\ Js.entries_at cats Js.DARKFLAT k = []
    /\ Js.entries_at cats Js.MASTERDARK k = []
    /\ Js.entries_at cats Js.DARK k = [] in
  let pick := Js.pickDarkFor II_ENUM new_ImageIntegration executeGlobal saveXISF in
  (forall sel w',
     pick allow exp want cacheDir cats rej hintsCal m w = (Js.Ret (Some sel), w') ->
     (Js.optimize sel = true <-> none_at_key /\ allow = true)
     /\ (Js.optimize sel = true <-> Js.kind sel = "MasterDark(nearest+optimize)")
     /\ (Js.optimize sel = true ->
           exists e,
             In (Js.sel_path sel, e) (Js.nearest_candidates cacheDir cats)
             /\ forall c, In c (Js.nearest_candidates cacheDir cats) ->
                  (Qabs (e - exp) <= Qabs (snd c - exp))%Q))
  /\ (forall p e,
        In (p, e) (Js.nearest_candidates cacheDir cats)
        <-> (exists c, In c cats /\ Js.type c = Js.MASTERDARK
                       /\ p = Js.path c /\ e = Js.exposure c)
            \/ (exists c, In c cats /\ Js.type c = Js.DARK
                          /\ p = Js.built_dark cacheDir (Js.kexp (Js.exposure c))
                          /\ e = Num.of_thousandths (Js.kexp (Js.exposure c))))
  /\ (forall p60 p300 b60 g60 o60 t60 b300 g300 o300 t300,
        pick true 120 want cacheDir
          [Js.mkDark p60 Js.MASTERDARK 60 b60 g60 o60 t60;
           Js.mkDark p300 Js.MASTERDARK 300 b300 g300 o300 t300]
          rej hintsCal m w
        = (Js.Ret (Some (Js.mkSel p60 true "MasterDark(nearest+optimize)")), w)).
Proof.
  intros k none_at_key pick.
  split; [|split; [apply nearest_candidates_iff|intros; reflexivity]].
  intros sel w'. unfold pick, none_at_key. rewrite pickDarkFor_tiers. fold k.
  destruct (Js.entries_at cats Js.MASTERDARKFLAT k) as [|a1 l1].
  2:{ unfold Js.ret. intros [= <- _]. simpl.
      repeat split; try discriminate; intros [[H _] _]; discriminate H. }
  destruct (Js.entries_at cats Js.DARKFLAT k) as [|a2 l2].
  2:{ intros H. apply bind_ret_inv in H. injection H as ->. simpl.
      repeat split; try discriminate; intros [[_ [H _]] _]; discriminate H. }
  destruct (Js.entries_at cats Js.MASTERDARK k) as [|a3 l3].
  2:{ unfold Js.ret. intros [= <- _]. simpl.
      repeat split; try discriminate; intros [[_ [_ [H _]]] _]; discriminate H. }
  destruct (Js.entries_at cats Js.DARK k) as [|a4 l4].
  2:{ intros H. apply bind_ret_inv in H. injection H as ->. simpl.
      repeat split; try discriminate; intros [[_ [_ [_ H]]] _]; discriminate H. }
  destruct allow; [|unfold Js.ret; discriminate].
  unfold Js.bind.
  destruct (Js.build_all _ _ _ _ _ _ _ _ w) as [[built|msg] w1] eqn:Eb;
    [|discriminate].
  apply build_all_ret in Eb. subst built.
  fold (Js.nearest_candidates cacheDir cats).
  destruct (Js.sort_by_dist exp (Js.nearest_candidates cacheDir cats))
    as [|best3 rest] eqn:Es; unfold Js.ret; [discriminate|].
  intros [= <- _]. simpl.
  split; [tauto|]. split; [tauto|]. intros _.
  apply sort_by_dist_head in Es. destruct Es as [Hin Hmin].
  exists (snd best3). split; [destruct best3; exact Hin|].
  intros c Hc. exact (Hmin c Hc).
Qed.

(** Master darks at 60 s and 300 s, a target of 120 s. *)
Lemma nearest_exposure_fallback_witness :
  let sel := Js.mkSel "MasterDark_60s.xisf" true "MasterDark(nearest+optimize)" in
  let cats :=
    [Js.mkDark "MasterDark_60s.xisf" Js.MASTERDARK 60 None None None None;
     Js.mkDark "MasterDark_300s.xisf" Js.MASTERDARK 300 None None None None] in
  exists e,
    In (Js.sel_path sel, e) (Js.nearest_candidates "flats\_DarkMasters" cats)
    /\ forall c, In c (Js.nearest_candidates "flats\_DarkMasters" cats) ->
         (Qabs (e - 120) <= Qabs (snd c - 120))%Q.
Proof.
  intros sel cats.
  destruct (proj1 (nearest_exposure_fallback Sample.enum Sample.fresh
                     Sample.always Sample.saves true 120 (Js.run_want None)
                     "flats\_DarkMasters" cats Js.shipped_rejection ""
                     Js.shipped_match Sample.empty_world)
              sel Sample.empty_world eq_refl) as [_ [_ H]].
  apply H. reflexivity.
Defined.

(** ** Patterns *)

Section PatternFacts.
Import Re.
Context {R : Type}.

(** The fallback of a starred class: when what follows matches here, the
    star matches. *)
Lemma star_fallback (p : ascii -> bool) (K : pos -> option R)
    (pv : option ascii) (s : string) (i : nat) (g : option string) :
  K (mkPos pv s i g) <> None -> star p K pv s i g <> None.
Proof.
  intros H. destruct s as [|c s]; simpl; [exact H|].
  destruct (p c); [|exact H].
  destruct (star p K (Some c) s (S i) g); [discriminate|exact H].
Qed.

(** A starred class matches when what follows matches after some run of
    the class. *)
Lemma star_some (p : ascii -> bool) (K : pos -> option R)
    (mid rest : string) (pv : option ascii) (i : nat) (g : option string) :
  Str.forallb p mid = true ->
  (forall pv' i', K (mkPos pv' rest i' g) <> None) ->
  star p K pv (mid ++ rest)%string i g <> None.
Proof.
  intros Hmid HK. revert pv i.
  induction mid as [|c mid IH]; intros pv i; simpl.
  - apply star_fallback. apply HK.
  - simpl in Hmid. apply andb_true_iff in Hmid. destruct Hmid as [Hc Hmid].
    rewrite Hc. specialize (IH Hmid (Some c) (S i)).
    destruct (star p K (Some c) (mid ++ rest)%string (S i) g);
      [discriminate|contradiction].
Qed.

(** A literal under IGNORECASE consumes a text that is the same in lower
    case. *)
Lemma lit_ci_run (lit pre rest : string) (k : re) (K : pos -> option R)
    (pv : option ascii) (i : nat) (g : option string) :
  Str.lower pre = Str.lower lit ->
  exists pv' i',
    run (lit_ci lit k) K (mkPos pv (pre ++ rest)%string i g)
    = run k K (mkPos pv' rest i' g).
Proof.
  revert pre pv i. induction lit as [|a lit IH]; intros pre pv i H.
  - destruct pre; [|discriminate]. exists pv, i. reflexivity.
  - destruct pre as [|c pre]; [discriminate|].
    simpl in H. injection H as Hc Hpre.
    destruct (IH pre (Some c) (S i) Hpre) as [pv' [i' E]].
    exists pv', i'. simpl. unfold Chars.ci. rewrite Hc, Ascii.eqb_refl.
    simpl. exact E.
Qed.

End PatternFacts.

Lemma master_re_matches (fn : string) :
  Py.master_xisf_name fn -> Re.match_ Py.MASTER_RE fn <> None.
Proof.
  intros [pre [mid [suf [-> [Hpre [Hsuf Hmid]]]]]].
  change (Re.run
            (Re.lit_ci "MasterFlat_"
               (Re.Seq (Re.Star Chars.not_newline) (Re.lit_ci ".xisf" Re.Eos)))
            (Re.finish 0) (Re.mkPos None (pre ++ mid ++ suf)%string 0 None)
          <> None).
  destruct (lit_ci_run "MasterFlat_" pre (mid ++ suf)%string
              (Re.Seq (Re.Star Chars.not_newline) (Re.lit_ci ".xisf" Re.Eos))
              (Re.finish 0) None 0 None Hpre) as [pv1 [i1 E1]].
  rewrite E1.
  change (Re.star Chars.not_newline
            (Re.run (Re.lit_ci ".xisf" Re.Eos) (Re.finish 0))
            pv1 (mid ++ suf)%string i1 None <> None).
  apply star_some; [exact Hmid|].
  intros pv' i'.
  destruct (lit_ci_run ".xisf" suf "" Re.Eos (Re.finish 0) pv' i' None Hsuf)
    as [pv2 [i2 E2]].
  assert (suf ++ "" = suf)%string as Hnil
    by (clear; induction suf as [|c s IH]; simpl; [reflexivity|rewrite IH; reflexivity]).
  rewrite Hnil in E2. rewrite E2. simpl. discriminate.
Qed.

(** ** The files of a directory *)

Section DirFacts.
Import Py Scan.
Variable P : platform.

Lemma In_insert_str (x y : string) (l : list string) :
  In y (insert_str x l) <-> y = x \/ In y l.
Proof.
  induction l as [|z l IH]; simpl.
  - intuition congruence.
  - destruct (String.leb x z); simpl; [|rewrite IH]; intuition congruence.
Qed.

Lemma In_sorted_str (y : string) (l : list string) :
  In y (sorted_str l) <-> In y l.
Proof.
  induction l as [|x l IH]; simpl; [tauto|].
  rewrite In_insert_str, IH. intuition congruence.
Qed.

Lemma image_loop_cons (dir_path fn : string) (more : list string) :
  image_loop P dir_path (fn :: more) =
  if negb (os_path_isfile P (os_path_join P dir_path fn))
  then image_loop P dir_path more
  else if negb (existsb (String.eqb (Str.lower (splitext_ext fn))) FILE_EXTS)
  then image_loop P dir_path more
  else match Re.match_ MASTER_RE fn with
       | Some _ => image_loop P dir_path more
       | None => os_path_join P dir_path fn :: image_loop P dir_path more
       end.
Proof. reflexivity. Qed.

Lemma image_loop_sound (dir_path : string) (names : list string) (p : string) :
  In p (image_loop P dir_path names) ->
  exists fn,
    In fn names /\ p = os_path_join P dir_path fn
    /\ os_path_isfile P p = true
    /\ In (Str.lower (splitext_ext fn)) FILE_EXTS
    /\ Re.match_ MASTER_RE fn = None.
Proof.
  induction names as [|fn names IH]; [simpl; contradiction|].
  rewrite image_loop_cons.
  assert (In p (image_loop P dir_path names) ->
          exists fn0,
            In fn0 (fn :: names) /\ p = os_path_join P dir_path fn0
            /\ os_path_isfile P p = true
            /\ In (Str.lower (splitext_ext fn0)) FILE_EXTS
            /\ Re.match_ MASTER_RE fn0 = None) as Hrest.
  { intros H. destruct (IH H) as [fn0 [H1 H2]]. exists fn0.
    split; [right; exact H1|exact H2]. }
  destruct (os_path_isfile P (os_path_join P dir_path fn)) eqn:Ef;
    cbv beta iota delta [negb]; [|exact Hrest].
  destruct (existsb (String.eqb (Str.lower (splitext_ext fn))) FILE_EXTS) eqn:Ee;
    cbv beta iota; [|exact Hrest].
  destruct (Re.match_ MASTER_RE fn) eqn:Em; [exact Hrest|].
  intros [<-|H]; [|exact (Hrest H)].
  exists fn. split; [left; reflexivity|]. split; [reflexivity|].
  split; [exact Ef|]. split; [|exact Em].
  apply existsb_exists in Ee. destruct Ee as [e [He Heq]].
  apply String.eqb_eq in Heq. rewrite Heq. exact He.
Qed.

End DirFacts.

(** C10, as the program has it. Every file [_dir_image_files] lists for
    a directory is an entry of the directory that is a file, has one of
    the three extensions, and is not named [MasterFlat_*.xisf] in
    whatever case: the masters the program wrote are never candidates.
    (A name [MasterFlat_*] with the extension .fits or .fit is not
    excluded.) *)
Theorem masters_are_not_candidates (P : Py.platform) (dir_path : string)
    (files : list string) (p : string) :
  Scan._dir_image_files P dir_path = Py.Ok files ->
  In p files ->
  exists names fn,
    Py.os_listdir P dir_path = Py.Ok names
    /\ In fn names
    /\ p = Py.os_path_join P dir_path fn
    /\ Py.os_path_isfile P p = true
    /\ In (Str.lower (Scan.splitext_ext fn)) Py.FILE_EXTS
    /\ ~ Py.master_xisf_name fn.
Proof.
  unfold Scan._dir_image_files.
  destruct (Py.os_listdir P dir_path) as [names|[|]] eqn:El;
    [| |discriminate].
  - intros [= <-] Hin. apply (proj1 (In_sorted_str _ _)) in Hin.
    apply image_loop_sound in Hin.
    destruct Hin as [fn [H1 [H2 [H3 [H4 H5]]]]].
    exists names, fn. repeat split; try assumption.
    intros Hm. apply master_re_matches in Hm. contradiction.
  - intros [= <-] [].
Qed.

(** A directory with a master and a flat: the flat is listed. *)
Lemma masters_are_not_candidates_witness :
  let P := Sample.machine ["MasterFlat_2024-01-01_L_1s.xisf"; "flat_1s.fits"]
             (Py.Raise Py.OtherError) in
  Scan._dir_image_files P "D:\flats" = Py.Ok ["D:\flats\flat_1s.fits"]
  /\ exists names fn,
       Py.os_listdir P "D:\flats" = Py.Ok names
       /\ In fn names
       /\ "D:\flats\flat_1s.fits" = Py.os_path_join P "D:\flats" fn
       /\ Py.os_path_isfile P "D:\flats\flat_1s.fits" = true
       /\ In (Str.lower (Scan.splitext_ext fn)) Py.FILE_EXTS
       /\ ~ Py.master_xisf_name fn.
Proof.
  intros P. split; [reflexivity|].
  apply (masters_are_not_candidates P "D:\flats" ["D:\flats\flat_1s.fits"]).
  - reflexivity.
  - left. reflexivity.
Defined.

(** C10 fails as stated for the other extensions: a file named
    [MasterFlat_2024.fits] is listed as a candidate flat. *)
Lemma fits_master_is_a_candidate :
  let P := Sample.machine ["MasterFlat_2024.fits"] (Py.Raise Py.OtherError) in
  Scan._dir_image_files P "D:\flats" = Py.Ok ["D:\flats\MasterFlat_2024.fits"]
  /\ Str.startswith "masterflat_" (Str.lower "MasterFlat_2024.fits") = true
  /\ In (Str.lower (Scan.splitext_ext "MasterFlat_2024.fits")) Py.FILE_EXTS.
Proof.
  split; [reflexivity|]. split; [reflexivity|]. right. left. reflexivity.
Qed.

(** ** The header readers *)

Section ReaderFacts.
Import Py.
Variable P : platform.


Lemma fits_meta_total (path : string) : exists m, _fits_meta P path = Ok m.
Proof.
  unfold _fits_meta. destruct (_HAS_ASTROPY P); simpl; [|eexists; reflexivity].
  destruct (fits_open P path); eexists; reflexivity.
Qed.

(** Without the FITS library, or when it fails on the file, the reader
    falls back on the name. *)
Lemma fits_meta_fallback (path : string) :
  (_HAS_ASTROPY P = false \/ exists e, fits_open P path = Raise e) ->
  _fits_meta P path = Ok (fallback_meta P path).
Proof.
  intros [Ha|[e He]]; unfold _fits_meta.
  - rewrite Ha. reflexivity.
  - rewrite He. destruct (_HAS_ASTROPY P); reflexivity.
Qed.

Lemma xisf_meta_total (path : string) : exists m, _xisf_meta P path = Ok m.
Proof.
  unfold _xisf_meta. destruct (_xisf_header_xml P path) as [[|c xml]|];
    try (eexists; reflexivity).
  destruct (ET_fromstring P (String c xml)); eexists; reflexivity.
Qed.

Lemma read_meta_total (path : string) : exists m, read_meta P path = Ok m.
Proof.
  unfold read_meta.
  destruct (existsb _ _); [apply fits_meta_total|].
  destruct (String.eqb _ _); [apply xisf_meta_total|].
  eexists; reflexivity.
Qed.

Lemma dict_get_set {V : Type} (k k' : string) (v : V) (d : list (string * V)) :
  dict_get k (dict_set k' v d) =
  if String.eqb k k' then Some v else dict_get k d.
Proof.
  induction d as [|[k0 v0] d IH]; simpl.
  - reflexivity.
  - destruct (String.eqb k' k0) eqn:E0; simpl.
    + apply String.eqb_eq in E0. subst k0.
      destruct (String.eqb k k'); reflexivity.
    + destruct (String.eqb k k0) eqn:E1.
      * apply String.eqb_eq in E1. subst k0.
        rewrite String.eqb_sym in E0. rewrite E0. reflexivity.
      * exact IH.
Qed.

(** The tasks of a scan never fail. *)
Lemma scan_files_meta_ok (paths : list string) :
  exists out, Scan._scan_files_meta_threaded P paths = Ok out.
Proof.
  induction paths as [|p paths [out IH]]; simpl; [eexists; reflexivity|].
  destruct (read_meta_total p) as [m ->]. rewrite IH. eexists; reflexivity.
Qed.

(** [meta_map[p]] is there for every file of the directory, and is what
    [read_meta] gave. *)
Lemma scanned_meta_found (paths : list string) (out : list (string * meta))
    (p : string) :
  Scan._scan_files_meta_threaded P paths = Ok out -> In p paths ->
  read_meta P p = Ok (Scan.lookup_meta out p).
Proof.
  revert out. induction paths as [|q paths IH]; intros out; simpl; [tauto|].
  destruct (read_meta P q) as [m|e] eqn:Eq; [|discriminate].
  destruct (Scan._scan_files_meta_threaded P paths) as [out'|e]; [|discriminate].
  intros [= <-] Hin. unfold Scan.lookup_meta. rewrite dict_get_set.
  destruct (String.eqb p q) eqn:E.
  - apply String.eqb_eq in E. subst q. exact Eq.
  - destruct Hin as [->|Hin]; [rewrite String.eqb_refl in E; discriminate|].
    exact (IH out' eq_refl Hin).
Qed.

End ReaderFacts.




(** C8. [read_meta] returns a dictionary for every path, whatever the
    file system and the libraries do: when the FITS library is missing or
    fails, when no XISF header is found or it does not parse, and for any
    other extension, the dictionary holds the exposure inferred from the
    name, or none, and no binning, gain, offset or temperature; and a
    header value that is not a number gives no value for its field. *)
Theorem read_meta_never_raises (P : Py.platform) (path : string) :
  let ext := Str.lower (Py.path_suffix P path) in
  let is_fits := existsb (String.eqb ext) [".fits"; ".fit"] in
  let fallback := Py.fallback_meta P path in
  (exists m, Py.read_meta P path = Py.Ok m)
  /\ (is_fits = true ->
      (Py._HAS_ASTROPY P = false \/ exists e, Py.fits_open P path = Py.Raise e) ->
      Py.read_meta P path = Py.Ok fallback)
  /\ (is_fits = false -> ext = ".xisf" ->
      (Py._xisf_header_xml P path = None
       \/ Py._xisf_header_xml P path = Some ""
       \/ exists xml e, Py._xisf_header_xml P path = Some xml
                        /\ Py.ET_fromstring P xml = Py.Raise e) ->
      Py.read_meta P path = Py.Ok fallback)
  /\ (is_fits = false -> ext <> ".xisf" -> Py.read_meta P path = Py.Ok fallback)
  /\ (Py.exposure fallback = Py._infer_exposure_from_name P path
      /\ Py.binning fallback = None /\ Py.gain fallback = None
      /\ Py.offset fallback = None /\ Py.temp fallback = None)
  /\ (forall hdr,
        is_fits = true -> Py._HAS_ASTROPY P = true ->
        Py.fits_open P path = Py.Ok hdr ->
        exists m,
          Py.read_meta P path = Py.Ok m
          /\ Py.gain m = Py._coerce_float (Py.first_present Py._FITS_KEYS_GAIN hdr)
          /\ Py.offset m = Py._coerce_float (Py.first_present Py._FITS_KEYS_OFFSET hdr)
          /\ Py.temp m = Py._coerce_float (Py.first_present Py._FITS_KEYS_TEMP hdr))
  /\ (forall s,
        Num.py_float s = None ->
        Num.py_float (Str.strip (Ascii.eqb "'") s) = None ->
        Py._coerce_float (Some (Py.HStr s)) = None)
  /\ Py._coerce_float (Some Py.HUndef) = None
  /\ Py._coerce_float None = None.
Proof.
  intros ext is_fits fallback.
  split; [apply read_meta_total|].
  split.
  { intros Hf H. unfold Py.read_meta. fold ext. fold is_fits. rewrite Hf.
    exact (fits_meta_fallback P path H). }
  split.
  { intros Hf Hx H. unfold Py.read_meta. fold ext. fold is_fits.
    rewrite Hf, Hx. simpl. unfold Py._xisf_meta.
    destruct H as [->|[->|[xml [e [-> He]]]]]; try reflexivity.
    destruct xml; [reflexivity|]. rewrite He. reflexivity. }
  split.
  { intros Hf Hx. unfold Py.read_meta. fold ext. fold is_fits. rewrite Hf.
    destruct (String.eqb ext ".xisf") eqn:E; [|reflexivity].
    apply String.eqb_eq in E. contradiction. }
  split; [repeat split; reflexivity|].
  split.
  { intros hdr Hf Ha Ho. unfold Py.read_meta. fold ext. fold is_fits.
    rewrite Hf. unfold Py._fits_meta. rewrite Ha, Ho. simpl.
    eexists. split; [reflexivity|]. repeat split; reflexivity. }
  split; [|split; reflexivity].
  intros s H1 H2. simpl.
  destruct (Str.startswith "'" s && Str.endswith "'" s); assumption.
Qed.

(** A FITS file that the library cannot open, a quoted and a wrong
    value. *)
Lemma read_meta_never_raises_witness :
  let P := Sample.machine [] (Py.Raise Py.OtherError) in
  Py.read_meta P "D:\flats\flat_2.5s.fits"
  = Py.Ok (Py.mkMeta (Some 2.5%Q) None None None None)
  /\ Py._coerce_float (Some (Py.HStr "'12.5'")) = Some 12.5%Q
  /\ Py._coerce_float (Some (Py.HStr "cold")) = None.
Proof.
  intros P. split; [|split; [reflexivity|]].
  - apply (proj1 (proj2 (read_meta_never_raises P "D:\flats\flat_2.5s.fits")));
      [reflexivity|].
    right. exists Py.OtherError. reflexivity.
  - apply (read_meta_never_raises P ""); reflexivity.
Defined.

(** ** The wanted profile *)

(** In the plan of [scan_flats] the profile of a group is the metadata
    of the first file of its bucket. *)
Lemma plan_want_is_first_file (meta_map : string -> Py.meta)
    (flat_files : list string) (g : Scan.group) :
  In g (Scan.kept_groups (Scan.group_dir meta_map flat_files)) ->
  Scan.g_want g = Some (Scan.want_of (meta_map (hd "" (Scan.g_files g)))).
Proof.
  rewrite kept_groups_spec. intros H. apply in_map_iff in H.
  destruct H as [k [<- _]]. reflexivity.
Qed.

(** C5 at a failing input. Three flats of 2 s whose header gives binning
    2, gain 100, offset 10 and -10 degrees: the plan of the scan holds
    that profile, but the plan gathered for the run holds an empty one,
    so the script matches darks against a profile without any value. *)
Theorem wanted_profile_is_lost :
  let hdr :=
    [("EXPTIME", Py.HFloat 2); ("XBINNING", Py.HStr "2"); ("GAIN", Py.HInt 100);
     ("OFFSET", Py.HInt 10); ("CCD-TEMP", Py.HFloat (-10))] in
  let P := Sample.machine ["a.fits"; "b.fits"; "c.fits"] (Py.Ok hdr) in
  match Scan.scan_flats P ["D:\flats"] with
  | Py.Ok st =>
      Py.read_meta P "D:\flats\a.fits"
      = Py.Ok (Py.mkMeta (Some 2%Q) (Some "2") (Some 100%Q) (Some 10%Q) (Some (-10)%Q))
      /\ map (fun j => map Scan.g_want (Scan.groups j)) (Scan.plan st)
         = [[Some (Scan.mkWant (Some "2") (Some 100%Q) (Some 10%Q) (Some (-10)%Q))]]
      /\ map (fun j => map Scan.g_files (Scan.groups j))
           (Scan._gather_selected_plan P (Scan.tree st))
         = [[["D:\flats\a.fits"; "D:\flats\b.fits"; "D:\flats\c.fits"]]]
      /\ map (fun j => map (fun g => Js.run_want (Scan.g_want g)) (Scan.groups j))
           (Scan._gather_selected_plan P (Scan.tree st))
         = [[Scan.mkWant None None None None]]
  | Py.Raise _ => False
  end.
Proof.
  vm_compute. repeat split; reflexivity.
Qed.


(* ================================================================== *)
(** * Further properties *)

(** ** The scan of the flat directories *)

Section ScanInvariants.
Import Py Scan.
Variable P : platform.

(** What the scan keeps: the directories of the plan are distinct, all of
    them were seen, and the tree shows them row for row, ticked. *)
Lemma scan_dir_rows (st st' : scan_state) (r : string) :
  scan_dir P st r = Ok st' ->
  NoDup (map dirPath (plan st)) ->
  (forall j, In j (plan st) -> In (dirPath j) (seen_dirs st)) ->
  map di_text (tree st) = map dirPath (plan st) ->
  (forall d, In d (tree st) -> di_checked d = true) ->
  NoDup (map dirPath (plan st'))
  /\ (forall j, In j (plan st') -> In (dirPath j) (seen_dirs st'))
  /\ map di_text (tree st') = map dirPath (plan st')
  /\ (forall d, In d (tree st') -> di_checked d = true)
  /\ (forall j, In j (plan st') -> In j (plan st) \/ dirPath j = r).
Proof.
  intros Hs Hnd Hseen Hrows Htick. unfold scan_dir in Hs.
  assert (NoDup (map dirPath (plan st))
          /\ (forall j, In j (plan st) -> In (dirPath j) (seen_dirs st))
          /\ map di_text (tree st) = map dirPath (plan st)
          /\ (forall d, In d (tree st) -> di_checked d = true)
          /\ (forall j, In j (plan st) -> In j (plan st) \/ dirPath j = r)) as Hsame
    by (repeat split; auto).
  destruct (_dir_image_files P r) as [flat_files|e]; [|discriminate].
  destruct flat_files as [|f0 fs]; [injection Hs as <-; exact Hsame|].
  destruct (existsb (String.eqb r) (seen_dirs st)) eqn:Er;
    [injection Hs as <-; exact Hsame|].
  assert (~ In r (seen_dirs st)) as Hnew.
  { intros Hin.
    assert (existsb (String.eqb r) (seen_dirs st) = true) as H
      by (apply existsb_exists; exists r; split; [exact Hin|apply String.eqb_refl]).
    congruence. }
  destruct (_scan_files_meta_threaded P (f0 :: fs)) as [out|e]; [|discriminate].
  destruct (group_dir (lookup_meta out) (f0 :: fs)) as [gs|];
    injection Hs as <-; simpl.
  - split; [|split; [|split; [|split]]].
    + rewrite map_app. simpl. apply NoDup_rev in Hnd.
      rewrite <- (rev_involutive (_ ++ _)). apply NoDup_rev.
      rewrite rev_app_distr. simpl. constructor; [|exact Hnd].
      rewrite <- in_rev. intros Hin. apply in_map_iff in Hin.
      destruct Hin as [j [Ej Hj]]. apply Hnew. rewrite <- Ej. exact (Hseen j Hj).
    + intros j Hj. apply in_app_or in Hj. destruct Hj as [Hj|[<-|[]]].
      * right. exact (Hseen j Hj).
      * left. reflexivity.
    + rewrite !map_app, Hrows. reflexivity.
    + intros d Hd. apply in_app_or in Hd. destruct Hd as [Hd|[<-|[]]].
      * exact (Htick d Hd).
      * reflexivity.
    + intros j Hj. apply in_app_or in Hj. destruct Hj as [Hj|[<-|[]]].
      * left. exact Hj.
      * right. reflexivity.
  - split; [exact Hnd|]. split; [|split; [exact Hrows|split; [exact Htick|]]].
    + intros j Hj. right. exact (Hseen j Hj).
    + intros j Hj. left. exact Hj.
Qed.

Lemma scan_loop_rows (walk : list string) (st st' : scan_state) :
  scan_loop P st walk = Ok st' ->
  NoDup (map dirPath (plan st)) ->
  (forall j, In j (plan st) -> In (dirPath j) (seen_dirs st)) ->
  map di_text (tree st) = map dirPath (plan st) ->
  (forall d, In d (tree st) -> di_checked d = true) ->
  NoDup (map dirPath (plan st'))
  /\ map di_text (tree st') = map dirPath (plan st')
  /\ (forall d, In d (tree st') -> di_checked d = true)
  /\ (forall j, In j (plan st') -> In j (plan st) \/ In (dirPath j) walk).
Proof.
  revert st. induction walk as [|r walk IH]; intros st; simpl.
  - intros [= <-] H1 H2 H3 H4. repeat split; auto.
  - destruct (scan_dir P st r) as [st1|e] eqn:E; [|discriminate].
    intros Hl H1 H2 H3 H4.
    destruct (scan_dir_rows st st1 r E H1 H2 H3 H4) as [G1 [G2 [G3 [G4 G5]]]].
    destruct (IH st1 Hl G1 G2 G3 G4) as [K1 [K2 [K3 K4]]].
    repeat split; try assumption.
    intros j Hj. destruct (K4 j Hj) as [Hj1|Hw]; [|right; right; exact Hw].
    destruct (G5 j Hj1) as [Hj0|Er]; [left; exact Hj0|right; left; symmetry; exact Er].
Qed.

(** A listing that fails for want of permission counts as empty. *)
Lemma scan_dir_permission (st : scan_state) (r : string) :
  os_listdir P r = Raise PermissionError -> scan_dir P st r = Ok st.
Proof.
  intros H. unfold scan_dir, _dir_image_files. rewrite H. reflexivity.
Qed.

Lemma scan_dir_listing_ok (st : scan_state) (r : string) :
  os_listdir P r <> Raise OtherError -> exists st', scan_dir P st r = Ok st'.
Proof.
  intros H. unfold scan_dir, _dir_image_files.
  destruct (os_listdir P r) as [names|[|]]; [| |congruence].
  - destruct (sorted_str (image_loop P r names)) as [|f0 fs];
      [eexists; reflexivity|].
    destruct (existsb _ _); [eexists; reflexivity|].
    destruct (scan_files_meta_ok P (f0 :: fs)) as [out ->].
    destruct (group_dir _ _); eexists; reflexivity.
  - eexists; reflexivity.
Qed.

Lemma scan_dir_listing_fails (st : scan_state) (r : string) :
  os_listdir P r = Raise OtherError -> scan_dir P st r = Raise OtherError.
Proof.
  intros H. unfold scan_dir, _dir_image_files. rewrite H. reflexivity.
Qed.

End ScanInvariants.

(** X1. In the plan of a scan no directory comes twice, however often
    the walks reach it; every directory of the plan was walked; and the
    tree of the window shows the directories of the plan, in the same
    order, each ticked. *)
Theorem scan_plans_each_directory_once (P : Py.platform) (walk : list string)
    (st : Scan.scan_state) :
  Scan.scan_flats P walk = Py.Ok st ->
  NoDup (map Scan.dirPath (Scan.plan st))
  /\ (forall j, In j (Scan.plan st) -> In (Scan.dirPath j) walk)
  /\ map Scan.di_text (Scan.tree st) = map Scan.dirPath (Scan.plan st)
  /\ (forall d, In d (Scan.tree st) -> Scan.di_checked d = true).
Proof.
  intros H. unfold Scan.scan_flats in H.
  destruct (scan_loop_rows P walk _ st H) as [H1 [H2 [H3 H4]]]; simpl.
  - constructor.
  - intros j [].
  - reflexivity.
  - intros d [].
  - repeat split; try assumption.
    intros j Hj. destruct (H4 j Hj) as [[]|Hw]. exact Hw.
Qed.

(** A directory reached twice, with three flats of 1 s. *)
Lemma scan_plans_each_directory_once_witness :
  let P := Sample.machine ["a_1s.fits"; "b_1s.fits"; "c_1s.fits"]
             (Py.Raise Py.OtherError) in
  match Scan.scan_flats P ["D:\flats"; "D:\flats"] with
  | Py.Ok st =>
      map Scan.dirPath (Scan.plan st) = ["D:\flats"]
      /\ NoDup (map Scan.dirPath (Scan.plan st))
      /\ map Scan.di_text (Scan.tree st) = map Scan.dirPath (Scan.plan st)
  | Py.Raise _ => False
  end.
Proof.
  intros P.
  destruct (Scan.scan_flats P ["D:\flats"; "D:\flats"]) as [st|e] eqn:E;
    [|vm_compute in E; discriminate E].
  destruct (scan_plans_each_directory_once P _ st E) as [H1 [_ [H3 _]]].
  split; [|split; assumption].
  vm_compute in E. injection E as <-. reflexivity.
Defined.

(** X2. A scan fails exactly when the listing of some walked directory
    fails with an error other than a missing permission: reading the
    metadata never fails it, and a directory that may not be listed is
    passed over, the state of the scan unchanged. *)
Theorem scan_fails_only_on_listing (P : Py.platform) (walk : list string) :
  ((exists st, Scan.scan_flats P walk = Py.Ok st)
   <-> forall r, In r walk -> Py.os_listdir P r <> Py.Raise Py.OtherError)
  /\ (forall st r,
        Py.os_listdir P r = Py.Raise Py.PermissionError ->
        Scan.scan_dir P st r = Py.Ok st).
Proof.
  split; [|intros st r; apply scan_dir_permission].
  unfold Scan.scan_flats. generalize (Scan.mkScan [] [] []).
  induction walk as [|r walk IH]; intros st0; simpl.
  - split; [intros _ r []|intros _; eexists; reflexivity].
  - split.
    + intros [st Hs] r0 [<-|Hr0].
      * intros Hl. rewrite (scan_dir_listing_fails P st0 r Hl) in Hs. discriminate.
      * destruct (Scan.scan_dir P st0 r) as [st1|e]; [|discriminate].
        apply (proj1 (IH st1)); [exists st; exact Hs|exact Hr0].
    + intros Hall.
      destruct (scan_dir_listing_ok P st0 r (Hall r (or_introl eq_refl)))
        as [st1 ->].
      apply (proj2 (IH st1)). intros r0 Hr0. apply Hall. right. exact Hr0.
Qed.

(** A directory that cannot be listed beside one that can. *)
Lemma scan_fails_only_on_listing_witness :
  let P := Sample.machine ["a_1s.fits"] (Py.Raise Py.OtherError) in
  exists st, Scan.scan_flats P ["D:\flats"; "D:\more"] = Py.Ok st.
Proof.
  intros P.
  apply (proj2 (proj1 (scan_fails_only_on_listing P ["D:\flats"; "D:\more"]))).
  intros r _. discriminate.
Defined.

(** ** The groups of a directory *)

Section GroupShape.
Import KDict Py Scan.
Variable meta_map : string -> meta.

Lemma sorted_nodup_strict (l : list Z) :
  StronglySorted Z.le l -> NoDup l -> StronglySorted Z.lt l.
Proof.
  induction 1 as [|a l Hs IH Hall]; intros Hnd; constructor.
  - apply IH. inversion Hnd; assumption.
  - inversion Hnd as [|? ? Hnot _]; subst.
    rewrite Forall_forall in *. intros x Hx.
    specialize (Hall x Hx).
    assert (a <> x) by (intros ->; contradiction). lia.
Qed.

Lemma strict_map {X Y : Type} (R : X -> X -> Prop) (S : Y -> Y -> Prop)
    (f : X -> Y) (l : list X) :
  (forall a b, R a b -> S (f a) (f b)) ->
  StronglySorted R l -> StronglySorted S (map f l).
Proof.
  intros HRS. induction 1 as [|a l Hs IH Hall]; simpl; constructor.
  - exact IH.
  - rewrite Forall_forall in *. intros y Hy. apply in_map_iff in Hy.
    destruct Hy as [x [<- Hx]]. apply HRS. exact (Hall x Hx).
Qed.

End GroupShape.

(** A positive exposure rounds to no negative number of thousandths. *)
Lemma round3_nonneg (x : Q) : (0 < x)%Q -> (0 <= Num.round3 x)%Z.
Proof.
  intros Hx. unfold Num.round3.
  assert (0 < Qnum x)%Z as Hn by (unfold Qlt in Hx; simpl in Hx; lia).
  assert (0 <= Qnum x * 1000 / Z.pos (Qden x))%Z as Hf
    by (apply Z.div_pos; lia).
  destruct (2 * ((Qnum x * 1000) mod Z.pos (Qden x)) ?= Z.pos (Qden x))%Z;
    [destruct (Z.even _)|..]; lia.
Qed.

(** X3. In a directory whose flats have positive exposures, the groups
    come in strictly increasing order of exposure, so no exposure comes
    twice, no exposure is negative, and the files of a group are exactly
    the files of the directory whose exposure rounds to that of the
    group, in the order of the directory. *)
Theorem groups_are_sorted_buckets (meta_map : string -> Py.meta)
    (flat_files : list string) :
  (forall p ex, In p flat_files -> Py.exposure (meta_map p) = Some ex ->
     (0 < ex)%Q) ->
  let planned := Scan.kept_groups (Scan.group_dir meta_map flat_files) in
  StronglySorted (fun a b => (Scan.g_exposure a < Scan.g_exposure b)%Q) planned
  /\ (forall g, In g planned ->
        (0 <= Scan.g_exposure g)%Q
        /\ Scan.g_files g
           = filter (fun p =>
                       match Py.exposure (meta_map p) with
                       | Some ex => Qeq_bool (Num.of_thousandths (Num.round3 ex))
                                      (Scan.g_exposure g)
                       | None => false
                       end) flat_files).
Proof.
  intros Hpos planned. unfold planned. rewrite kept_groups_spec. split.
  - apply (strict_map Z.lt).
    + intros a b Hab. unfold Scan.bucket_group, Num.of_thousandths. simpl.
      unfold Qlt. simpl. lia.
    + apply sorted_nodup_strict;
        [apply surviving_keys_sorted|apply surviving_keys_NoDup].
  - intros g Hin. apply in_map_iff in Hin. destruct Hin as [k [<- Hk]].
    split.
    + apply In_surviving_keys in Hk.
      destruct (KDict.bucket (Scan.file_key meta_map) k flat_files)
        as [|p b] eqn:Eb; [simpl in Hk; lia|].
      assert (In p (KDict.bucket (Scan.file_key meta_map) k flat_files)) as Hp
        by (rewrite Eb; left; reflexivity).
      unfold KDict.bucket in Hp. apply filter_In in Hp.
      destruct Hp as [Hp Hkey]. unfold KDict.has_key, Scan.file_key in Hkey.
      destruct (Py.exposure (meta_map p)) as [ex|] eqn:Ee; [|discriminate Hkey].
      simpl in Hkey. apply Z.eqb_eq in Hkey.
      pose proof (round3_nonneg ex (Hpos p ex Hp Ee)) as H0.
      unfold Scan.bucket_group, Num.of_thousandths, Qle. simpl. lia.
    + simpl. unfold KDict.bucket.
      apply filter_ext. intros p. unfold KDict.has_key, Scan.file_key.
      destruct (Py.exposure (meta_map p)) as [ex|]; [|reflexivity]. simpl.
      rewrite Z.eqb_sym.
      destruct (Z.eqb_spec (Num.round3 ex) k) as [->|Hne]; symmetry.
      * apply Qeq_bool_iff. reflexivity.
      * destruct (Qeq_bool _ _) eqn:E; [|reflexivity].
        apply Qeq_bool_iff in E. unfold Qeq, Num.of_thousandths in E.
        simpl in E. lia.
Qed.

(** Flats of 2 s listed before flats of 1 s: the group of 1 s is first. *)
Lemma groups_are_sorted_buckets_witness :
  let flat_files :=
    ["a_2s.fits"; "b_1s.fits"; "c_2s.fits"; "d_1s.fits"; "e_2s.fits"; "f_1s.fits"] in
  map Scan.g_files (Scan.kept_groups (Scan.group_dir Sample.by_name flat_files))
  = [["b_1s.fits"; "d_1s.fits"; "f_1s.fits"]; ["a_2s.fits"; "c_2s.fits"; "e_2s.fits"]]
  /\ StronglySorted (fun a b => (Scan.g_exposure a < Scan.g_exposure b)%Q)
       (Scan.kept_groups (Scan.group_dir Sample.by_name flat_files)).
Proof.
  intros flat_files. split; [reflexivity|].
  refine (proj1 (groups_are_sorted_buckets Sample.by_name flat_files _)).
  intros p ex Hp.
  repeat (destruct Hp as [<-|Hp];
          [intros H; vm_compute in H; injection H as <-; reflexivity|]).
  destruct Hp.
Defined.

(** ** The listing of a directory *)

Section ListingFacts.
Import Py Scan.
Variable P : platform.

Lemma insert_str_sorted (x : string) (l : list string) :
  Sorted (fun a b => String.leb a b = true) l ->
  Sorted (fun a b => String.leb a b = true) (insert_str x l).
Proof.
  induction 1 as [|y l Hs IH Hhd]; simpl.
  - repeat constructor.
  - destruct (String.leb x y) eqn:E.
    + constructor; [constructor; assumption|constructor; exact E].
    + constructor; [exact IH|].
      destruct l as [|z l]; simpl.
      * constructor. destruct (String.leb_total x y) as [H|H]; congruence.
      * destruct (String.leb x z).
        -- constructor. destruct (String.leb_total x y) as [H|H]; congruence.
        -- inversion Hhd; subst. constructor. assumption.
Qed.

Lemma sorted_str_sorted (l : list string) :
  Sorted (fun a b => String.leb a b = true) (sorted_str l).
Proof.
  induction l as [|x l IH]; simpl; [constructor|].
  apply insert_str_sorted. exact IH.
Qed.

Lemma image_loop_complete (dir_path : string) (names : list string) (fn : string) :
  In fn names ->
  os_path_isfile P (os_path_join P dir_path fn) = true ->
  In (Str.lower (splitext_ext fn)) FILE_EXTS ->
  Re.match_ MASTER_RE fn = None ->
  In (os_path_join P dir_path fn) (image_loop P dir_path names).
Proof.
  intros Hin Hf He Hm.
  induction names as [|fn0 names IH]; [contradiction|].
  rewrite image_loop_cons.
  destruct Hin as [->|Hin].
  - rewrite Hf.
    assert (existsb (String.eqb (Str.lower (splitext_ext fn))) FILE_EXTS = true)
      as -> by (apply existsb_exists; eexists; split;
                [exact He|apply String.eqb_refl]).
    rewrite Hm. left. reflexivity.
  - specialize (IH Hin).
    destruct (negb _); [exact IH|].
    destruct (negb _); [exact IH|].
    destruct (Re.match_ MASTER_RE fn0); [exact IH|right; exact IH].
Qed.

End ListingFacts.

(** X4. [_dir_image_files] returns its files in ascending order, and
    leaves none out: every entry of the directory that is a file, has one
    of the three extensions in whatever case, and does not match
    [MASTER_RE] is in the list. A directory that may not be listed gives
    the empty list; any other failure of the listing is passed on. *)
Theorem dir_image_files_sorted_complete (P : Py.platform) (dir_path : string) :
  (forall names,
     Py.os_listdir P dir_path = Py.Ok names ->
     exists files,
       Scan._dir_image_files P dir_path = Py.Ok files
       /\ Sorted (fun a b => String.leb a b = true) files
       /\ forall fn,
            In fn names ->
            Py.os_path_isfile P (Py.os_path_join P dir_path fn) = true ->
            In (Str.lower (Scan.splitext_ext fn)) Py.FILE_EXTS ->
            Re.match_ Py.MASTER_RE fn = None ->
            In (Py.os_path_join P dir_path fn) files)
  /\ (Py.os_listdir P dir_path = Py.Raise Py.PermissionError ->
      Scan._dir_image_files P dir_path = Py.Ok [])
  /\ (Py.os_listdir P dir_path = Py.Raise Py.OtherError ->
      Scan._dir_image_files P dir_path = Py.Raise Py.OtherError).
Proof.
  unfold Scan._dir_image_files. split; [|split].
  - intros names ->. eexists. split; [reflexivity|].
    split; [apply sorted_str_sorted|].
    intros fn H1 H2 H3 H4. apply In_sorted_str.
    apply image_loop_complete; assumption.
  - intros ->. reflexivity.
  - intros ->. reflexivity.
Qed.

(** Entries out of order, one with its extension in capitals. *)
Lemma dir_image_files_sorted_complete_witness :
  let P := Sample.machine ["b_1s.FITS"; "notes.txt"; "a_1s.xisf"]
             (Py.Raise Py.OtherError) in
  Scan._dir_image_files P "D:\flats"
  = Py.Ok ["D:\flats\a_1s.xisf"; "D:\flats\b_1s.FITS"]
  /\ exists files,
       Scan._dir_image_files P "D:\flats" = Py.Ok files
       /\ Sorted (fun a b => String.leb a b = true) files
       /\ forall fn,
            In fn ["b_1s.FITS"; "notes.txt"; "a_1s.xisf"] ->
            Py.os_path_isfile P (Py.os_path_join P "D:\flats" fn) = true ->
            In (Str.lower (Scan.splitext_ext fn)) Py.FILE_EXTS ->
            Re.match_ Py.MASTER_RE fn = None ->
            In (Py.os_path_join P "D:\flats" fn) files.
Proof.
  intros P. split; [reflexivity|].
  exact (proj1 (dir_image_files_sorted_complete P "D:\flats") _ eq_refl).
Defined.

(** ** The integrations of the script *)

Section EngineFacts.
Import KDict Js.
Variable II_ENUM : enum_table.
Variable new_ImageIntegration : obj.
Variable executeGlobal : world -> obj -> bool.
Variable saveXISF : world -> string -> bool.

(** One turn of the loop of the last tier. *)
Lemma build_all_cons (cacheDir hintsCal : string) (rej : option rej_cfg)
    (kk : Z) (frames : list dark) (more : kdict (list dark)) (w : world) :
  build_all II_ENUM new_ImageIntegration executeGlobal saveXISF
    cacheDir hintsCal rej ((kk, frames) :: more) w
  = let rest w0 :=
      match build_all II_ENUM new_ImageIntegration executeGlobal saveXISF
              cacheDir hintsCal rej more w0 with
      | (Ret l, w1) => (Ret ((built_dark cacheDir kk, Num.of_thousandths kk) :: l), w1)
      | (Throw msg, w1) => (Throw msg, w1)
      end in
    if existsb (String.eqb (built_dark cacheDir kk)) (files w) then rest w
    else
      match integrateToMaster II_ENUM new_ImageIntegration executeGlobal saveXISF
              (map path frames) (built_dark cacheDir kk) true hintsCal rej w with
      | (Ret _, w0) => rest w0
      | (Throw msg, w0) => (Throw msg, w0)
      end.
Proof.
  change (build_all II_ENUM new_ImageIntegration executeGlobal saveXISF
            cacheDir hintsCal rej ((kk, frames) :: more))
    with (bind (File_exists (built_dark cacheDir kk))
            (fun there =>
               bind (if there then ret tt
                     else integrateToMaster II_ENUM new_ImageIntegration
                            executeGlobal saveXISF (map path frames)
                            (built_dark cacheDir kk) true hintsCal rej)
                 (fun _ =>
                    bind (build_all II_ENUM new_ImageIntegration executeGlobal
                            saveXISF cacheDir hintsCal rej more)
                      (fun rest =>
                         ret ((built_dark cacheDir kk, Num.of_thousandths kk)
                              :: rest))))).
  unfold bind, File_exists, ret. cbv beta zeta iota.
  destruct (existsb (String.eqb (built_dark cacheDir kk)) (files w)).
  - reflexivity.
  - destruct (integrateToMaster II_ENUM new_ImageIntegration executeGlobal
                saveXISF (map path frames)
                (built_dark cacheDir kk) true hintsCal rej w) as [[u|msg] w0];
      reflexivity.
Qed.

(** The worlds the loop of the last tier leads to from [w]: the
    integrations executed so far are kept and followed by integrations
    that satisfy [ok], and every file is an old one or the output of one
    of those. *)
Lemma build_all_effect (cacheDir hintsCal : string) (rej : option rej_cfg)
    (ok : obj * string -> Prop) (D : kdict (list dark)) (w : world) :
  (forall kk frames, In (kk, frames) D -> (3 <= List.length frames)%nat ->
     ok (configure II_ENUM new_ImageIntegration (map path frames) true rej,
         built_dark cacheDir kk)) ->
  exists new,
    executed (snd (build_all II_ENUM new_ImageIntegration executeGlobal saveXISF
                     cacheDir hintsCal rej D w)) = executed w ++ new
    /\ (forall e, In e new -> ok e)
    /\ (forall p, In p (files (snd (build_all II_ENUM new_ImageIntegration
                                      executeGlobal saveXISF
                                      cacheDir hintsCal rej D w))) ->
          In p (files w) \/ exists II, In (II, p) new)
    /\ (forall p, In p (files w) ->
          In p (files (snd (build_all II_ENUM new_ImageIntegration
                              executeGlobal saveXISF
                              cacheDir hintsCal rej D w)))).
Proof.
  revert w. induction D as [|[kk frames] more IH]; intros w Hok.
  - exists []. simpl. rewrite app_nil_r. repeat split; auto. intros e [].
  - assert (forall kk0 frames0, In (kk0, frames0) more ->
              (3 <= List.length frames0)%nat ->
              ok (configure II_ENUM new_ImageIntegration (map path frames0) true rej,
                  built_dark cacheDir kk0)) as Hok'
      by (intros; apply Hok; [right; assumption|assumption]).
    rewrite build_all_cons. cbv zeta.
    destruct (existsb (String.eqb (built_dark cacheDir kk)) (files w)) eqn:Ex.
    + destruct (IH w Hok') as [new [He [Hn [Hf Hg]]]].
      exists new.
      destruct (build_all II_ENUM new_ImageIntegration executeGlobal saveXISF
                  cacheDir hintsCal rej more w) as [[l|msg] w1];
        simpl in *; repeat split; assumption.
    + pose proof (integrate_effect II_ENUM new_ImageIntegration executeGlobal
                    saveXISF (map path frames) (built_dark cacheDir kk)
                    true hintsCal rej w) as Hi.
      cbv zeta in Hi. rewrite length_map in Hi.
      destruct (integrateToMaster II_ENUM new_ImageIntegration executeGlobal
                  saveXISF (map path frames)
                  (built_dark cacheDir kk) true hintsCal rej w) as [o w0].
      simpl in Hi.
      destruct Hi as [[Hlt [[msg Hm] Hw]]|[Hge [Hex Hcases]]].
      * subst o w0. exists []. simpl. rewrite app_nil_r.
        repeat split; auto. intros e [].
      * assert (ok (configure II_ENUM new_ImageIntegration (map path frames) true rej,
                    built_dark cacheDir kk)) as Hthis
          by (apply Hok; [left; reflexivity|exact Hge]).
        destruct Hcases as [[Hr [Hfiles _]]|[Hfiles Hthrow]].
        -- subst o.
           destruct (IH w0 Hok') as [new [He [Hn [Hf Hg]]]].
           exists ((configure II_ENUM new_ImageIntegration (map path frames) true rej,
                    built_dark cacheDir kk) :: new).
           assert (forall u : outcome (list cand) * world,
                     snd u = snd (build_all II_ENUM new_ImageIntegration
                                    executeGlobal saveXISF
                                    cacheDir hintsCal rej more w0) ->
                     executed (snd u)
                     = executed w
                       ++ (configure II_ENUM new_ImageIntegration (map path frames) true rej,
                           built_dark cacheDir kk) :: new
                     /\ (forall e,
                           In e ((configure II_ENUM new_ImageIntegration
                                    (map path frames) true rej,
                                  built_dark cacheDir kk) :: new) -> ok e)
                     /\ (forall p, In p (files (snd u)) ->
                           In p (files w)
                           \/ exists II,
                                In (II, p)
                                  ((configure II_ENUM new_ImageIntegration
                                      (map path frames) true rej,
                                    built_dark cacheDir kk) :: new))
                     /\ (forall p, In p (files w) -> In p (files (snd u)))) as Hu.
           { intros u ->. split; [rewrite He, Hex, <- app_assoc; reflexivity|].
             split; [intros e [<-|He']; [exact Hthis|apply Hn; exact He']|].
             split.
             - intros p Hp. destruct (Hf p Hp) as [Hp'|[II HII]].
               + rewrite Hfiles in Hp'. destruct Hp' as [<-|Hp'].
                 * right. eexists. left. reflexivity.
                 * left. exact Hp'.
               + right. exists II. right. exact HII.
             - intros p Hp. apply Hg. rewrite Hfiles. right. exact Hp. }
           apply Hu.
           destruct (build_all II_ENUM new_ImageIntegration executeGlobal saveXISF
                       cacheDir hintsCal rej more w0) as [[l|msg] w1]; reflexivity.
        -- exists [(configure II_ENUM new_ImageIntegration (map path frames) true rej,
                    built_dark cacheDir kk)].
           assert (exists msg, o = Throw msg) as [msg ->]
             by (destruct Hthrow as [[-> _]|[-> _]]; eexists; reflexivity).
           simpl. split; [exact Hex|].
           split; [intros e [<-|[]]; exact Hthis|].
           rewrite Hfiles. split; [intros p Hp; left; exact Hp|auto].
Qed.

End EngineFacts.

(** X5. A master built from darks or dark-flats is integrated without
    normalization of either kind and with winsorized sigma clipping,
    whatever the number of frames; of the clipping parameters only the
    two sigmas are set, and only when the rejection settings give a
    number for them: the cutoff and the two clipping switches stay as the
    engine has them in a fresh instance. *)
Theorem dark_integration_settings
    (II_ENUM : Js.enum_table) (new_ImageIntegration : Js.obj)
    (paths : list string) (rej : option Js.rej_cfg) :
  let II := Js.configure II_ENUM new_ImageIntegration paths true rej in
  II "images" = Some (Js.JRows paths)
  /\ II "normalization" = Some (Js.JNum (Js.Norm_None II_ENUM))
  /\ II "rejection" = Some (Js.JNum (Js.Rej_Winsor II_ENUM))
  /\ II "rejectionNormalization" = Some (Js.JNum (Js.RejNorm_None II_ENUM))
  /\ II "sigmaLow" = match Js.rej_low rej with
                     | Some lo => Some (Js.JNum lo)
                     | None => new_ImageIntegration "sigmaLow"
                     end
  /\ II "sigmaHigh" = match Js.rej_high rej with
                      | Some hi => Some (Js.JNum hi)
                      | None => new_ImageIntegration "sigmaHigh"
                      end
  /\ II "winsorizationCutoff" = new_ImageIntegration "winsorizationCutoff"
  /\ II "clipLow" = new_ImageIntegration "clipLow"
  /\ II "clipHigh" = new_ImageIntegration "clipHigh"
  /\ II "largeScaleClipHigh" = new_ImageIntegration "largeScaleClipHigh".
Proof.
  intros II. unfold II, Js.configure. cbv beta zeta iota.
  match goal with
  | |- context [Js.strict_eq ?a ?b] =>
      replace (Js.strict_eq a b) with true
        by (symmetry; apply strict_eq_num_refl)
  end.
  destruct rej as [[[lo|] [hi|]]|]; repeat split; reflexivity.
Qed.

(** X6. An integration succeeds exactly when it has three frames or
    more, the engine executes the instance and the result is saved. Only
    then is the output among the files afterwards; a failure leaves the
    files as they were, and a failure of the engine is reported as such
    whatever the save would do. *)
Theorem integration_outcome
    (II_ENUM : Js.enum_table) (new_ImageIntegration : Js.obj)
    (executeGlobal : Js.world -> Js.obj -> bool)
    (saveXISF : Js.world -> string -> bool)
    (paths : list string) (outPath : string) (forDark : bool) (hints : string)
    (rej : option Js.rej_cfg) (w : Js.world) :
  let II := Js.configure II_ENUM new_ImageIntegration paths forDark rej in
  let r := Js.integrateToMaster II_ENUM new_ImageIntegration executeGlobal
             saveXISF paths outPath forDark hints rej w in
  (fst r = Js.Ret tt
   <-> (3 <= List.length paths)%nat /\ executeGlobal w II = true
       /\ saveXISF w outPath = true)
  /\ (fst r = Js.Ret tt -> Js.files (snd r) = outPath :: Js.files w)
  /\ (fst r <> Js.Ret tt -> Js.files (snd r) = Js.files w)
  /\ ((3 <= List.length paths)%nat -> executeGlobal w II = false ->
        fst r = Js.Throw ("ImageIntegration failed: " ++ outPath)).
Proof.
  intros II r.
  pose proof (integrate_effect II_ENUM new_ImageIntegration executeGlobal
                saveXISF paths outPath forDark hints rej w) as H.
  cbv zeta in H. fold II in H. fold r in H.
  destruct H as [[Hlt [[msg Hm] Hw]]|[Hge [_ [[Hr [Hf [He Hs]]]|[Hf Hthrow]]]]].
  - rewrite Hm, Hw. repeat split; try discriminate; try reflexivity.
    + intros [H _]. lia.
    + intros H. lia.
  - rewrite Hr. repeat split; try assumption; try congruence.
  - assert (fst r <> Js.Ret tt) as Hne
      by (destruct Hthrow as [[-> _]|[-> _]]; discriminate).
    split; [split; [intros H; contradiction|]|].
    + intros [_ [He Hs]]. destruct Hthrow as [[_ He']|[_ [_ Hs']]]; congruence.
    + split; [intros H; contradiction|]. split; [intros _; exact Hf|].
      intros _ He. destruct Hthrow as [[Hr _]|[_ [He' _]]]; [exact Hr|congruence].
Qed.

(** ** What [pickDarkFor] does to the world *)

Section PickEffects.
Import KDict Js.
Variable II_ENUM : enum_table.
Variable new_ImageIntegration : obj.
Variable executeGlobal : world -> obj -> bool.
Variable saveXISF : world -> string -> bool.

Lemma bind_snd {A B : Type} (m : M A) (f : A -> M B) (w : world) :
  (forall a w', snd (f a w') = w') -> snd (bind m f w) = snd (m w).
Proof.
  intros Hf. unfold bind. destruct (m w) as [[a|msg] w']; simpl; [apply Hf|reflexivity].
Qed.

Lemma In_groupByExp (cats : list dark) (t : dark_type) (kk : Z)
    (frames : list dark) :
  In (kk, frames) (groupByExp cats t) -> frames = entries_at cats t kk.
Proof.
  rewrite groupByExp_group_by. intros Hin.
  apply In_kget in Hin; [|apply NoDup_keys_group_by].
  rewrite kget_group_by in Hin. unfold entries_at.
  destruct (bucket (dark_key t) kk cats); [discriminate|congruence].
Qed.

(** A master the loop of the last tier went past is among the files. *)
Lemma build_all_present (cacheDir hintsCal : string) (rej : option rej_cfg)
    (D : kdict (list dark)) (w w' : world) (l : list cand) :
  build_all II_ENUM new_ImageIntegration executeGlobal saveXISF
    cacheDir hintsCal rej D w = (Ret l, w') ->
  forall kk frames, In (kk, frames) D -> In (built_dark cacheDir kk) (files w').
Proof.
  revert w l. induction D as [|[kk0 frames0] more IH]; intros w l H kk frames Hin;
    [contradiction|].
  rewrite build_all_cons in H. cbv zeta in H.
  assert (forall w0 l0,
            build_all II_ENUM new_ImageIntegration executeGlobal saveXISF
              cacheDir hintsCal rej more w0 = (Ret l0, w') ->
            In (built_dark cacheDir kk0) (files w0) ->
            In (built_dark cacheDir kk) (files w')) as Hstep.
  { intros w0 l0 Hb Hthere. destruct Hin as [E|Hin].
    - injection E as <- <-.
      destruct (build_all_effect II_ENUM new_ImageIntegration executeGlobal
                  saveXISF cacheDir hintsCal rej (fun _ => True) more w0)
        as [new [_ [_ [_ Hg]]]]; [auto|].
      rewrite Hb in Hg. apply Hg. exact Hthere.
    - exact (IH w0 l0 Hb kk frames Hin). }
  destruct (existsb (String.eqb (built_dark cacheDir kk0)) (files w)) eqn:Ex.
  - destruct (build_all II_ENUM new_ImageIntegration executeGlobal saveXISF
                cacheDir hintsCal rej more w) as [[l0|msg] w1] eqn:Eb;
      [|discriminate].
    injection H as _ <-. apply (Hstep w l0 Eb).
    apply existsb_exists in Ex. destruct Ex as [p [Hp Ep]].
    apply String.eqb_eq in Ep. subst p. exact Hp.
  - pose proof (integrate_effect II_ENUM new_ImageIntegration executeGlobal
                  saveXISF (map path frames0) (built_dark cacheDir kk0)
                  true hintsCal rej w) as Hi.
    cbv zeta in Hi.
    destruct (integrateToMaster II_ENUM new_ImageIntegration executeGlobal
                saveXISF (map path frames0)
                (built_dark cacheDir kk0) true hintsCal rej w) as [[u|msg] w0];
      [|discriminate].
    simpl in Hi.
    destruct Hi as [[_ [[msg Hm] _]]|[_ [_ [[_ [Hf _]]|[_ [[Hm _]|[Hm _]]]]]]];
      try discriminate.
    destruct (build_all II_ENUM new_ImageIntegration executeGlobal saveXISF
                cacheDir hintsCal rej more w0) as [[l0|msg] w1] eqn:Eb;
      [|discriminate].
    injection H as _ <-. apply (Hstep w0 l0 Eb). rewrite Hf. left. reflexivity.
Qed.

(** With every master there already the loop integrates nothing. *)
Lemma build_all_cached (cacheDir hintsCal : string) (rej : option rej_cfg)
    (D : kdict (list dark)) (w : world) :
  (forall kk frames, In (kk, frames) D -> In (built_dark cacheDir kk) (files w)) ->
  build_all II_ENUM new_ImageIntegration executeGlobal saveXISF
    cacheDir hintsCal rej D w
  = (Ret (map (fun kd => (built_dark cacheDir (fst kd), Num.of_thousandths (fst kd))) D),
     w).
Proof.
  induction D as [|[kk frames] more IH]; intros Hall; [reflexivity|].
  rewrite build_all_cons. cbv zeta.
  assert (existsb (String.eqb (built_dark cacheDir kk)) (files w) = true) as ->.
  { apply existsb_exists. exists (built_dark cacheDir kk).
    split; [apply (Hall kk frames); left; reflexivity|apply String.eqb_refl]. }
  rewrite IH; [reflexivity|].
  intros kk0 frames0 Hin. apply (Hall kk0 frames0). right. exact Hin.
Qed.

End PickEffects.

(** X7. Whatever [pickDarkFor] returns, the integrations executed before
    are still on record, and each one it adds is an integration, with the
    settings for darks, of all the raw dark-flats or all the raw darks of
    the catalog at one exposure, three or more of them, into the master
    of that exposure in the cache directory: no master of the catalog is
    ever integrated again. No file disappears, and each new file is the
    output of one of the added integrations. *)
Theorem pick_integrates_only_raw_stacks
    (II_ENUM : Js.enum_table) (new_ImageIntegration : Js.obj)
    (executeGlobal : Js.world -> Js.obj -> bool)
    (saveXISF : Js.world -> string -> bool)
    (allow : bool) (exp : Q) (want : Scan.want) (cacheDir : string)
    (cats : list Js.dark) (rej : option Js.rej_cfg) (hintsCal : string)
    (m : Js.match_cfg) (w : Js.world) :
  let r := Js.pickDarkFor II_ENUM new_ImageIntegration executeGlobal saveXISF
             allow exp want cacheDir cats rej hintsCal m w in
  exists new,
    Js.executed (snd r) = Js.executed w ++ new
    /\ (forall e, In e new ->
          exists t k,
            ((t = Js.DARKFLAT /\ snd e = Js.built_darkflat cacheDir k)
             \/ (t = Js.DARK /\ snd e = Js.built_dark cacheDir k))
            /\ (3 <= List.length (Js.entries_at cats t k))%nat
            /\ fst e = Js.configure II_ENUM new_ImageIntegration
                         (map Js.path (Js.entries_at cats t k)) true rej)
    /\ (forall p, In p (Js.files (snd r)) ->
          In p (Js.files w) \/ exists II, In (II, p) new)
    /\ (forall p, In p (Js.files w) -> In p (Js.files (snd r))).
Proof.
  intros r. unfold r.
  rewrite (pickDarkFor_tiers II_ENUM new_ImageIntegration executeGlobal saveXISF).
  cbv zeta.
  assert (forall t out,
            (t = Js.DARKFLAT /\ out = Js.built_darkflat cacheDir (Js.kexp exp)
             \/ t = Js.DARK /\ out = Js.built_dark cacheDir (Js.kexp exp)) ->
            forall b : option Js.selection,
            exists new,
              Js.executed
                (snd (Js.bind
                        (Js.integrateToMaster II_ENUM new_ImageIntegration
                           executeGlobal saveXISF
                           (map Js.path (Js.entries_at cats t (Js.kexp exp)))
                           out true hintsCal rej)
                        (fun _ => Js.ret b) w)) = Js.executed w ++ new
              /\ (forall e, In e new ->
                    exists t k,
                      ((t = Js.DARKFLAT /\ snd e = Js.built_darkflat cacheDir k)
                       \/ (t = Js.DARK /\ snd e = Js.built_dark cacheDir k))
                      /\ (3 <= List.length (Js.entries_at cats t k))%nat
                      /\ fst e = Js.configure II_ENUM new_ImageIntegration
                                   (map Js.path (Js.entries_at cats t k)) true rej)
              /\ (forall p,
                    In p (Js.files
                            (snd (Js.bind
                                    (Js.integrateToMaster II_ENUM new_ImageIntegration
                                       executeGlobal saveXISF
                                       (map Js.path (Js.entries_at cats t (Js.kexp exp)))
                                       out true hintsCal rej)
                                    (fun _ => Js.ret b) w))) ->
                    In p (Js.files w) \/ exists II, In (II, p) new)
              /\ (forall p, In p (Js.files w) ->
                    In p (Js.files
                            (snd (Js.bind
                                    (Js.integrateToMaster II_ENUM new_ImageIntegration
                                       executeGlobal saveXISF
                                       (map Js.path (Js.entries_at cats t (Js.kexp exp)))
                                       out true hintsCal rej)
                                    (fun _ => Js.ret b) w))))) as Hbuilt.
  { intros t out Ht b. rewrite bind_snd by reflexivity.
    pose proof (integrate_effect II_ENUM new_ImageIntegration executeGlobal
                  saveXISF (map Js.path (Js.entries_at cats t (Js.kexp exp)))
                  out true hintsCal rej w) as Hi.
    cbv zeta in Hi. rewrite length_map in Hi.
    destruct Hi as [[_ [_ ->]]|[Hge [Hex Hcases]]].
    - exists []. rewrite app_nil_r. repeat split; auto. intros e [].
    - exists [(Js.configure II_ENUM new_ImageIntegration
                 (map Js.path (Js.entries_at cats t (Js.kexp exp))) true rej, out)].
      split; [exact Hex|]. split.
      + intros e [<-|[]]. exists t, (Js.kexp exp). simpl.
        split; [tauto|]. split; [exact Hge|reflexivity].
      + destruct Hcases as [[_ [Hf _]]|[Hf _]]; rewrite Hf; split.
        * intros p [<-|Hp]; [right; eexists; left; reflexivity|left; exact Hp].
        * intros p Hp. right. exact Hp.
        * intros p Hp. left. exact Hp.
        * auto. }
  assert (exists new : list (Js.obj * string),
            Js.executed w = Js.executed w ++ new
            /\ (forall e, In e new ->
                  exists t k,
                    ((t = Js.DARKFLAT /\ snd e = Js.built_darkflat cacheDir k)
                     \/ (t = Js.DARK /\ snd e = Js.built_dark cacheDir k))
                    /\ (3 <= List.length (Js.entries_at cats t k))%nat
                    /\ fst e = Js.configure II_ENUM new_ImageIntegration
                                 (map Js.path (Js.entries_at cats t k)) true rej)
            /\ (forall p, In p (Js.files w) ->
                  In p (Js.files w) \/ exists II, In (II, p) new)
            /\ (forall p, In p (Js.files w) -> In p (Js.files w))) as Hsame.
  { exists []. rewrite app_nil_r. repeat split; auto. intros e []. }
  destruct (Js.entries_at cats Js.MASTERDARKFLAT (Js.kexp exp)); [|exact Hsame].
  destruct (Js.entries_at cats Js.DARKFLAT (Js.kexp exp)) eqn:E2.
  2: { rewrite <- E2. apply Hbuilt. left. split; reflexivity. }
  destruct (Js.entries_at cats Js.MASTERDARK (Js.kexp exp)); [|exact Hsame].
  destruct (Js.entries_at cats Js.DARK (Js.kexp exp)) eqn:E4.
  2: { rewrite <- E4. apply Hbuilt. right. split; reflexivity. }
  destruct allow; [|exact Hsame].
  rewrite bind_snd.
  2: { intros a w'. destruct (Js.sort_by_dist exp _); reflexivity. }
  apply build_all_effect.
  intros kk frames Hin Hlen. apply In_groupByExp in Hin. subst frames.
  exists Js.DARK, kk. simpl. split; [tauto|]. split; [exact Hlen|reflexivity].
Qed.

(** Raw darks at 1 s and a target of 2 s: the last tier builds the
    master of 1 s from the three frames. *)
Lemma pick_integrates_only_raw_stacks_witness :
  let d p := Js.mkDark p Js.DARK 1 None None None None in
  let cats := [d "a"; d "b"; d "c"] in
  let r := Js.pickDarkFor Sample.enum Sample.fresh Sample.always Sample.saves
             true 2 (Js.run_want None) "cache" cats None "" Js.shipped_match
             Sample.empty_world in
  map snd (Js.executed (snd r)) = ["cache/MasterDark_1s.xisf"]
  /\ exists new,
       Js.executed (snd r) = Js.executed Sample.empty_world ++ new
       /\ (forall e, In e new ->
             exists t k,
               ((t = Js.DARKFLAT /\ snd e = Js.built_darkflat "cache" k)
                \/ (t = Js.DARK /\ snd e = Js.built_dark "cache" k))
               /\ (3 <= List.length (Js.entries_at cats t k))%nat
               /\ fst e = Js.configure Sample.enum Sample.fresh
                            (map Js.path (Js.entries_at cats t k)) true None)
       /\ (forall p, In p (Js.files (snd r)) ->
             In p (Js.files Sample.empty_world) \/ exists II, In (II, p) new)
       /\ (forall p, In p (Js.files Sample.empty_world) -> In p (Js.files (snd r))).
Proof.
  intros d cats r. split; [reflexivity|].
  exact (pick_integrates_only_raw_stacks Sample.enum Sample.fresh Sample.always
           Sample.saves true 2 (Js.run_want None) "cache" cats None ""
           Js.shipped_match Sample.empty_world).
Defined.

(** X8. A selection of the nearest exposure is reproducible from the
    world it leaves: asked again there, [pickDarkFor] returns the same
    selection and integrates nothing, since every master of the cache
    directory is found and taken as it is. *)
Theorem nearest_tier_reuses_masters
    (II_ENUM : Js.enum_table) (new_ImageIntegration : Js.obj)
    (executeGlobal : Js.world -> Js.obj -> bool)
    (saveXISF : Js.world -> string -> bool)
    (allow : bool) (exp : Q) (want : Scan.want) (cacheDir : string)
    (cats : list Js.dark) (rej : option Js.rej_cfg) (hintsCal : string)
    (m : Js.match_cfg) (w w' : Js.world) (sel : Js.selection) :
  Js.pickDarkFor II_ENUM new_ImageIntegration executeGlobal saveXISF
    allow exp want cacheDir cats rej hintsCal m w = (Js.Ret (Some sel), w') ->
  Js.optimize sel = true ->
  Js.pickDarkFor II_ENUM new_ImageIntegration executeGlobal saveXISF
    allow exp want cacheDir cats rej hintsCal m w' = (Js.Ret (Some sel), w').
Proof.
  rewrite !(pickDarkFor_tiers II_ENUM new_ImageIntegration executeGlobal saveXISF).
  cbv zeta. intros H Hopt.
  destruct (Js.entries_at cats Js.MASTERDARKFLAT (Js.kexp exp)).
  2: { injection H as <- _. discriminate. }
  destruct (Js.entries_at cats Js.DARKFLAT (Js.kexp exp)).
  2: { apply bind_ret_inv in H. injection H as ->. discriminate. }
  destruct (Js.entries_at cats Js.MASTERDARK (Js.kexp exp)).
  2: { injection H as <- _. discriminate. }
  destruct (Js.entries_at cats Js.DARK (Js.kexp exp)).
  2: { apply bind_ret_inv in H. injection H as ->. discriminate. }
  destruct allow; [|discriminate].
  unfold Js.bind in H |- *.
  destruct (Js.build_all II_ENUM new_ImageIntegration executeGlobal saveXISF
              cacheDir hintsCal rej (Js.groupByExp cats Js.DARK) w)
    as [[built|msg] w1] eqn:Eb; [|discriminate].
  pose proof (build_all_ret _ _ _ _ _ _ _ _ _ _ _ Eb) as Hl.
  pose proof (build_all_present _ _ _ _ _ _ _ _ _ _ _ Eb) as Hp.
  assert (w1 = w') as ->.
  { destruct (Js.sort_by_dist exp _) in H; injection H as _ <-; reflexivity. }
  rewrite (build_all_cached II_ENUM new_ImageIntegration executeGlobal saveXISF
             cacheDir hintsCal rej _ w' Hp).
  rewrite <- Hl. exact H.
Qed.

Lemma nearest_tier_reuses_masters_witness :
  let d p := Js.mkDark p Js.DARK 1 None None None None in
  let cats := [d "a"; d "b"; d "c"] in
  let pick := Js.pickDarkFor Sample.enum Sample.fresh Sample.always Sample.saves
                true 2 (Js.run_want None) "cache" cats None "" Js.shipped_match in
  let sel := Js.mkSel "cache/MasterDark_1s.xisf" true "MasterDark(nearest+optimize)" in
  let w' := snd (pick Sample.empty_world) in
  Js.files w' = ["cache/MasterDark_1s.xisf"]
  /\ pick w' = (Js.Ret (Some sel), w').
Proof.
  intros d cats pick sel w'. split; [reflexivity|].
  apply (nearest_tier_reuses_masters Sample.enum Sample.fresh Sample.always
           Sample.saves true 2 (Js.run_want None) "cache" cats None ""
           Js.shipped_match Sample.empty_world w' sel); reflexivity.
Defined.

(** X9. The raw frames at the very exposure are integrated at every
    call, whether or not their master is in the cache directory already;
    and a stack of one or two raw frames there makes [pickDarkFor] throw
    without touching the world: the tiers below, a master dark of that
    exposure or the nearest exposure, are not tried. *)
Theorem raw_stack_at_the_exposure
    (II_ENUM : Js.enum_table) (new_ImageIntegration : Js.obj)
    (executeGlobal : Js.world -> Js.obj -> bool)
    (saveXISF : Js.world -> string -> bool)
    (allow : bool) (exp : Q) (want : Scan.want) (cacheDir : string)
    (cats : list Js.dark) (rej : option Js.rej_cfg) (hintsCal : string)
    (m : Js.match_cfg) (w : Js.world) (t : Js.dark_type) :
  let k := Js.kexp exp in
  let r := Js.pickDarkFor II_ENUM new_ImageIntegration executeGlobal saveXISF
             allow exp want cacheDir cats rej hintsCal m w in
  let out := match t with
             | Js.DARKFLAT => Js.built_darkflat cacheDir k
             | _ => Js.built_dark cacheDir k
             end in
  Js.entries_at cats Js.MASTERDARKFLAT k = [] ->
  (t = Js.DARKFLAT /\ Js.entries_at cats Js.DARKFLAT k <> []
   \/ t = Js.DARK /\ Js.entries_at cats Js.DARKFLAT k = []
      /\ Js.entries_at cats Js.MASTERDARK k = []
      /\ Js.entries_at cats Js.DARK k <> []) ->
  ((List.length (Js.entries_at cats t k) < 3)%nat ->
     (exists msg, fst r = Js.Throw msg) /\ snd r = w)
  /\ ((3 <= List.length (Js.entries_at cats t k))%nat ->
        Js.executed (snd r)
        = Js.executed w
          ++ [(Js.configure II_ENUM new_ImageIntegration
                 (map Js.path (Js.entries_at cats t k)) true rej, out)]).
Proof.
  intros k r out H1 Ht. unfold r.
  rewrite (pickDarkFor_tiers II_ENUM new_ImageIntegration executeGlobal saveXISF).
  cbv zeta. fold k. rewrite H1.
  assert (forall b : option Js.selection,
            ((List.length (Js.entries_at cats t k) < 3)%nat ->
               (exists msg,
                  fst (Js.bind
                         (Js.integrateToMaster II_ENUM new_ImageIntegration
                            executeGlobal saveXISF
                            (map Js.path (Js.entries_at cats t k)) out true
                            hintsCal rej)
                         (fun _ => Js.ret b) w) = Js.Throw msg)
               /\ snd (Js.bind
                         (Js.integrateToMaster II_ENUM new_ImageIntegration
                            executeGlobal saveXISF
                            (map Js.path (Js.entries_at cats t k)) out true
                            hintsCal rej)
                         (fun _ => Js.ret b) w) = w)
            /\ ((3 <= List.length (Js.entries_at cats t k))%nat ->
                  Js.executed
                    (snd (Js.bind
                            (Js.integrateToMaster II_ENUM new_ImageIntegration
                               executeGlobal saveXISF
                               (map Js.path (Js.entries_at cats t k)) out true
                               hintsCal rej)
                            (fun _ => Js.ret b) w))
                  = Js.executed w
                    ++ [(Js.configure II_ENUM new_ImageIntegration
                           (map Js.path (Js.entries_at cats t k)) true rej, out)]))
    as Hb.
  { intros b.
    pose proof (integrate_effect II_ENUM new_ImageIntegration executeGlobal
                  saveXISF (map Js.path (Js.entries_at cats t k))
                  out true hintsCal rej w) as Hi.
    cbv zeta in Hi. rewrite length_map in Hi. unfold Js.bind.
    destruct (Js.integrateToMaster II_ENUM new_ImageIntegration executeGlobal
                saveXISF (map Js.path (Js.entries_at cats t k))
                out true hintsCal rej w) as [o w0].
    simpl in Hi.
    destruct Hi as [[Hlt [[msg ->] ->]]|[Hge [Hex _]]].
    - split; [intros _; split; [exists msg; reflexivity|reflexivity]|lia].
    - split; [lia|]. intros _. destruct o; exact Hex. }
  destruct Ht as [[-> Hne]|[-> [E2 [E3 Hne]]]].
  - destruct (Js.entries_at cats Js.DARKFLAT k); [contradiction|]. apply Hb.
  - rewrite E2, E3.
    destruct (Js.entries_at cats Js.DARK k); [contradiction|]. apply Hb.
Qed.

(** Two raw dark-flats and a master dark, all of 1 s: the call throws. *)
Lemma raw_stack_at_the_exposure_witness :
  let cats := [Js.mkDark "a" Js.DARKFLAT 1 None None None None;
               Js.mkDark "b" Js.DARKFLAT 1 None None None None;
               Js.mkDark "m" Js.MASTERDARK 1 None None None None] in
  let r := Js.pickDarkFor Sample.enum Sample.fresh Sample.always Sample.saves
             true 1 (Js.run_want None) "cache" cats None "" Js.shipped_match
             Sample.empty_world in
  (exists msg, fst r = Js.Throw msg) /\ snd r = Sample.empty_world.
Proof.
  intros cats r.
  refine (proj1 (raw_stack_at_the_exposure Sample.enum Sample.fresh Sample.always
                   Sample.saves true 1 (Js.run_want None) "cache" cats None ""
                   Js.shipped_match Sample.empty_world Js.DARKFLAT _ _) _).
  - reflexivity.
  - left. split; [reflexivity|]. intros H. vm_compute in H. discriminate.
  - vm_compute. lia.
Defined.

(** ** The score without a wanted profile, and its range *)

Section ScoreRange.
Import Js.
Local Open Scope Q_scope.

Lemma metaScore_no_profile (c : dark) (m : match_cfg) :
  metaScore c (run_want None) m = 0.
Proof.
  unfold metaScore, run_want. simpl.
  rewrite !andb_false_r.
  destruct (preferSameGainOffset m), (preferClosestTemp m), (gain c), (offset c),
    (temp c); reflexivity.
Qed.

Lemma best_loop_level (want : Scan.want) (m : match_cfg) (l : list dark)
    (b : dark) (s : Q) :
  (forall c, In c l -> metaScore c want m <= s) ->
  best_loop l want m b s = b.
Proof.
  revert b s. induction l as [|c l IH]; intros b s H; simpl; [reflexivity|].
  assert (Num.Qlt_bool s (metaScore c want m) = false) as ->
    by (apply Qlt_bool_false; apply H; left; reflexivity).
  apply IH. intros c' Hc'. apply H. right. exact Hc'.
Qed.

Lemma best_of_no_profile (c0 : dark) (l : list dark) (m : match_cfg) :
  best_of c0 l (run_want None) m = c0.
Proof.
  unfold best_of. simpl. rewrite metaScore_no_profile.
  change (Num.Qlt_bool (-1) 0) with true. cbv iota.
  apply best_loop_level. intros c _. rewrite metaScore_no_profile. lra.
Qed.

Lemma bonus_range (b : bool) (p : Q) : 0 <= p -> 0 <= bonus b p <= p.
Proof. intros H. unfold bonus. destruct b; lra. Qed.

End ScoreRange.

(** X10. Without a wanted profile, as for a group of a plan that holds
    an empty one, every candidate scores 0, so among the master
    dark-flats of the exposure, or among its master darks when the tiers
    before are empty, the first of the catalog is chosen, whatever the
    metadata of the candidates and the match settings. *)
Theorem no_profile_takes_first
    (II_ENUM : Js.enum_table) (new_ImageIntegration : Js.obj)
    (executeGlobal : Js.world -> Js.obj -> bool)
    (saveXISF : Js.world -> string -> bool)
    (allow : bool) (exp : Q) (cacheDir : string)
    (cats : list Js.dark) (rej : option Js.rej_cfg) (hintsCal : string)
    (m : Js.match_cfg) (w : Js.world) (c0 : Js.dark) (l : list Js.dark) :
  let k := Js.kexp exp in
  let r := Js.pickDarkFor II_ENUM new_ImageIntegration executeGlobal saveXISF
             allow exp (Js.run_want None) cacheDir cats rej hintsCal m w in
  (forall c, Js.metaScore c (Js.run_want None) m = 0%Q)
  /\ (Js.entries_at cats Js.MASTERDARKFLAT k = c0 :: l ->
        r = (Js.Ret (Some (Js.mkSel (Js.path c0) false "MasterDarkFlat(exact)")), w))
  /\ (Js.entries_at cats Js.MASTERDARKFLAT k = [] ->
      Js.entries_at cats Js.DARKFLAT k = [] ->
      Js.entries_at cats Js.MASTERDARK k = c0 :: l ->
        r = (Js.Ret (Some (Js.mkSel (Js.path c0) false "MasterDark(exact)")), w)).
Proof.
  intros k r. split; [intros c; apply metaScore_no_profile|].
  unfold r.
  rewrite (pickDarkFor_tiers II_ENUM new_ImageIntegration executeGlobal saveXISF).
  cbv zeta. fold k. split.
  - intros ->. rewrite best_of_no_profile. reflexivity.
  - intros -> -> ->. rewrite best_of_no_profile. reflexivity.
Qed.

(** Two master darks of 1 s; the second one alone has the binning, the
    gain and the temperature of the flats on record, and the first one is
    taken. *)
Lemma no_profile_takes_first_witness :
  let cats := [Js.mkDark "first" Js.MASTERDARK 1 None None None None;
               Js.mkDark "second" Js.MASTERDARK 1 (Some "1") (Some 100%Q) None
                 (Some (-10)%Q)] in
  Js.pickDarkFor Sample.enum Sample.fresh Sample.always Sample.saves
    true 1 (Js.run_want None) "cache" cats None "" Js.shipped_match
    Sample.empty_world
  = (Js.Ret (Some (Js.mkSel "first" false "MasterDark(exact)")), Sample.empty_world).
Proof.
  intros cats.
  apply (proj2 (proj2 (no_profile_takes_first Sample.enum Sample.fresh
                         Sample.always Sample.saves true 1 "cache" cats None ""
                         Js.shipped_match Sample.empty_world
                         (Js.mkDark "first" Js.MASTERDARK 1 None None None None)
                         [Js.mkDark "second" Js.MASTERDARK 1 (Some "1")
                            (Some 100%Q) None (Some (-10)%Q)])));
    reflexivity.
Defined.

(** X11. A score never exceeds 8.5, the sum of the four full bonuses,
    and it is never negative when the temperature window is 7.5 degrees
    or less, as the shipped 5.0 is; a wider window lets the temperature
    term take points off. *)
Theorem score_range (c : Js.dark) (want : Scan.want) (m : Js.match_cfg) :
  (Js.metaScore c want m <= 17 # 2)%Q
  /\ ((Js.maxTempDeltaC m <= 15 # 2)%Q -> (0 <= Js.metaScore c want m)%Q)
  /\ (0 <= Js.metaScore c want Js.shipped_match <= 17 # 2)%Q
  /\ (Js.metaScore (Js.mkDark "" Js.MASTERDARK 1 None None None (Some 10%Q))
        (Scan.mkWant None None None (Some 0%Q))
        (Js.mkMatchCfg true true true 10) < 0)%Q.
Proof.
  assert (forall m0,
            (Js.metaScore c want m0 <= 17 # 2)%Q
            /\ ((Js.maxTempDeltaC m0 <= 15 # 2)%Q ->
                  (0 <= Js.metaScore c want m0)%Q)) as H.
  { intros m0. rewrite metaScore_stated. unfold Js.stated_score.
    pose proof (bonus_range
                  (Js.enforceBinning m0 && Js.known_text (Js.binning c)
                   && Js.known_text (Scan.w_binning want)
                   && Js.same_text (Js.binning c) (Scan.w_binning want)) 3) as H1.
    pose proof (bonus_range
                  (Js.preferSameGainOffset m0
                   && Js.near (Js.gain c) (Scan.w_gain want) (1 # 100)) 2) as H2.
    pose proof (bonus_range
                  (Js.preferSameGainOffset m0
                   && Js.near (Js.offset c) (Scan.w_offset want) (1 # 2)) 2) as H3.
    fold (Js.binning_bonus c want m0) in H1.
    fold (Js.gain_bonus c want m0) in H2.
    fold (Js.offset_bonus c want m0) in H3.
    assert (Js.temp_bonus c want m0 <= 3 # 2
            /\ (Js.maxTempDeltaC m0 <= 15 # 2 -> 0 <= Js.temp_bonus c want m0))%Q
      as [H4 H5].
    { unfold Js.temp_bonus.
      destruct (Js.temp c) as [ct|]; [|split; intros; lra].
      destruct (Scan.w_temp want) as [wt|]; [|split; intros; lra].
      pose proof (Qabs_nonneg (ct - wt)) as Hn.
      revert Hn. generalize (Qabs (ct - wt)). intros dt Hn.
      unfold Js.bonus.
      destruct (Js.preferClosestTemp m0); cbv beta iota delta [andb];
        [|split; intros; lra].
      destruct (Qle_bool dt (Js.maxTempDeltaC m0)) eqn:E; [|split; intros; lra].
      apply Qle_bool_iff in E. split; [lra|]. intros Hmax.
      assert (dt <= 15 # 2)%Q by (eapply Qle_trans; eassumption). lra. }
    split; [lra|]. intros Hmax. specialize (H5 Hmax). lra. }
  split; [apply H|]. split; [apply H|]. split.
  - split; [apply (proj2 (H Js.shipped_match)); vm_compute; discriminate|apply H].
  - vm_compute. reflexivity.
Qed.

(** ** The key of an exposure on both sides *)

Section Keys.
Local Open Scope Z_scope.

Lemma kexp_of_thousandths (k : Z) : Js.kexp (Num.of_thousandths k) = k.
Proof.
  unfold Js.kexp, Num.js_round1000, Num.of_thousandths, Qfloor.
  simpl. symmetry. apply (Z.div_unique _ _ k 1000); lia.
Qed.

Lemma round3_of_thousandths (k : Z) : Num.round3 (Num.of_thousandths k) = k.
Proof.
  unfold Num.round3, Num.of_thousandths. simpl.
  rewrite Z.mod_mul by lia. rewrite Z.div_mul by lia. reflexivity.
Qed.

Lemma js_round1000_div (n : Z) (d : positive) :
  Num.js_round1000 (n # d) = (n * 1000 * 2 + Z.pos d) / (Z.pos d * 2).
Proof.
  unfold Num.js_round1000, Qfloor, Qplus, Qmult.
  cbn -[Z.mul Z.div Z.add Pos.mul].
  rewrite Pos.mul_1_r, Pos2Z.inj_mul. reflexivity.
Qed.

End Keys.

(** X12. The script files a group under the key the scan bucketed its
    files under: the exposure of a planned group has the key, in
    thousandths, that Python's rounding gave the exposure of each of its
    files, both roundings leaving a number of thousandths as it is. They
    are not the same rounding for all that: of 1/16 s, half way between
    0.062 and 0.063, the script makes 63 thousandths and the scan 62. *)
Theorem script_key_is_bucket_key (meta_map : string -> Py.meta)
    (flat_files : list string) :
  (forall g p,
     In g (Scan.kept_groups (Scan.group_dir meta_map flat_files)) ->
     In p (Scan.g_files g) ->
     exists ex, Py.exposure (meta_map p) = Some ex
                /\ Js.kexp (Scan.g_exposure g) = Num.round3 ex)
  /\ (forall k, Js.kexp (Num.of_thousandths k) = k
                /\ Num.round3 (Num.of_thousandths k) = k)
  /\ (Js.kexp (1 # 16) = 63%Z /\ Num.round3 (1 # 16) = 62%Z).
Proof.
  split; [|split].
  - intros g p Hg Hp. rewrite kept_groups_spec in Hg.
    apply in_map_iff in Hg. destruct Hg as [k [<- _]].
    simpl in Hp |- *. unfold KDict.bucket in Hp. apply filter_In in Hp.
    destruct Hp as [_ Hk]. unfold KDict.has_key, Scan.file_key in Hk.
    destruct (Py.exposure (meta_map p)) as [ex|]; [|discriminate].
    simpl in Hk. apply Z.eqb_eq in Hk. exists ex. split; [reflexivity|].
    rewrite kexp_of_thousandths. congruence.
  - intros k. split; [apply kexp_of_thousandths|apply round3_of_thousandths].
  - split; reflexivity.
Qed.

(** Flats of 2 s. *)
Lemma script_key_is_bucket_key_witness :
  exists ex, Py.exposure (Sample.by_name "a_2s.fits") = Some ex
             /\ Js.kexp (2000 # 1000) = Num.round3 ex.
Proof.
  refine (proj1 (script_key_is_bucket_key Sample.by_name
                   ["a_2s.fits"; "b_2s.fits"; "c_2s.fits"])
            (Scan.mkGroup (2000 # 1000) ["a_2s.fits"; "b_2s.fits"; "c_2s.fits"]
               (Some (Scan.mkWant None None None None))) "a_2s.fits" _ _).
  - vm_compute. left. reflexivity.
  - left. reflexivity.
Defined.

(** ** The walk of the roots *)

Section WalkFacts.
Import Py Scan Darks.

Lemma dir_tree_ind_in (Pr : dir_tree -> Prop) :
  (forall subdirs files,
     (forall d sub, In (d, sub) subdirs -> Pr sub) -> Pr (Dir subdirs files)) ->
  forall t, Pr t.
Proof.
  intros H. fix IH 1. intros [subdirs files]. apply H.
  induction subdirs as [|[d0 sub0] rest IHl]; intros d sub Hin.
  - contradiction.
  - destruct Hin as [E|Hin].
    + injection E as _ <-. apply IH.
    + exact (IHl d sub Hin).
Qed.

Lemma os_walk_sound (join : string -> string -> string) (keep : string -> bool)
    (t : dir_tree) :
  forall top r files,
    In (r, files) (os_walk join keep top t) ->
    exists chain subdirs,
      at_chain t chain (Dir subdirs files)
      /\ forallb keep chain = true
      /\ r = fold_left join chain top.
Proof.
  induction t as [subdirs files0 IH] using dir_tree_ind_in.
  intros top r files Hin. simpl in Hin. destruct Hin as [E|Hin].
  - injection E as <- <-. exists [], subdirs.
    split; [constructor|split; reflexivity].
  - apply in_flat_map in Hin. destruct Hin as [[d sub] [Hds Hin]].
    simpl in Hin. destruct (keep d) eqn:Ek; [|contradiction].
    destruct (IH d sub Hds _ _ _ Hin) as [chain [subdirs' [Hat [Hk Hr]]]].
    exists (d :: chain), subdirs'. split; [|split].
    + econstructor; eassumption.
    + simpl. rewrite Ek. exact Hk.
    + exact Hr.
Qed.

Lemma os_walk_complete (join : string -> string -> string) (keep : string -> bool)
    (t t' : dir_tree) (chain : list string) :
  at_chain t chain t' ->
  forall top subdirs files,
    t' = Dir subdirs files ->
    forallb keep chain = true ->
    In (fold_left join chain top, files) (os_walk join keep top t).
Proof.
  induction 1 as [t|subdirs0 files0 d sub chain t' Hds Hat IH];
    intros top subdirs files Et Hk.
  - subst t. left. reflexivity.
  - simpl in Hk. apply andb_true_iff in Hk. destruct Hk as [Hd Hk].
    simpl. right. apply in_flat_map. exists (d, sub).
    split; [exact Hds|]. simpl. rewrite Hd.
    exact (IH (join top d) subdirs files Et Hk).
Qed.

Lemma os_walk_iff (join : string -> string -> string) (keep : string -> bool)
    (t : dir_tree) (top r : string) (files : list string) :
  In (r, files) (os_walk join keep top t)
  <-> exists chain subdirs,
        at_chain t chain (Dir subdirs files)
        /\ forallb keep chain = true
        /\ r = fold_left join chain top.
Proof.
  split; [apply os_walk_sound|].
  intros [chain [subdirs [Hat [Hk ->]]]].
  exact (os_walk_complete join keep t _ chain Hat top subdirs files eq_refl Hk).
Qed.

Lemma forallb_not_skip (chain : list string) :
  forallb (fun d => negb (_is_skip_dir d)) chain = true
  <-> forall d, In d chain -> _is_skip_dir d = false.
Proof.
  rewrite forallb_forall. split; intros H d Hd; specialize (H d Hd).
  - apply negb_true_iff. exact H.
  - rewrite H. reflexivity.
Qed.

Lemma walk_roots_iff (P : platform) (roots : list (string * dir_tree))
    (r : string) (files : list string) :
  In (r, files) (walk_roots P roots)
  <-> exists dr t chain subdirs,
        In (dr, t) roots
        /\ at_chain t chain (Dir subdirs files)
        /\ (forall d, In d chain -> _is_skip_dir d = false)
        /\ r = fold_left (os_path_join P) chain dr.
Proof.
  unfold walk_roots. rewrite in_flat_map. split.
  - intros [[dr t] [Hin Hw]]. simpl in Hw. apply os_walk_iff in Hw.
    destruct Hw as [chain [subdirs [Hat [Hk Hr]]]].
    exists dr, t, chain, subdirs. rewrite <- forallb_not_skip. auto.
  - intros [dr [t [chain [subdirs [Hin [Hat [Hk Hr]]]]]]].
    exists (dr, t). split; [exact Hin|]. simpl. apply os_walk_iff.
    exists chain, subdirs. rewrite forallb_not_skip. auto.
Qed.

End WalkFacts.

(** X13. The walks of the roots yield exactly the directories that are
    reached from a root through names none of which is to be skipped: a
    directory called [_DarkMasters], [_CalibratedFlats] or [Masters] in
    any case, or one whose name starts with a dot, is passed over with
    all that is below it, while a root is walked whatever its name. The
    candidate files of the dark scan are the entries of those directories
    with one of the three extensions, and every directory [scan_flats]
    plans is one of those directories. *)
Theorem skipped_directories_are_not_walked (P : Py.platform)
    (roots : list (string * Darks.dir_tree)) :
  (forall r files,
     In (r, files) (Darks.walk_roots P roots)
     <-> exists dr t chain subdirs,
           In (dr, t) roots
           /\ Darks.at_chain t chain (Darks.Dir subdirs files)
           /\ (forall d, In d chain -> Darks._is_skip_dir d = false)
           /\ r = fold_left (Py.os_path_join P) chain dr)
  /\ (forall dr t, In (dr, t) roots -> In dr (map fst (Darks.walk_roots P roots)))
  /\ (forall p,
        In p (Darks._iter_candidate_files P roots)
        <-> exists r files fn,
              In (r, files) (Darks.walk_roots P roots)
              /\ In fn files
              /\ In (Str.lower (Scan.splitext_ext fn)) Py.FILE_EXTS
              /\ p = Py.os_path_join P r fn)
  /\ (forall st j,
        Scan.scan_flats P (map fst (Darks.walk_roots P roots)) = Py.Ok st ->
        In j (Scan.plan st) ->
        exists dr t chain,
          In (dr, t) roots
          /\ (forall d, In d chain -> Darks._is_skip_dir d = false)
          /\ Scan.dirPath j = fold_left (Py.os_path_join P) chain dr).
Proof.
  split; [intros r files; apply walk_roots_iff|]. split; [|split].
  - intros dr [subdirs files] Hin.
    apply (in_map fst _ (dr, files)). apply walk_roots_iff.
    exists dr, (Darks.Dir subdirs files), [], subdirs.
    split; [exact Hin|]. split; [constructor|]. split; [intros d []|reflexivity].
  - intros p. unfold Darks._iter_candidate_files. rewrite in_flat_map. split.
    + intros [[r files] [Hin Hp]]. cbn [fst snd] in Hp. apply in_map_iff in Hp.
      destruct Hp as [fn [<- Hfn]]. apply filter_In in Hfn.
      destruct Hfn as [Hfn He]. apply existsb_exists in He.
      destruct He as [e [He Ee]]. apply String.eqb_eq in Ee. subst e.
      exists r, files, fn. auto.
    + intros [r [files [fn [Hin [Hfn [He ->]]]]]].
      exists (r, files). split; [exact Hin|]. cbn [fst snd]. apply in_map.
      apply filter_In. split; [exact Hfn|]. apply existsb_exists.
      eexists. split; [exact He|apply String.eqb_refl].
  - intros st j Hs Hj.
    assert (In (Scan.dirPath j) (map fst (Darks.walk_roots P roots))) as Hw.
    { unfold Scan.scan_flats in Hs.
      destruct (scan_loop_rows P _ _ _ Hs) as [_ [_ [_ H]]]; simpl;
        try constructor; try (intros ? []); try reflexivity.
      destruct (H j Hj) as [[]|Hin]. exact Hin. }
    apply in_map_iff in Hw. destruct Hw as [[r files] [Er Hw]]. simpl in Er.
    subst r. apply walk_roots_iff in Hw.
    destruct Hw as [dr [t [chain [subdirs [Hin [_ [Hk Hr]]]]]]].
    exists dr, t, chain. auto.
Qed.

(** A root called [Masters] with a directory [night1] and a cache
    directory below it. *)
Lemma skipped_directories_are_not_walked_witness :
  let P := Sample.machine [] (Py.Raise Py.OtherError) in
  let t := Darks.Dir [("night1", Darks.Dir [] ["dark_1s.fits"; "notes.txt"]);
                      ("_DarkMasters", Darks.Dir [] ["MasterDark_1s.xisf"]);
                      (".git", Darks.Dir [] ["dark_2s.fit"])]
             ["dark_3s.xisf"] in
  Darks._iter_candidate_files P [("D:\Masters", t)]
  = ["D:\Masters\dark_3s.xisf"; "D:\Masters\night1\dark_1s.fits"]
  /\ In "D:\Masters" (map fst (Darks.walk_roots P [("D:\Masters", t)])).
Proof.
  intros P t. split; [reflexivity|].
  apply (proj1 (proj2 (skipped_directories_are_not_walked P [("D:\Masters", t)]))
           "D:\Masters" t).
  left. reflexivity.
Defined.

(** ** The type of a dark by its name *)

Section ClassifyFacts.
Import Darks.

Lemma prefix_iff (x s : string) :
  String.prefix x s = true <-> exists post, s = (x ++ post)%string.
Proof.
  revert s. induction x as [|c x IH]; intros s.
  - destruct s; simpl; (split; [intros _; eexists; reflexivity|reflexivity]).
  - destruct s as [|c' s]; simpl.
    + split; [discriminate|intros [post H]; discriminate].
    + destruct (ascii_dec c c') as [->|Hne].
      * rewrite IH. split; intros [post H]; exists post; congruence.
      * split; [discriminate|intros [post H]; congruence].
Qed.

Lemma contains_iff (x s : string) :
  Str.contains x s = true <-> exists pre post, s = (pre ++ x ++ post)%string.
Proof.
  induction s as [|c s IH].
  - change (Str.contains x "") with (String.prefix x "" || false).
    rewrite orb_false_r, prefix_iff. split.
    + intros [post H]. exists "", post. exact H.
    + intros [[|c pre] [post H]]; [exists post; exact H|discriminate].
  - change (Str.contains x (String c s))
      with (String.prefix x (String c s) || Str.contains x s).
    rewrite orb_true_iff, prefix_iff, IH. split.
    + intros [[post H]|[pre [post H]]].
      * exists "", post. exact H.
      * exists (String c pre), post. simpl. congruence.
    + intros [[|c' pre] [post H]].
      * left. exists post. exact H.
      * right. exists pre, post. simpl in H. congruence.
Qed.

Lemma string_app_assoc (a b c : string) :
  ((a ++ b) ++ c = a ++ (b ++ c))%string.
Proof. induction a as [|x a IH]; simpl; [reflexivity|rewrite IH; reflexivity]. Qed.

Lemma contains_around (x s pre post : string) :
  Str.contains x s = true -> Str.contains x (pre ++ s ++ post) = true.
Proof.
  rewrite !contains_iff. intros [a [b ->]].
  exists (pre ++ a)%string, (b ++ post)%string.
  rewrite !string_app_assoc. reflexivity.
Qed.

Lemma contains_part (a x b s : string) :
  Str.contains (a ++ x ++ b) s = true -> Str.contains x s = true.
Proof.
  rewrite !contains_iff. intros [pre [post ->]].
  exists (pre ++ a)%string, (b ++ post)%string.
  rewrite !string_app_assoc. reflexivity.
Qed.

Lemma str_map_app (f : ascii -> ascii) (a b : string) :
  Str.map f (a ++ b) = (Str.map f a ++ Str.map f b)%string.
Proof. induction a as [|x a IH]; simpl; [reflexivity|rewrite IH; reflexivity]. Qed.

Lemma upper_c_upper_c (c : ascii) : Chars.upper_c (Chars.upper_c c) = Chars.upper_c c.
Proof. destruct c as [[] [] [] [] [] [] [] []]; reflexivity. Qed.

Lemma upper_c_lower_c (c : ascii) : Chars.upper_c (Chars.lower_c c) = Chars.upper_c c.
Proof. destruct c as [[] [] [] [] [] [] [] []]; reflexivity. Qed.

Lemma upper_upper (s : string) : Str.upper (Str.upper s) = Str.upper s.
Proof.
  unfold Str.upper. induction s as [|c s IH]; simpl; [reflexivity|].
  rewrite upper_c_upper_c, IH. reflexivity.
Qed.

Lemma upper_lower (s : string) : Str.upper (Str.lower s) = Str.upper s.
Proof.
  unfold Str.upper, Str.lower. induction s as [|c s IH]; simpl; [reflexivity|].
  rewrite upper_c_lower_c, IH. reflexivity.
Qed.

End ClassifyFacts.

(** X14. [_classify_dark_type] does not look at the case of the
    letters; it gives no type exactly to the names without the word
    DARK; and text added before or after a name never lowers its type in
    the order MASTERDARKFLAT, MASTERDARK, DARKFLAT, DARK, none. *)
Theorem classification_by_name (name : string) :
  (Darks._classify_dark_type (Str.upper name) = Darks._classify_dark_type name
   /\ Darks._classify_dark_type (Str.lower name) = Darks._classify_dark_type name)
  /\ (Darks._classify_dark_type name = None
      <-> Str.contains "DARK" (Str.upper name) = false)
  /\ (forall pre post,
        (Darks.rank (Darks._classify_dark_type name)
         <= Darks.rank (Darks._classify_dark_type (pre ++ name ++ post)))%nat).
Proof.
  split; [|split].
  - unfold Darks._classify_dark_type. cbv zeta.
    rewrite upper_upper, upper_lower. split; reflexivity.
  - unfold Darks._classify_dark_type. cbv zeta.
    destruct (Str.contains "MASTERDARKFLAT" (Str.upper name)) eqn:E1.
    { apply (contains_part "MASTER" "DARK" "FLAT") in E1. rewrite E1.
      split; discriminate. }
    destruct (Str.contains "MASTERDARK" (Str.upper name)) eqn:E2.
    { apply (contains_part "MASTER" "DARK" "") in E2. rewrite E2.
      split; discriminate. }
    destruct (Str.contains "DARKFLAT" (Str.upper name)) eqn:E3.
    { apply (contains_part "" "DARK" "FLAT") in E3. rewrite E3.
      split; discriminate. }
    destruct (Str.contains "DARK" (Str.upper name)); split;
      try discriminate; reflexivity.
  - intros pre post. unfold Darks._classify_dark_type. cbv zeta.
    unfold Str.upper. rewrite !str_map_app.
    fold (Str.upper name). fold (Str.upper pre). fold (Str.upper post).
    pose proof (fun x => contains_around x (Str.upper name) (Str.upper pre)
                           (Str.upper post)) as H.
    set (big := (Str.upper pre ++ Str.upper name ++ Str.upper post)%string) in *.
    destruct (Str.contains "MASTERDARKFLAT" (Str.upper name)) eqn:E1.
    { rewrite (H _ E1). apply le_n. }
    destruct (Str.contains "MASTERDARK" (Str.upper name)) eqn:E2.
    { rewrite (H _ E2).
      destruct (Str.contains "MASTERDARKFLAT" big); simpl; lia. }
    destruct (Str.contains "DARKFLAT" (Str.upper name)) eqn:E3.
    { rewrite (H _ E3).
      destruct (Str.contains "MASTERDARKFLAT" big); [simpl; lia|].
      destruct (Str.contains "MASTERDARK" big); simpl; lia. }
    destruct (Str.contains "DARK" (Str.upper name)) eqn:E4.
    { rewrite (H _ E4).
      destruct (Str.contains "MASTERDARKFLAT" big); [simpl; lia|].
      destruct (Str.contains "MASTERDARK" big); [simpl; lia|].
      destruct (Str.contains "DARKFLAT" big); simpl; lia. }
    simpl. lia.
Qed.

(** ** The dark inventory *)

Section InventoryFacts.
Import KDict Py Scan Darks.
Variable P : platform.

Lemma catalog_loop_iff (meta_map : list (string * meta)) (cand : list string)
    (d : Js.dark) :
  In d (catalog_loop P meta_map cand)
  <-> In (Js.path d) cand
      /\ _classify_dark_type (os_path_basename P (Js.path d)) = Some (Js.type d)
      /\ d = Js.mkDark (Js.path d) (Js.type d) (Js.exposure d)
               (binning (lookup_meta meta_map (Js.path d)))
               (gain (lookup_meta meta_map (Js.path d)))
               (offset (lookup_meta meta_map (Js.path d)))
               (temp (lookup_meta meta_map (Js.path d)))
      /\ exposure (lookup_meta meta_map (Js.path d)) = Some (Js.exposure d).
Proof.
  induction cand as [|p more IH]; simpl.
  - tauto.
  - assert (In d (catalog_loop P meta_map more)
            <-> (p <> Js.path d \/ In (Js.path d) more)
                /\ In d (catalog_loop P meta_map more)) as Hrest
      by (rewrite IH; tauto).
    destruct (_classify_dark_type (os_path_basename P p)) as [typ|] eqn:Et.
    + destruct (exposure (lookup_meta meta_map p)) as [ex|] eqn:Ex.
      * simpl. rewrite IH. split.
        -- intros [<-|H]; [simpl; rewrite Et, Ex; tauto|tauto].
        -- intros [[->|Hin] [Ht [Hd Hx]]]; [|tauto].
           left. rewrite Hd. rewrite Et in Ht. rewrite Ex in Hx. congruence.
      * rewrite IH. split; [tauto|].
        intros [[->|Hin] [Ht [Hd Hx]]]; [congruence|tauto].
    + rewrite IH. split; [tauto|].
      intros [[->|Hin] [Ht [Hd Hx]]]; [congruence|tauto].
Qed.

Lemma catalog_loop_paths (meta_map : list (string * meta)) (cand : list string) :
  exists keep, map Js.path (catalog_loop P meta_map cand) = filter keep cand.
Proof.
  exists (fun p =>
            match _classify_dark_type (os_path_basename P p),
                  exposure (lookup_meta meta_map p) with
            | Some _, Some _ => true
            | _, _ => false
            end).
  induction cand as [|p more IH]; simpl; [reflexivity|].
  destruct (_classify_dark_type (os_path_basename P p));
    [destruct (exposure (lookup_meta meta_map p)); simpl|]; congruence.
Qed.

Lemma insert_dark_in (d x : Js.dark) (l : list Js.dark) :
  In x (insert_dark d l) <-> x = d \/ In x l.
Proof.
  induction l as [|e r IH]; simpl; [intuition congruence|].
  destruct (String.ltb _ _); simpl; [intuition congruence|].
  rewrite IH. intuition congruence.
Qed.

Lemma sorted_darks_in (x : Js.dark) (l : list Js.dark) :
  In x (sorted_darks l) <-> In x l.
Proof.
  unfold sorted_darks.
  assert (forall acc, In x (fold_left (fun acc d => insert_dark d acc) l acc)
                      <-> In x acc \/ In x l) as H.
  { induction l as [|d l IH]; intros acc; simpl; [tauto|].
    rewrite IH, insert_dark_in. intuition congruence. }
  rewrite H. simpl. tauto.
Qed.

Lemma insert_dark_length (d : Js.dark) (l : list Js.dark) :
  List.length (insert_dark d l) = S (List.length l).
Proof.
  induction l as [|e r IH]; simpl; [reflexivity|].
  destruct (String.ltb _ _); simpl; congruence.
Qed.

(** The rows of a type show the entries of that type, each under its
    exposure, ticked. *)
Lemma type_row_files (catalog : list Js.dark) (typ : Js.dark_type) (f : file_item) :
  (exists e, In e (ti_exps (type_row catalog typ)) /\ In f (ei_files e))
  <-> exists d, In d catalog /\ Js.type d = typ /\ f = mkFileItem (Js.path d) true.
Proof.
  unfold type_row. cbn [ti_exps]. split.
  - intros [e [He Hf]]. apply in_map_iff in He. destruct He as [k [<- Hk]].
    cbn [ei_files] in Hf. apply in_map_iff in Hf. destruct Hf as [d [<- Hd]].
    apply (proj1 (sorted_darks_in _ _)) in Hd.
    destruct (kget k (group_by (inventory_key typ) catalog)) as [l|] eqn:Eg;
      [|contradiction].
    rewrite kget_group_by in Eg.
    destruct (bucket (inventory_key typ) k catalog) as [|x b] eqn:Eb;
      [discriminate|].
    injection Eg as <-. rewrite <- Eb in Hd. unfold bucket in Hd.
    apply filter_In in Hd. destruct Hd as [Hd Hk'].
    exists d. split; [exact Hd|]. split; [|reflexivity].
    unfold has_key, inventory_key in Hk'.
    destruct (Js.dark_type_eqb (Js.type d) typ) eqn:E; [|discriminate].
    apply dark_type_eqb_eq. exact E.
  - intros [d [Hd [Ht ->]]].
    assert (In d (bucket (inventory_key typ) (Num.round3 (Js.exposure d)) catalog))
      as Hb.
    { unfold bucket. apply filter_In. split; [exact Hd|].
      unfold has_key, inventory_key.
      rewrite (proj2 (dark_type_eqb_eq _ _) Ht). apply Z.eqb_refl. }
    assert (kget (Num.round3 (Js.exposure d)) (group_by (inventory_key typ) catalog)
            = Some (bucket (inventory_key typ) (Num.round3 (Js.exposure d)) catalog))
      as Hg.
    { rewrite kget_group_by.
      destruct (bucket (inventory_key typ) (Num.round3 (Js.exposure d)) catalog);
        [contradiction|reflexivity]. }
    eexists. split.
    + apply in_map_iff. exists (Num.round3 (Js.exposure d)).
      split; [reflexivity|].
      apply (Permutation_in _ (Permutation_sym (sorted_keys_perm _))).
      apply (in_map fst _ (Num.round3 (Js.exposure d),
                           bucket (inventory_key typ) (Num.round3 (Js.exposure d))
                             catalog)).
      apply kget_key_in. exact Hg.
    + cbn [ei_files]. rewrite Hg.
      apply (in_map (fun d0 => mkFileItem (Js.path d0) true)).
      apply sorted_darks_in. exact Hb.
Qed.

Lemma allowed_iff (rows : list type_item) (p : string) :
  In p (allowed rows)
  <-> exists t e f, In t rows /\ In e (ti_exps t) /\ In f (ei_files e)
                    /\ fi_checked f = true /\ fi_text f = p.
Proof.
  unfold allowed. rewrite in_flat_map. split.
  - intros [t [Ht H]]. apply in_flat_map in H. destruct H as [e [He H]].
    apply in_map_iff in H. destruct H as [f [Hp Hf]]. apply filter_In in Hf.
    exists t, e, f. tauto.
  - intros [t [e [f [Ht [He [Hf [Hc Hp]]]]]]]. exists t. split; [exact Ht|].
    apply in_flat_map. exists e. split; [exact He|].
    apply in_map_iff. exists f. split; [exact Hp|]. apply filter_In. tauto.
Qed.

End InventoryFacts.

(** X15. The dark scan never fails. Its catalog holds, in the order of
    the candidate files, one entry for each candidate whose base name has
    a type and whose metadata has an exposure, with the type of the name
    and the exposure, binning, gain, offset and temperature that
    [read_meta] gives for the file; a candidate without a type or without
    an exposure has no entry. Without a root the catalog and the tree are
    empty. *)
Theorem dark_catalog_of_a_scan (P : Py.platform)
    (dark_roots : list (string * Darks.dir_tree)) :
  exists st,
    Darks.scan_darks P dark_roots = Py.Ok st
    /\ (forall d,
          In d (Darks.dark_catalog st)
          <-> In (Js.path d) (Darks._iter_candidate_files P dark_roots)
              /\ Darks._classify_dark_type (Py.os_path_basename P (Js.path d))
                 = Some (Js.type d)
              /\ exists m,
                   Py.read_meta P (Js.path d) = Py.Ok m
                   /\ Py.exposure m = Some (Js.exposure d)
                   /\ d = Js.mkDark (Js.path d) (Js.type d) (Js.exposure d)
                            (Py.binning m) (Py.gain m) (Py.offset m) (Py.temp m))
    /\ (exists keep,
          map Js.path (Darks.dark_catalog st)
          = filter keep (Darks._iter_candidate_files P dark_roots))
    /\ (dark_roots = [] -> st = Darks.mkDarkState [] []).
Proof.
  unfold Darks.scan_darks.
  destruct dark_roots as [|rt roots].
  - eexists. split; [reflexivity|]. split; [|split].
    + intros d. simpl. tauto.
    + exists (fun _ => true). reflexivity.
    + reflexivity.
  - set (cand := Darks._iter_candidate_files P (rt :: roots)).
    destruct (scan_files_meta_ok P cand) as [out Hout]. rewrite Hout.
    eexists. split; [reflexivity|]. cbn [Darks.dark_catalog]. split; [|split].
    + intros d. rewrite catalog_loop_iff. split.
      * intros [Hin [Ht [Hd Hx]]]. split; [exact Hin|]. split; [exact Ht|].
        exists (Scan.lookup_meta out (Js.path d)).
        split; [apply (scanned_meta_found P cand); assumption|].
        split; assumption.
      * intros [Hin [Ht [m [Hm [Hx Hd]]]]].
        pose proof (scanned_meta_found P cand out (Js.path d) Hout Hin) as Hm'.
        rewrite Hm in Hm'. injection Hm' as <-. tauto.
    + apply catalog_loop_paths.
    + discriminate.
Qed.

(** X16. After a dark scan every file row of the dark tree is ticked
    and shows the path of an entry of the catalog, and every entry has
    its row under its type; so the darks gathered for a run, with nothing
    unticked, are the whole catalog in its order. Whatever is ticked, the
    darks gathered are entries of the catalog in the order of the
    catalog, and with nothing ticked there is none. *)
Theorem allowed_darks_of_a_scan (P : Py.platform)
    (dark_roots : list (string * Darks.dir_tree)) (st : Darks.dark_state) :
  Darks.scan_darks P dark_roots = Py.Ok st ->
  Darks._gather_allowed_darks (Darks.dark_tree st) (Darks.dark_catalog st)
  = Darks.dark_catalog st
  /\ (forall t e f,
        In t (Darks.dark_tree st) -> In e (Darks.ti_exps t) ->
        In f (Darks.ei_files e) ->
        Darks.fi_checked f = true
        /\ exists d, In d (Darks.dark_catalog st) /\ Darks.fi_text f = Js.path d)
  /\ (forall rows,
        exists keep,
          Darks._gather_allowed_darks rows (Darks.dark_catalog st)
          = filter keep (Darks.dark_catalog st))
  /\ (forall rows,
        (forall t e f, In t rows -> In e (Darks.ti_exps t) ->
                       In f (Darks.ei_files e) -> Darks.fi_checked f = false) ->
        Darks._gather_allowed_darks rows (Darks.dark_catalog st) = []).
Proof.
  intros Hs.
  assert (Darks.dark_tree st = []
          /\ Darks.dark_catalog st = []
          \/ Darks.dark_tree st
             = map (Darks.type_row (Darks.dark_catalog st))
                 [Js.MASTERDARKFLAT; Js.MASTERDARK; Js.DARKFLAT; Js.DARK]) as Htree.
  { unfold Darks.scan_darks in Hs. destruct dark_roots as [|rt roots].
    - injection Hs as <-. left. split; reflexivity.
    - destruct (Scan._scan_files_meta_threaded P _) as [out|e]; [|discriminate].
      injection Hs as <-. right. reflexivity. }
  split; [|split; [|split]].
  - destruct Htree as [[_ ->]|Htree]; [reflexivity|].
    unfold Darks._gather_allowed_darks. apply filter_all. intros d Hd.
    apply existsb_exists. exists (Js.path d). split; [|apply String.eqb_refl].
    apply allowed_iff.
    destruct (proj2 (type_row_files (Darks.dark_catalog st) (Js.type d)
                       (Darks.mkFileItem (Js.path d) true)))
      as [e [He Hf]]; [exists d; auto|].
    exists (Darks.type_row (Darks.dark_catalog st) (Js.type d)), e,
      (Darks.mkFileItem (Js.path d) true).
    split; [|auto]. rewrite Htree. apply in_map.
    destruct (Js.type d); simpl; tauto.
  - intros t e f Ht He Hf.
    destruct Htree as [[Htree _]|Htree]; [rewrite Htree in Ht; contradiction|].
    rewrite Htree in Ht. apply in_map_iff in Ht. destruct Ht as [typ [<- _]].
    destruct (proj1 (type_row_files (Darks.dark_catalog st) typ f))
      as [d [Hd [_ ->]]]; [exists e; auto|].
    split; [reflexivity|]. exists d. auto.
  - intros rows. eexists. reflexivity.
  - intros rows Hnone. unfold Darks._gather_allowed_darks.
    assert (Darks.allowed rows = []) as ->.
    { destruct (Darks.allowed rows) as [|p l] eqn:E; [reflexivity|].
      assert (In p (Darks.allowed rows)) as Hp by (rewrite E; left; reflexivity).
      apply allowed_iff in Hp. destruct Hp as [t [e [f [Ht [He [Hf [Hc _]]]]]]].
      rewrite (Hnone t e f Ht He Hf) in Hc. discriminate. }
    clear. generalize (Darks.dark_catalog st). intros l.
    induction l as [|d l IH]; simpl; [reflexivity|exact IH].
Qed.

(** A master dark, a raw dark, a light frame and a dark whose name
    spells no exposure. *)
Lemma allowed_darks_of_a_scan_witness :
  let P := Sample.machine [] (Py.Raise Py.OtherError) in
  let roots := [("D:\cal", Darks.Dir []
                             ["MasterDark_2s.xisf"; "dark_1s.fits"; "light_1s.fits";
                              "dark.fits"])] in
  match Darks.scan_darks P roots with
  | Py.Ok st =>
      map (fun d => (Js.path d, Js.type d)) (Darks.dark_catalog st)
      = [("D:\cal\MasterDark_2s.xisf", Js.MASTERDARK);
         ("D:\cal\dark_1s.fits", Js.DARK)]
      /\ Darks._gather_allowed_darks (Darks.dark_tree st) (Darks.dark_catalog st)
         = Darks.dark_catalog st
  | Py.Raise _ => False
  end.
Proof.
  intros P roots.
  pose proof (fun st => allowed_darks_of_a_scan P roots st) as H.
  destruct (Darks.scan_darks P roots) as [st|e] eqn:E.
  - split; [|exact (proj1 (H st eq_refl))].
    vm_compute in E. injection E as <-. reflexivity.
  - vm_compute in E. discriminate.
Defined.

(** ** The label of a group read back *)

Section LabelFacts.
Import Py Scan.

Lemma digits_value_uint (d : Decimal.uint) (acc : N) :
  Num.digits_value acc (NilEmpty.string_of_uint d)
  = match acc with
    | N0 => Pos.of_uint d
    | Npos a => Npos (Pos.of_uint_acc d a)
    end.
Proof.
  revert acc. induction d; intros acc;
    [destruct acc; reflexivity|..];
    cbn [NilEmpty.string_of_uint Num.digits_value]; rewrite IHd;
    (destruct acc as [|a];
     [reflexivity
     |match goal with
      | |- context [(N.pos a * 10 + (Chars.code ?c - 48))%N] =>
          let v := eval vm_compute in (Chars.code c - 48)%N in
          change (Chars.code c - 48)%N with v;
          match v with
          | 0%N => replace (N.pos a * 10 + 0)%N with (N.pos (10 * a)) by lia
          | N.pos ?k =>
              replace (N.pos a * 10 + N.pos k)%N with (N.pos (k + 10 * a)) by lia
          end
      end; reflexivity]).
Qed.

Lemma digits_value_string_of_N (n : N) :
  Num.digits_value 0 (Num.string_of_N n) = n.
Proof.
  unfold Num.string_of_N. rewrite digits_value_uint.
  apply DecimalN.Unsigned.of_to.
Qed.

Lemma digits_value_shift (s : string) (acc : N) :
  Num.digits_value acc s
  = (acc * 10 ^ N.of_nat (String.length s) + Num.digits_value 0 s)%N.
Proof.
  revert acc. induction s as [|c s IH]; intros acc.
  - simpl. lia.
  - cbn [Num.digits_value String.length].
    rewrite IH. rewrite (IH (0 * 10 + (Chars.code c - 48))%N).
    rewrite Nat2N.inj_succ, N.pow_succ_r'. lia.
Qed.

Lemma string_of_uint_digits (d : Decimal.uint) :
  Str.forallb Chars.is_digit (NilEmpty.string_of_uint d) = true.
Proof. induction d; simpl; try reflexivity; exact IHd. Qed.

Lemma string_of_N_digits (n : N) :
  Str.forallb Chars.is_digit (Num.string_of_N n) = true.
Proof. apply string_of_uint_digits. Qed.

Lemma string_of_N_first (n : N) :
  exists c r, Num.string_of_N n = String c r /\ Chars.is_digit c = true.
Proof.
  pose proof (string_of_N_digits n) as H. unfold Num.string_of_N in *.
  destruct n as [|p]; [exists "0"%char, ""; split; reflexivity|].
  pose proof (DecimalPos.Unsigned.to_uint_nonnil p) as Hn.
  simpl N.to_uint in *. destruct (Pos.to_uint p); try contradiction;
    simpl in *; eexists; eexists; (split; [reflexivity|reflexivity]).
Qed.

(** The three digits of a number below a thousand. *)
Lemma pad3_facts (b : N) :
  (b < 1000)%N ->
  String.length (Num.pad3 b) = 3%nat
  /\ Str.forallb Chars.is_digit (Num.pad3 b) = true
  /\ Num.digits_value 0 (Num.pad3 b) = b.
Proof.
  intros Hb.
  assert (forallb
            (fun n =>
               let s := Num.pad3 (N.of_nat n) in
               Nat.eqb (String.length s) 3
               && Str.forallb Chars.is_digit s
               && N.eqb (Num.digits_value 0 s) (N.of_nat n))
            (seq 0 1000) = true) as H by (vm_compute; reflexivity).
  rewrite forallb_forall in H.
  specialize (H (N.to_nat b)). rewrite N2Nat.id in H.
  assert (In (N.to_nat b) (seq 0 1000)) as Hin by (apply in_seq; lia).
  specialize (H Hin). cbv zeta in H.
  apply andb_true_iff in H. destruct H as [H H3].
  apply andb_true_iff in H. destruct H as [H1 H2].
  apply Nat.eqb_eq in H1. apply N.eqb_eq in H3. auto.
Qed.

Lemma string_app_nil_r (s : string) : (s ++ "")%string = s.
Proof. induction s as [|c s IH]; simpl; [reflexivity|rewrite IH; reflexivity]. Qed.

Lemma span_app (p : ascii -> bool) (a b : string) :
  Str.forallb p a = true ->
  match b with String c _ => p c = false | EmptyString => True end ->
  Num.span p (a ++ b) = (a, b).
Proof.
  intros Ha Hb. induction a as [|c a IH]; simpl in *.
  - destruct b as [|c r]; [reflexivity|]. simpl. rewrite Hb. reflexivity.
  - apply andb_true_iff in Ha. destruct Ha as [Hc Ha].
    rewrite Hc, (IH Ha). reflexivity.
Qed.

Lemma before_first_app (p : ascii -> bool) (a : string) (c : ascii) (r : string) :
  Str.forallb (fun x => negb (p x)) a = true -> p c = true ->
  Str.before_first p (a ++ String c r) = a.
Proof.
  intros Ha Hc. induction a as [|x a IH]; simpl in *.
  - rewrite Hc. reflexivity.
  - apply andb_true_iff in Ha. destruct Ha as [Hx Ha].
    apply negb_true_iff in Hx. rewrite Hx, (IH Ha). reflexivity.
Qed.

Lemma str_forallb_app (p : ascii -> bool) (a b : string) :
  Str.forallb p (a ++ b) = Str.forallb p a && Str.forallb p b.
Proof.
  induction a as [|c a IH]; simpl; [reflexivity|].
  rewrite IH, andb_assoc. reflexivity.
Qed.

Lemma str_forallb_weaken (p q : ascii -> bool) (s : string) :
  (forall c, p c = true -> q c = true) ->
  Str.forallb p s = true -> Str.forallb q s = true.
Proof.
  intros Hpq. induction s as [|c s IH]; simpl; [reflexivity|].
  intros H. apply andb_true_iff in H. destruct H as [Hc Hs].
  rewrite (Hpq c Hc), (IH Hs). reflexivity.
Qed.

Lemma forallb_list (p : ascii -> bool) (s : string) :
  Str.forallb p s = List.forallb p (list_ascii_of_string s).
Proof. induction s as [|c s IH]; simpl; [reflexivity|rewrite IH; reflexivity]. Qed.

Lemma lstrip_none (p : ascii -> bool) (s : string) :
  Str.forallb (fun x => negb (p x)) s = true -> Str.lstrip p s = s.
Proof.
  destruct s as [|c s]; simpl; [reflexivity|].
  intros H. apply andb_true_iff in H. destruct H as [Hc _].
  apply negb_true_iff in Hc. rewrite Hc. reflexivity.
Qed.

Lemma strip_none (p : ascii -> bool) (s : string) :
  Str.forallb (fun x => negb (p x)) s = true -> Str.strip p s = s.
Proof.
  intros H. unfold Str.strip, Str.rstrip. rewrite (lstrip_none p s H).
  rewrite lstrip_none.
  - unfold Str.rev. rewrite list_ascii_of_string_of_list_ascii, rev_involutive.
    apply string_of_list_ascii_of_string.
  - unfold Str.rev. rewrite forallb_list, list_ascii_of_string_of_list_ascii.
    rewrite forallb_list in H. rewrite forallb_forall in *.
    intros x Hx. apply H. apply in_rev. exact Hx.
Qed.

Lemma digit_facts (c : ascii) :
  Chars.is_digit c = true ->
  Chars.is_space c = false /\ Ascii.eqb "s" c = false
  /\ c <> "-"%char /\ c <> "+"%char.
Proof.
  destruct c as [[] [] [] [] [] [] [] []]; simpl; intros H;
    try discriminate; repeat split; try reflexivity; discriminate.
Qed.

(** [float] reads the text of a key back as the value of the key. *)
Lemma py_float_fmt3 (k : Z) :
  Num.py_float (Num.fmt3 k) = Some (Num.of_thousandths k).
Proof.
  set (a := Z.abs_N k).
  destruct (pad3_facts (a mod 1000)) as [Hlen [Hdig Hval]];
    [apply N.mod_lt; discriminate|].
  destruct (string_of_N_first (a / 1000)) as [c0 [r0 [E0 Hc0]]].
  pose proof (string_of_N_digits (a / 1000)) as Hip.
  pose proof (digits_value_string_of_N (a / 1000)) as Hipv.
  assert (forall s, Str.forallb Chars.is_digit s = true ->
                    Str.forallb (fun x => negb (Chars.is_space x)) s = true) as Hns.
  { intros s. apply str_forallb_weaken. intros c Hc.
    rewrite (proj1 (digit_facts c Hc)). reflexivity. }
  assert (Str.forallb (fun x => negb (Chars.is_space x)) (Num.fmt3 k) = true) as Hstrip.
  { unfold Num.fmt3. fold a. rewrite !str_forallb_app.
    rewrite (Hns _ Hip), (Hns _ Hdig).
    destruct (k <? 0)%Z; reflexivity. }
  unfold Num.py_float. rewrite (strip_none _ _ Hstrip).
  assert (Num.sign_of (Num.fmt3 k)
          = ((k <? 0)%Z,
             (Num.string_of_N (a / 1000) ++ "." ++ Num.pad3 (a mod 1000))%string))
    as ->.
  { unfold Num.fmt3. fold a. destruct (k <? 0)%Z; [reflexivity|].
    simpl. rewrite E0. simpl.
    destruct (digit_facts c0 Hc0) as [_ [_ [Hm Hp]]].
    destruct c0 as [[] [] [] [] [] [] [] []]; try reflexivity; congruence. }
  rewrite (span_app Chars.is_digit _ ("." ++ Num.pad3 (a mod 1000)) Hip)
    by reflexivity.
  change ("." ++ Num.pad3 (a mod 1000))%string
    with (String "." (Num.pad3 (a mod 1000))).
  cbv iota beta.
  rewrite <- (string_app_nil_r (Num.pad3 (a mod 1000))) at 1.
  rewrite (span_app Chars.is_digit _ "" Hdig) by exact I.
  rewrite Hlen.
  assert ((String.length (Num.string_of_N (a / 1000)) + 3 =? 0)%nat = false) as ->
    by (apply Nat.eqb_neq; lia).
  rewrite digits_value_shift, Hval, Hlen, Hipv.
  unfold Num.of_thousandths. f_equal.
  change (Z.to_pos (10 ^ Z.of_nat 3)) with 1000%positive.
  f_equal.
  change (10 ^ N.of_nat 3)%N with 1000%N.
  pose proof (N.div_mod a 1000 ltac:(discriminate)) as Hdm.
  assert (a / 1000 * 1000 + a mod 1000 = a)%N as -> by lia.
  unfold a. rewrite N2Z.inj_abs_N.
  destruct (Z.ltb_spec k 0); lia.
Qed.

Lemma fmt3_no_s (k : Z) :
  Str.forallb (fun x => negb (Ascii.eqb "s" x)) (Num.fmt3 k) = true.
Proof.
  set (a := Z.abs_N k).
  destruct (pad3_facts (a mod 1000)) as [_ [Hdig _]];
    [apply N.mod_lt; discriminate|].
  pose proof (string_of_N_digits (a / 1000)) as Hip.
  assert (forall s, Str.forallb Chars.is_digit s = true ->
                    Str.forallb (fun x => negb (Ascii.eqb "s" x)) s = true) as Hns.
  { intros s. apply str_forallb_weaken. intros c Hc.
    rewrite (proj1 (proj2 (digit_facts c Hc))). reflexivity. }
  unfold Num.fmt3. fold a. rewrite !str_forallb_app.
  rewrite (Hns _ Hip), (Hns _ Hdig). destruct (k <? 0)%Z; reflexivity.
Qed.

Lemma label_read_back (k : Z) (n : nat) :
  Num.py_float (Str.before_first (Ascii.eqb "s") (group_label k n))
  = Some (Num.of_thousandths k).
Proof.
  unfold group_label.
  change (Num.fmt3 k ++ "s  (" ++ Num.string_of_N (N.of_nat n) ++ " files)")%string
    with (Num.fmt3 k
          ++ String "s" ("  (" ++ Num.string_of_N (N.of_nat n) ++ " files)"))%string.
  rewrite before_first_app; [apply py_float_fmt3|apply fmt3_no_s|reflexivity].
Qed.

End LabelFacts.

(** ** The plan gathered from the rows of a scan *)

Section GatherFacts.
Import Py Scan.
Variable P : platform.

Lemma gather_groups_rows (dir : string) (gs : list group) :
  (forall g, In g gs -> exists k, g_exposure g = Num.of_thousandths k) ->
  gather_groups P dir (map (group_row P) gs)
  = map (fun g =>
           mkGroup (g_exposure g)
             (map (fun p => os_path_join P dir (os_path_basename P p)) (g_files g))
             None) gs.
Proof.
  induction gs as [|g gs IH]; intros Hk; [reflexivity|].
  destruct (Hk g (or_introl eq_refl)) as [k Ek].
  cbn [map gather_groups group_row gi_label gi_children].
  rewrite Ek. cbn [Num.of_thousandths Qnum]. rewrite label_read_back.
  rewrite IH by (intros g' Hg'; apply Hk; right; exact Hg').
  rewrite map_map. reflexivity.
Qed.

(** What the scan keeps beside the plan: the tree shows the plan row for
    row, the exposure of a group is a number of thousandths, and a file
    of a group is an entry of the listing of its directory. *)
Lemma scan_dir_shape (st st' : scan_state) (r : string) :
  scan_dir P st r = Ok st' ->
  (tree st = map (fun j => mkDirItem (dirPath j) true (map (group_row P) (groups j)))
               (plan st)
   /\ forall j g, In j (plan st) -> In g (groups j) ->
        (exists k, g_exposure g = Num.of_thousandths k)
        /\ forall p, In p (g_files g) ->
             exists names fn,
               os_listdir P (dirPath j) = Ok names /\ In fn names
               /\ p = os_path_join P (dirPath j) fn) ->
  tree st' = map (fun j => mkDirItem (dirPath j) true (map (group_row P) (groups j)))
               (plan st')
  /\ forall j g, In j (plan st') -> In g (groups j) ->
       (exists k, g_exposure g = Num.of_thousandths k)
       /\ forall p, In p (g_files g) ->
            exists names fn,
              os_listdir P (dirPath j) = Ok names /\ In fn names
              /\ p = os_path_join P (dirPath j) fn.
Proof.
  intros Hs [Ht Hg]. unfold scan_dir, _dir_image_files in Hs.
  destruct (os_listdir P r) as [names|[|]] eqn:El; try discriminate.
  2: { simpl in Hs. injection Hs as <-. split; assumption. }
  destruct (sorted_str (image_loop P r names)) as [|p0 fl] eqn:Ef.
  { injection Hs as <-. split; assumption. }
  destruct (existsb (String.eqb r) (seen_dirs st)).
  { injection Hs as <-. split; assumption. }
  destruct (_scan_files_meta_threaded P (p0 :: fl)) as [out|e]; [|discriminate].
  pose proof (kept_groups_spec (lookup_meta out) (p0 :: fl)) as Hk.
  destruct (group_dir (lookup_meta out) (p0 :: fl)) as [gs|].
  2: { injection Hs as <-. split; assumption. }
  injection Hs as <-. cbn [plan tree]. simpl in Hk. split.
  - rewrite Ht, map_app. reflexivity.
  - intros j g Hj Hin. apply in_app_or in Hj. destruct Hj as [Hj|[<-|[]]].
    + exact (Hg j g Hj Hin).
    + cbn [groups dirPath] in *. rewrite Hk in Hin.
      apply in_map_iff in Hin. destruct Hin as [k [<- _]]. split.
      * exists k. reflexivity.
      * intros p Hp. cbn [g_files bucket_group] in Hp.
        unfold KDict.bucket in Hp. apply filter_In in Hp. destruct Hp as [Hp _].
        rewrite <- Ef in Hp. apply (proj1 (In_sorted_str _ _)) in Hp.
        apply image_loop_sound in Hp. destruct Hp as [fn [Hfn [-> _]]].
        exists names, fn. auto.
Qed.

Lemma scan_loop_shape (walk : list string) (st st' : scan_state) :
  scan_loop P st walk = Ok st' ->
  (tree st = map (fun j => mkDirItem (dirPath j) true (map (group_row P) (groups j)))
               (plan st)
   /\ forall j g, In j (plan st) -> In g (groups j) ->
        (exists k, g_exposure g = Num.of_thousandths k)
        /\ forall p, In p (g_files g) ->
             exists names fn,
               os_listdir P (dirPath j) = Ok names /\ In fn names
               /\ p = os_path_join P (dirPath j) fn) ->
  tree st' = map (fun j => mkDirItem (dirPath j) true (map (group_row P) (groups j)))
               (plan st')
  /\ forall j g, In j (plan st') -> In g (groups j) ->
       (exists k, g_exposure g = Num.of_thousandths k)
       /\ forall p, In p (g_files g) ->
            exists names fn,
              os_listdir P (dirPath j) = Ok names /\ In fn names
              /\ p = os_path_join P (dirPath j) fn.
Proof.
  revert st. induction walk as [|r more IH]; intros st Hs Hinv; simpl in Hs.
  - injection Hs as <-. exact Hinv.
  - destruct (scan_dir P st r) as [st1|e] eqn:E1; [|discriminate].
    exact (IH st1 Hs (scan_dir_shape st st1 r E1 Hinv)).
Qed.

Lemma gather_rows_of_plan (pl : list job) :
  (forall j g, In j pl -> In g (groups j) ->
     (exists k, g_exposure g = Num.of_thousandths k)
     /\ forall p, In p (g_files g) ->
          os_path_join P (dirPath j) (os_path_basename P p) = p) ->
  _gather_selected_plan P
    (map (fun j => mkDirItem (dirPath j) true (map (group_row P) (groups j))) pl)
  = map (fun j =>
           mkJob (dirPath j)
             (map (fun g => mkGroup (g_exposure g) (g_files g) None) (groups j)))
      pl.
Proof.
  induction pl as [|j pl IH]; intros H; [reflexivity|].
  cbn [map _gather_selected_plan di_checked di_text di_groups].
  rewrite IH by (intros j' g Hj'; apply H; right; exact Hj').
  f_equal. f_equal.
  rewrite gather_groups_rows
    by (intros g Hg; apply (H j g (or_introl eq_refl) Hg)).
  apply map_ext_in. intros g Hg. f_equal.
  rewrite <- (map_id (g_files g)) at 2. apply map_ext_in. intros p Hp.
  apply (H j g (or_introl eq_refl) Hg). exact Hp.
Qed.

End GatherFacts.

(** X17. With every directory left ticked, the plan gathered for a run
    is the plan of the scan with the wanted profiles taken out: the same
    directories in the same order, and in each one the same groups with
    the same exposure, read back from the label of the row, and the same
    files, provided the base name of a listed file joined to its
    directory gives the path of the file again. *)
Theorem gathered_plan_is_the_scanned_plan (P : Py.platform)
    (walk : list string) (st : Scan.scan_state) :
  Scan.scan_flats P walk = Py.Ok st ->
  (forall r names fn,
     In r walk -> Py.os_listdir P r = Py.Ok names -> In fn names ->
     Py.os_path_basename P (Py.os_path_join P r fn) = fn) ->
  Scan._gather_selected_plan P (Scan.tree st)
  = map (fun j =>
           Scan.mkJob (Scan.dirPath j)
             (map (fun g => Scan.mkGroup (Scan.g_exposure g) (Scan.g_files g) None)
                (Scan.groups j)))
      (Scan.plan st).
Proof.
  intros Hs Hbase. unfold Scan.scan_flats in Hs.
  destruct (scan_loop_shape P walk _ st Hs) as [Ht Hg].
  { split; [reflexivity|]. intros j g []. }
  assert (forall j, In j (Scan.plan st) -> In (Scan.dirPath j) walk) as Hw.
  { destruct (scan_loop_rows P _ _ _ Hs) as [_ [_ [_ H]]]; simpl;
      try constructor; try (intros ? []); try reflexivity.
    intros j Hj. destruct (H j Hj) as [[]|Hin]. exact Hin. }
  rewrite Ht. apply gather_rows_of_plan. intros j g Hj Hin.
  destruct (Hg j g Hj Hin) as [Hk Hp]. split; [exact Hk|].
  intros p Hpin. destruct (Hp p Hpin) as [names [fn [Hl [Hfn ->]]]].
  rewrite (Hbase _ _ _ (Hw j Hj) Hl Hfn). reflexivity.
Qed.

(** Flats of 2 s and of 0.5 s in one directory. *)
Lemma gathered_plan_is_the_scanned_plan_witness :
  let names := ["a_2s.fits"; "b_0.5s.fits"; "c_2s.fits"; "d_0.5s.fits";
                "e_2s.fits"; "f_0.5s.fits"] in
  let P := Sample.machine names (Py.Raise Py.OtherError) in
  match Scan.scan_flats P ["D:\flats"] with
  | Py.Ok st =>
      Scan._gather_selected_plan P (Scan.tree st)
      = [Scan.mkJob "D:\flats"
           [Scan.mkGroup (500 # 1000)
              ["D:\flats\b_0.5s.fits"; "D:\flats\d_0.5s.fits"; "D:\flats\f_0.5s.fits"]
              None;
            Scan.mkGroup (2000 # 1000)
              ["D:\flats\a_2s.fits"; "D:\flats\c_2s.fits"; "D:\flats\e_2s.fits"]
              None]]
  | Py.Raise _ => False
  end.
Proof.
  intros names P.
  pose proof (fun st => gathered_plan_is_the_scanned_plan P ["D:\flats"] st) as H.
  destruct (Scan.scan_flats P ["D:\flats"]) as [st|e] eqn:E.
  - rewrite (H st eq_refl).
    + vm_compute in E. injection E as <-. reflexivity.
    + intros r ns fn [<-|[]] Hl Hfn. injection Hl as <-.
      unfold names in Hfn. simpl in Hfn.
      repeat (destruct Hfn as [<-|Hfn]; [reflexivity|]). contradiction.
  - vm_compute in E. discriminate.
Defined.

(** ** The binning on record *)

Section BinningFacts.
Import Py Scan.
Variable P : platform.

Lemma read_meta_binning (path : string) (m : meta) (b : string) :
  read_meta P path = Ok m -> binning m = Some b -> Str.upper b = b.
Proof.
  unfold read_meta, _fits_meta, _xisf_meta, fallback_meta. intros H Hb.
  destruct (existsb _ _).
  - destruct (negb (_HAS_ASTROPY P)).
    { injection H as <-. cbn [binning] in Hb. discriminate Hb. }
    destruct (fits_open P path) as [hdr|e].
    2: { injection H as <-. cbn [binning] in Hb. discriminate Hb. }
    injection H as <-. cbn [binning] in Hb. cbv beta zeta in Hb.
    match type of Hb with
    | option_map _ ?x = _ => destruct x as [v|]
    end; cbn [option_map] in Hb; [|discriminate Hb].
    injection Hb as <-. apply upper_upper.
  - destruct (String.eqb _ ".xisf").
    2: { injection H as <-. cbn [binning] in Hb. discriminate Hb. }
    destruct (_xisf_header_xml P path) as [[|c xml]|];
      try (injection H as <-; cbn [binning] in Hb; discriminate Hb).
    destruct (ET_fromstring P (String c xml)) as [root|e].
    2: { injection H as <-. cbn [binning] in Hb. discriminate Hb. }
    injection H as <-. cbn [binning] in Hb. cbv beta zeta in Hb.
    destruct (pick _ _ _FITS_KEYS_BIN ["BINNING"]) as [v|]; cbn [option_map] in Hb;
      [|discriminate Hb].
    injection Hb as <-. apply upper_upper.
Qed.

(** The wanted profile of a planned group is read from a file. *)
Lemma scan_dir_wants (st st' : scan_state) (r : string) :
  scan_dir P st r = Ok st' ->
  (forall j g, In j (plan st) -> In g (groups j) ->
     exists p m, read_meta P p = Ok m /\ g_want g = Some (want_of m)) ->
  forall j g, In j (plan st') -> In g (groups j) ->
    exists p m, read_meta P p = Ok m /\ g_want g = Some (want_of m).
Proof.
  intros Hs Hg. unfold scan_dir in Hs.
  destruct (_dir_image_files P r) as [[|p0 fl]|e]; try discriminate.
  { injection Hs as <-. exact Hg. }
  destruct (existsb (String.eqb r) (seen_dirs st)).
  { injection Hs as <-. exact Hg. }
  destruct (_scan_files_meta_threaded P (p0 :: fl)) as [out|e] eqn:Eo;
    [|discriminate].
  pose proof (kept_groups_spec (lookup_meta out) (p0 :: fl)) as Hk.
  pose proof (group_dir_sizes (lookup_meta out) (p0 :: fl)) as Hsz.
  destruct (group_dir (lookup_meta out) (p0 :: fl)) as [gs|].
  2: { injection Hs as <-. exact Hg. }
  injection Hs as <-. cbn [plan]. simpl in Hk.
  specialize (Hsz gs).
  intros j g Hj Hin. apply in_app_or in Hj. destruct Hj as [Hj|[<-|[]]].
  - exact (Hg j g Hj Hin).
  - cbn [groups] in Hin. specialize (Hsz g eq_refl Hin). rewrite Hk in Hin.
    apply in_map_iff in Hin. destruct Hin as [k [<- _]].
    cbn [bucket_group g_want g_files] in *.
    destruct (KDict.bucket (file_key (lookup_meta out)) k (p0 :: fl))
      as [|p b] eqn:Eb; [simpl in Hsz; lia|].
    exists p, (lookup_meta out p). split; [|reflexivity].
    apply (scanned_meta_found P (p0 :: fl)); [exact Eo|].
    assert (In p (KDict.bucket (file_key (lookup_meta out)) k (p0 :: fl))) as Hp
      by (rewrite Eb; left; reflexivity).
    unfold KDict.bucket in Hp. apply filter_In in Hp. tauto.
Qed.

Lemma scan_loop_wants (walk : list string) (st st' : scan_state) :
  scan_loop P st walk = Ok st' ->
  (forall j g, In j (plan st) -> In g (groups j) ->
     exists p m, read_meta P p = Ok m /\ g_want g = Some (want_of m)) ->
  forall j g, In j (plan st') -> In g (groups j) ->
    exists p m, read_meta P p = Ok m /\ g_want g = Some (want_of m).
Proof.
  revert st. induction walk as [|r more IH]; intros st Hs Hinv; simpl in Hs.
  - injection Hs as <-. exact Hinv.
  - destruct (scan_dir P st r) as [st1|e] eqn:E1; [|discriminate].
    exact (IH st1 Hs (scan_dir_wants st st1 r E1 Hinv)).
Qed.

End BinningFacts.

(** X18. A binning that [read_meta] gives is in upper case, whichever
    reader it comes from; so is the binning of every entry of the dark
    catalog and of the wanted profile of every planned group. The
    comparison of the two by the script therefore ignores the case in
    which the headers spell the binning. *)
Theorem binning_is_upper_case (P : Py.platform) :
  (forall path m b,
     Py.read_meta P path = Py.Ok m -> Py.binning m = Some b -> Str.upper b = b)
  /\ (forall dark_roots st d b,
        Darks.scan_darks P dark_roots = Py.Ok st ->
        In d (Darks.dark_catalog st) -> Js.binning d = Some b -> Str.upper b = b)
  /\ (forall walk st j g w b,
        Scan.scan_flats P walk = Py.Ok st ->
        In j (Scan.plan st) -> In g (Scan.groups j) ->
        Scan.g_want g = Some w -> Scan.w_binning w = Some b -> Str.upper b = b).
Proof.
  split; [apply read_meta_binning|]. split.
  - intros roots st d b Hs Hd Hb. unfold Darks.scan_darks in Hs.
    destruct roots as [|rt roots].
    { injection Hs as <-. contradiction. }
    destruct (Scan._scan_files_meta_threaded P _) as [out|e] eqn:Eo; [|discriminate].
    injection Hs as <-. cbn [Darks.dark_catalog] in Hd.
    apply catalog_loop_iff in Hd. destruct Hd as [Hin [_ [Ed _]]].
    rewrite Ed in Hb. cbn [Js.binning] in Hb.
    exact (read_meta_binning P (Js.path d) _ b
             (scanned_meta_found P _ out (Js.path d) Eo Hin) Hb).
  - intros walk st j g w b Hs Hj Hg Hw Hb. unfold Scan.scan_flats in Hs.
    destruct (scan_loop_wants P walk _ st Hs) with (j := j) (g := g)
      as [p [m [Hm Ew]]]; try assumption.
    { intros j0 g0 []. }
    rewrite Ew in Hw. injection Hw as <-.
    exact (read_meta_binning P p m b Hm Hb).
Qed.

(** A header that spells the binning [1x1]. *)
Lemma binning_is_upper_case_witness :
  let P := Sample.machine ["a.fits"] (Py.Ok [("EXPTIME", Py.HFloat 2);
                                             ("XBINNING", Py.HStr "1x1")]) in
  Py.read_meta P "D:\flats\a.fits"
  = Py.Ok (Py.mkMeta (Some 2%Q) (Some "1X1") None None None)
  /\ Str.upper "1X1" = "1X1".
Proof.
  intros P. split; [reflexivity|].
  exact (proj1 (binning_is_upper_case P) "D:\flats\a.fits"
           (Py.mkMeta (Some 2%Q) (Some "1X1") None None None) "1X1"
           eq_refl eq_refl).
Defined.

(** ** The text of a key *)

Section KeyText.

Lemma string_of_list_app (a b : list ascii) :
  string_of_list_ascii (a ++ b)
  = (string_of_list_ascii a ++ string_of_list_ascii b)%string.
Proof. induction a as [|c a IH]; simpl; [reflexivity|rewrite IH; reflexivity]. Qed.

Lemma list_of_string_app (a b : string) :
  list_ascii_of_string (a ++ b)
  = list_ascii_of_string a ++ list_ascii_of_string b.
Proof. induction a as [|c a IH]; simpl; [reflexivity|rewrite IH; reflexivity]. Qed.

Lemma rev_app (a b : string) : Str.rev (a ++ b) = (Str.rev b ++ Str.rev a)%string.
Proof.
  unfold Str.rev. rewrite list_of_string_app, rev_app_distr.
  apply string_of_list_app.
Qed.

Lemma rev_rev (s : string) : Str.rev (Str.rev s) = s.
Proof.
  unfold Str.rev. rewrite list_ascii_of_string_of_list_ascii, rev_involutive.
  apply string_of_list_ascii_of_string.
Qed.

Lemma lstrip_app (p : ascii -> bool) (x y : string) :
  Str.lstrip p (x ++ y)
  = if String.eqb (Str.lstrip p x) "" then Str.lstrip p y
    else (Str.lstrip p x ++ y)%string.
Proof.
  induction x as [|c x IH]; simpl; [reflexivity|].
  destruct (p c); [exact IH|reflexivity].
Qed.

Lemma rev_empty (s : string) : String.eqb (Str.rev s) "" = String.eqb s "".
Proof.
  destruct s as [|c s]; [reflexivity|].
  change (String c s) with (String c "" ++ s)%string.
  rewrite rev_app. destruct (Str.rev s); reflexivity.
Qed.

(** Stripping the end of a text in two parts. *)
Lemma rstrip_app (p : ascii -> bool) (a t : string) :
  Str.rstrip p (a ++ t)
  = if String.eqb (Str.rstrip p t) "" then Str.rstrip p a
    else (a ++ Str.rstrip p t)%string.
Proof.
  unfold Str.rstrip. rewrite rev_app, lstrip_app, rev_empty.
  destruct (String.eqb (Str.lstrip p (Str.rev t)) ""); [reflexivity|].
  rewrite rev_app, rev_rev. reflexivity.
Qed.

Lemma rstrip_none (p : ascii -> bool) (s : string) :
  Str.forallb (fun x => negb (p x)) s = true -> Str.rstrip p s = s.
Proof.
  intros H. unfold Str.rstrip. rewrite lstrip_none; [apply rev_rev|].
  unfold Str.rev. rewrite forallb_list, list_ascii_of_string_of_list_ascii.
  rewrite forallb_list in H. rewrite forallb_forall in *.
  intros x Hx. apply H. apply in_rev. exact Hx.
Qed.

(** The digits after the point of a key, for a number below a
    thousand. *)
Lemma frac_facts (b : N) :
  (b < 1000)%N ->
  let frac := Str.rstrip (Ascii.eqb "0") (Num.pad3 b) in
  Str.rstrip (Ascii.eqb "0") (String "." (Num.pad3 b)) = String "." frac
  /\ Str.rstrip (Ascii.eqb ".") (String "." frac)
     = (if String.eqb frac "" then "" else String "." frac)
  /\ Str.forallb Chars.is_digit frac = true
  /\ (String.length frac <= 3)%nat
  /\ (Num.digits_value 0 frac * 10 ^ N.of_nat (3 - String.length frac) = b)%N.
Proof.
  intros Hb.
  assert (List.forallb
            (fun n =>
               let frac := Str.rstrip (Ascii.eqb "0") (Num.pad3 (N.of_nat n)) in
               String.eqb (Str.rstrip (Ascii.eqb "0")
                             (String "." (Num.pad3 (N.of_nat n))))
                 (String "." frac)
               && String.eqb (Str.rstrip (Ascii.eqb ".") (String "." frac))
                    (if String.eqb frac "" then "" else String "." frac)
               && Str.forallb Chars.is_digit frac
               && Nat.leb (String.length frac) 3
               && N.eqb (Num.digits_value 0 frac
                         * 10 ^ N.of_nat (3 - String.length frac))
                    (N.of_nat n))
            (seq 0 1000) = true) as H by (vm_compute; reflexivity).
  rewrite forallb_forall in H.
  specialize (H (N.to_nat b)). rewrite N2Nat.id in H.
  assert (In (N.to_nat b) (seq 0 1000)) as Hin by (apply in_seq; lia).
  specialize (H Hin). cbv zeta in H |- *.
  repeat (apply andb_true_iff in H; destruct H as [H ?]).
  repeat split.
  - apply String.eqb_eq. assumption.
  - apply String.eqb_eq. assumption.
  - assumption.
  - apply Nat.leb_le. assumption.
  - apply N.eqb_eq. assumption.
Qed.

Lemma string_app_inv_head (a x y : string) :
  (a ++ x = a ++ y)%string -> x = y.
Proof. induction a as [|c a IH]; simpl; [auto|]. intros H. injection H as H. auto. Qed.

Lemma string_app_inv_tail (x y t : string) :
  (x ++ t = y ++ t)%string -> x = y.
Proof.
  intros H. apply (f_equal Str.rev) in H. rewrite !rev_app in H.
  apply string_app_inv_head in H. apply (f_equal Str.rev) in H.
  rewrite !rev_rev in H. exact H.
Qed.

Lemma joinPath_inj (a x y : string) : Js.joinPath a x = Js.joinPath a y -> x = y.
Proof.
  unfold Js.joinPath. destruct (String.eqb a ""); [auto|].
  destruct (_ || _).
  - apply string_app_inv_head.
  - intros H. apply string_app_inv_head in H.
    apply string_app_inv_head in H. exact H.
Qed.

(** The text of a key splits into a sign, the digits of the whole
    seconds and the digits after the point. *)
Lemma kexp_text_parts (k : Z) :
  let a := Z.abs_N k in
  let frac := Str.rstrip (Ascii.eqb "0") (Num.pad3 (a mod 1000)) in
  Js.kexp_text k
  = ((if (k <? 0)%Z then "-" else "")
     ++ Num.string_of_N (a / 1000)
     ++ (if String.eqb frac "" then "" else String "." frac))%string.
Proof. reflexivity. Qed.

Lemma py_float_kexp_text (k : Z) :
  exists q, Num.py_float (Js.kexp_text k) = Some q
            /\ (q == Num.of_thousandths k)%Q.
Proof.
  rewrite kexp_text_parts. cbv zeta.
  set (a := Z.abs_N k).
  destruct (frac_facts (a mod 1000)) as [_ [_ [Hdig [Hlen Hval]]]];
    [apply N.mod_lt; discriminate|].
  cbv zeta in Hdig, Hlen, Hval.
  set (frac := Str.rstrip (Ascii.eqb "0") (Num.pad3 (a mod 1000))) in *.
  destruct (string_of_N_first (a / 1000)) as [c0 [r0 [E0 Hc0]]].
  pose proof (string_of_N_digits (a / 1000)) as Hip.
  pose proof (digits_value_string_of_N (a / 1000)) as Hipv.
  pose proof (N.div_mod a 1000 ltac:(discriminate)) as Hdm.
  assert (Z.of_N a = Z.abs k) as Ha by (unfold a; apply N2Z.inj_abs_N).
  assert (forall s, Str.forallb Chars.is_digit s = true ->
                    Str.forallb (fun x => negb (Chars.is_space x)) s = true) as Hns.
  { intros s. apply str_forallb_weaken. intros c Hc.
    rewrite (proj1 (digit_facts c Hc)). reflexivity. }
  set (tail := if String.eqb frac "" then "" else String "." frac).
  assert (Str.forallb (fun x => negb (Chars.is_space x)) tail = true) as Htail.
  { unfold tail. destruct (String.eqb frac ""); [reflexivity|].
    simpl. apply (Hns _ Hdig). }
  assert (Str.forallb (fun x => negb (Chars.is_space x))
            ((if (k <? 0)%Z then "-" else "")
             ++ Num.string_of_N (a / 1000) ++ tail) = true) as Hstrip.
  { rewrite !str_forallb_app. rewrite (Hns _ Hip), Htail.
    destruct (k <? 0)%Z; reflexivity. }
  unfold Num.py_float. rewrite (strip_none _ _ Hstrip).
  assert (Num.sign_of ((if (k <? 0)%Z then "-" else "")
                       ++ Num.string_of_N (a / 1000) ++ tail)
          = ((k <? 0)%Z, (Num.string_of_N (a / 1000) ++ tail)%string)) as ->.
  { destruct (k <? 0)%Z; [reflexivity|].
    simpl. rewrite E0. simpl.
    destruct (digit_facts c0 Hc0) as [_ [_ [Hm Hp]]].
    destruct c0 as [[] [] [] [] [] [] [] []]; try reflexivity; congruence. }
  rewrite (span_app Chars.is_digit _ tail Hip)
    by (unfold tail; destruct (String.eqb frac ""); [exact I|reflexivity]).
  unfold tail. destruct (String.eqb frac "") eqn:Ef.
  - apply String.eqb_eq in Ef. rewrite Ef in Hval. simpl in Hval.
    cbv iota beta. simpl Num.span. cbv iota beta.
    rewrite Nat.add_0_r.
    assert ((String.length (Num.string_of_N (a / 1000)) =? 0)%nat = false) as ->
      by (rewrite E0; reflexivity).
    eexists. split; [reflexivity|].
    simpl Num.digits_value. rewrite Hipv.
    unfold Num.of_thousandths, Qeq. simpl Qnum. simpl Qden.
    destruct (Z.ltb_spec k 0); lia.
  - cbv iota beta.
    pose proof (span_app Chars.is_digit frac "" Hdig I) as Hsp.
    rewrite string_app_nil_r in Hsp. rewrite Hsp.
    assert ((String.length (Num.string_of_N (a / 1000)) + String.length frac =? 0)%nat
            = false) as -> by (rewrite E0; reflexivity).
    eexists. split; [reflexivity|].
    rewrite digits_value_shift, Hipv.
    unfold Num.of_thousandths, Qeq. cbn [Qnum Qden].
    destruct (String.length frac) as [|[|[|[|n]]]] eqn:El; try lia.
    + destruct frac; [discriminate|discriminate].
    + change (Z.pos (Z.to_pos (10 ^ Z.of_nat 1))) with 10%Z.
      change (10 ^ N.of_nat 1)%N with 10%N.
      change (10 ^ N.of_nat (3 - 1))%N with 100%N in Hval.
      destruct (Z.ltb_spec k 0); lia.
    + change (Z.pos (Z.to_pos (10 ^ Z.of_nat 2))) with 100%Z.
      change (10 ^ N.of_nat 2)%N with 100%N.
      change (10 ^ N.of_nat (3 - 2))%N with 10%N in Hval.
      destruct (Z.ltb_spec k 0); lia.
    + change (Z.pos (Z.to_pos (10 ^ Z.of_nat 3))) with 1000%Z.
      change (10 ^ N.of_nat 3)%N with 1000%N.
      change (10 ^ N.of_nat (3 - 3))%N with 1%N in Hval.
      destruct (Z.ltb_spec k 0); lia.
Qed.

Lemma kexp_text_inj (k1 k2 : Z) : Js.kexp_text k1 = Js.kexp_text k2 -> k1 = k2.
Proof.
  intros H.
  destruct (py_float_kexp_text k1) as [q1 [E1 H1]].
  destruct (py_float_kexp_text k2) as [q2 [E2 H2]].
  rewrite H in E1. rewrite E1 in E2. injection E2 as ->.
  rewrite H1 in H2. unfold Num.of_thousandths, Qeq in H2. simpl in H2. lia.
Qed.

End KeyText.

(** X19. [_kexp_py] spells an exposure as the script spells its key: for
    a positive exposure, and for any exposure that does not round to
    zero, it gives the text [kexp] has for the thousandths Python rounds
    the exposure to, without trailing zeros and without a point for
    whole seconds; so on a number of thousandths both give the same
    text. A negative exposure that rounds to zero is the exception: it is
    spelled [-0], a text the script has for no key. *)
Theorem kexp_py_is_kexp_text :
  (forall x, (0 < x)%Q \/ Num.round3 x <> 0%Z ->
     Run._kexp_py x = Js.kexp_text (Num.round3 x))
  /\ (forall k, Run._kexp_py (Num.of_thousandths k)
                = Js.kexp_text (Js.kexp (Num.of_thousandths k)))
  /\ (forall x, (x < 0)%Q -> Num.round3 x = 0%Z -> Run._kexp_py x = "-0")
  /\ (forall k, Js.kexp_text k <> "-0").
Proof.
  assert (forall k, Str.rstrip (Ascii.eqb ".")
                      (Str.rstrip (Ascii.eqb "0") (Num.fmt3 k)) = Js.kexp_text k) as H.
  { intros k. rewrite kexp_text_parts. cbv zeta. unfold Num.fmt3.
    set (a := Z.abs_N k).
    destruct (frac_facts (a mod 1000)) as [H0 [Hdot _]];
      [apply N.mod_lt; discriminate|].
    cbv zeta in H0, Hdot.
    set (frac := Str.rstrip (Ascii.eqb "0") (Num.pad3 (a mod 1000))) in *.
    set (sg := if (k <? 0)%Z then "-" else "").
    pose proof (string_of_N_digits (a / 1000)) as Hip.
    destruct (string_of_N_first (a / 1000)) as [c0 [r0 [E0 Hc0]]].
    change (sg ++ Num.string_of_N (a / 1000) ++ "." ++ Num.pad3 (a mod 1000))%string
      with (sg ++ Num.string_of_N (a / 1000)
            ++ String "." (Num.pad3 (a mod 1000)))%string.
    rewrite <- !string_app_assoc.
    rewrite rstrip_app, H0. cbn [String.eqb].
    rewrite rstrip_app, Hdot.
    destruct (String.eqb frac "") eqn:Ef.
    - cbn [String.eqb]. rewrite rstrip_app.
      assert (Str.rstrip (Ascii.eqb ".") (Num.string_of_N (a / 1000))
              = Num.string_of_N (a / 1000)) as ->.
      { apply rstrip_none. revert Hip. apply str_forallb_weaken.
        intros c Hc. destruct c as [[] [] [] [] [] [] [] []];
          try discriminate; reflexivity. }
      rewrite E0. cbn [String.eqb]. rewrite string_app_nil_r. reflexivity.
    - cbn [String.eqb]. reflexivity. }
  split; [|split; [|split]].
  - intros x Hx. unfold Run._kexp_py, Run.fmt_round3. cbv zeta.
    assert (((Num.round3 x =? 0)%Z && Num.Qlt_bool x 0)%bool = false) as ->.
    { destruct Hx as [Hx|Hx].
      - apply andb_false_iff. right. apply Qlt_bool_false.
        apply Qlt_le_weak. exact Hx.
      - apply andb_false_iff. left. apply Z.eqb_neq. exact Hx. }
    apply H.
  - intros k. unfold Run._kexp_py, Run.fmt_round3. cbv zeta.
    rewrite kexp_of_thousandths, round3_of_thousandths.
    assert (((k =? 0)%Z && Num.Qlt_bool (Num.of_thousandths k) 0)%bool = false)
      as ->.
    { destruct (Z.eqb_spec k 0) as [->|Hne]; reflexivity. }
    apply H.
  - intros x Hx Hr. unfold Run._kexp_py, Run.fmt_round3. cbv zeta.
    rewrite Hr. apply Qlt_bool_iff in Hx. rewrite Hx. reflexivity.
  - intros k Hk. destruct (py_float_kexp_text k) as [q [Hq He]].
    rewrite Hk in Hq. vm_compute in Hq. injection Hq as <-.
    unfold Qeq, Num.of_thousandths in He. simpl in He.
    assert (k = 0%Z) as -> by lia. vm_compute in Hk. discriminate Hk.
Qed.

(** A tenth of a thousandth below zero, and two seconds and a half. *)
Lemma kexp_py_is_kexp_text_witness :
  Run._kexp_py (-1 # 10000) = "-0"
  /\ Run._kexp_py (5 # 2) = "2.5"
  /\ Run._kexp_py (5 # 2) = Js.kexp_text (Num.round3 (5 # 2)).
Proof.
  split; [|split; [reflexivity|]].
  - apply (proj1 (proj2 (proj2 kexp_py_is_kexp_text))); reflexivity.
  - apply (proj1 kexp_py_is_kexp_text). left. reflexivity.
Defined.

(** X20. The text of a key, read as a number, is the value of the key;
    so two keys never share a text, the master the script builds for an
    exposure has a file of its own in the cache directory, and a master
    dark never has the file of a master dark-flat. *)
Theorem one_master_file_per_key (cacheDir : string) :
  (forall k, exists q, Num.py_float (Js.kexp_text k) = Some q
                       /\ (q == Num.of_thousandths k)%Q)
  /\ (forall k1 k2, Js.kexp_text k1 = Js.kexp_text k2 -> k1 = k2)
  /\ (forall k1 k2,
        Js.built_dark cacheDir k1 = Js.built_dark cacheDir k2 -> k1 = k2)
  /\ (forall k1 k2,
        Js.built_darkflat cacheDir k1 = Js.built_darkflat cacheDir k2 -> k1 = k2)
  /\ (forall k1 k2, Js.built_dark cacheDir k1 <> Js.built_darkflat cacheDir k2).
Proof.
  split; [apply py_float_kexp_text|]. split; [apply kexp_text_inj|].
  split; [|split].
  - intros k1 k2 H. unfold Js.built_dark in H. apply joinPath_inj in H.
    apply (string_app_inv_head "MasterDark_") in H.
    apply string_app_inv_tail in H. apply kexp_text_inj. exact H.
  - intros k1 k2 H. unfold Js.built_darkflat in H. apply joinPath_inj in H.
    apply (string_app_inv_head "MasterDarkFlat_") in H.
    apply string_app_inv_tail in H. apply kexp_text_inj. exact H.
  - intros k1 k2 H. unfold Js.built_dark, Js.built_darkflat in H.
    apply joinPath_inj in H. simpl in H. discriminate.
Qed.

(** The keys of 2 s and of 0.5 s. *)
Lemma one_master_file_per_key_witness :
  Js.built_dark "D:\flats\_DarkMasters" 2000 = "D:\flats\_DarkMasters\MasterDark_2s.xisf"
  /\ Js.built_dark "D:\flats\_DarkMasters" 500 = "D:\flats\_DarkMasters\MasterDark_0.5s.xisf"
  /\ (Js.built_dark "D:\flats\_DarkMasters" 2000
      = Js.built_dark "D:\flats\_DarkMasters" 2000 -> 2000%Z = 2000%Z).
Proof.
  split; [reflexivity|]. split; [reflexivity|].
  exact (proj1 (proj2 (proj2 (one_master_file_per_key "D:\flats\_DarkMasters")))
           2000%Z 2000%Z).
Defined.

(** ** The masters the script writes, seen by the scan *)

Section MasterNames.
Import Py Scan.

Lemma kexp_text_one_line (k : Z) :
  Str.forallb Chars.not_newline (Js.kexp_text k) = true.
Proof.
  rewrite kexp_text_parts. cbv zeta.
  destruct (frac_facts (Z.abs_N k mod 1000)) as [_ [_ [Hdig _]]];
    [apply N.mod_lt; discriminate|].
  cbv zeta in Hdig.
  assert (forall s, Str.forallb Chars.is_digit s = true ->
                    Str.forallb Chars.not_newline s = true) as Hn.
  { intros s. apply str_forallb_weaken. intros c Hc.
    destruct c as [[] [] [] [] [] [] [] []]; try discriminate; reflexivity. }
  rewrite !str_forallb_app.
  rewrite (Hn _ (string_of_N_digits _)).
  destruct (String.eqb _ ""); [|simpl; rewrite (Hn _ Hdig)];
    destruct (k <? 0)%Z; reflexivity.
Qed.

Lemma image_loop_app (P : platform) (dir_path : string) (a b : list string) :
  image_loop P dir_path (a ++ b)
  = image_loop P dir_path a ++ image_loop P dir_path b.
Proof.
  induction a as [|fn a IH]; [reflexivity|].
  rewrite <- app_comm_cons, !image_loop_cons.
  destruct (negb _); [exact IH|].
  destruct (negb _); [exact IH|].
  destruct (Re.match_ MASTER_RE fn); [exact IH|].
  rewrite IH. reflexivity.
Qed.

End MasterNames.

(** X21. The name the script gives a master flat is one the scan takes
    for a master, whatever the exposure, as long as the date and the
    filter guessed for it are on one line; so a master flat written into
    a flat directory is passed over wherever it stands in the listing,
    and the candidates of the directory are those of the listing without
    it. *)
Theorem written_masters_are_passed_over (P : Py.platform)
    (dateStr filt : string) (exp : Q) :
  Str.forallb Chars.not_newline dateStr = true ->
  Str.forallb Chars.not_newline filt = true ->
  Re.match_ Py.MASTER_RE (Run.masterName dateStr filt exp) <> None
  /\ forall dir_path pre post,
       Py.os_listdir P dir_path
       = Py.Ok (pre ++ Run.masterName dateStr filt exp :: post) ->
       Scan._dir_image_files P dir_path
       = Py.Ok (Scan.sorted_str (Scan.image_loop P dir_path (pre ++ post))).
Proof.
  intros Hd Hf.
  assert (Re.match_ Py.MASTER_RE (Run.masterName dateStr filt exp) <> None) as Hm.
  { apply master_re_matches.
    exists "MasterFlat_",
      (dateStr ++ "_" ++ filt ++ "_" ++ Js.kexp_text (Js.kexp exp) ++ "s")%string,
      ".xisf".
    split; [|split; [reflexivity|split; [reflexivity|]]].
    - unfold Run.masterName. rewrite !string_app_assoc. reflexivity.
    - rewrite !str_forallb_app. rewrite Hd, Hf, kexp_text_one_line. reflexivity. }
  split; [exact Hm|].
  intros dir_path pre post Hl. unfold Scan._dir_image_files. rewrite Hl.
  f_equal. f_equal. rewrite !image_loop_app. f_equal.
  rewrite image_loop_cons.
  destruct (negb _); [reflexivity|]. destruct (negb _); [reflexivity|].
  destruct (Re.match_ Py.MASTER_RE (Run.masterName dateStr filt exp));
    [reflexivity|contradiction].
Qed.

(** The master of the 2 s flats of a night, listed between two flats. *)
Lemma written_masters_are_passed_over_witness :
  let P := Sample.machine
             ["a_2s.fits"; "MasterFlat_2024-03-01_L_2s.xisf"; "b_2s.fits"]
             (Py.Raise Py.OtherError) in
  Run.masterName "2024-03-01" "L" 2 = "MasterFlat_2024-03-01_L_2s.xisf"
  /\ Scan._dir_image_files P "D:\flats"
     = Py.Ok (Scan.sorted_str
                (Scan.image_loop P "D:\flats" (["a_2s.fits"] ++ ["b_2s.fits"]))).
Proof.
  intros P. split; [reflexivity|].
  apply (proj2 (written_masters_are_passed_over P "2024-03-01" "L" 2
                  eq_refl eq_refl) "D:\flats" ["a_2s.fits"] ["b_2s.fits"]).
  reflexivity.
Defined.

(** ** Numbers in quotes, and the size of an XISF header *)

Section CoerceFacts.
Import Py.

Lemma drop_app_length (a b : string) : Str.drop (String.length a) (a ++ b) = b.
Proof. induction a as [|c a IH]; simpl; [destruct b; reflexivity|exact IH]. Qed.

Lemma str_length_app (a b : string) :
  String.length (a ++ b) = (String.length a + String.length b)%nat.
Proof. induction a as [|c a IH]; simpl; [reflexivity|rewrite IH; reflexivity]. Qed.

Lemma endswith_app (a p : string) : Str.endswith p (a ++ p) = true.
Proof.
  unfold Str.endswith. rewrite str_length_app.
  replace (String.length a + String.length p - String.length p)%nat
    with (String.length a) by lia.
  rewrite drop_app_length, String.eqb_refl.
  rewrite andb_true_r. apply Nat.leb_le. lia.
Qed.

Lemma take_drop (n : nat) (s : string) : (Str.take n s ++ Str.drop n s)%string = s.
Proof.
  revert s. induction n as [|n IH]; intros [|c s]; simpl; try reflexivity.
  rewrite IH. reflexivity.
Qed.

Lemma endswith_split (p s : string) :
  Str.endswith p s = true -> exists a, s = (a ++ p)%string.
Proof.
  unfold Str.endswith. intros H. apply andb_true_iff in H. destruct H as [_ H].
  apply String.eqb_eq in H.
  exists (Str.take (String.length s - String.length p) s).
  pose proof (take_drop (String.length s - String.length p) s) as Htd.
  rewrite H in Htd. symmetry. exact Htd.
Qed.

Lemma strip_quoted (s : string) :
  Str.forallb (fun c => negb (Ascii.eqb "'" c)) s = true ->
  Str.strip (Ascii.eqb "'") (String "'" (s ++ "'")) = s.
Proof.
  intros H. unfold Str.strip.
  change (Str.lstrip (Ascii.eqb "'") (String "'" (s ++ "'")))
    with (Str.lstrip (Ascii.eqb "'") (s ++ "'")).
  rewrite lstrip_app, (lstrip_none _ _ H).
  destruct s as [|c s]; [reflexivity|].
  cbn [String.eqb]. rewrite rstrip_app.
  change (Str.rstrip (Ascii.eqb "'") "'") with "". cbn [String.eqb].
  apply rstrip_none. exact H.
Qed.

Lemma py_float_quote (s : string) : Num.py_float (String "'" s) = None.
Proof.
  unfold Num.py_float, Str.strip.
  change (Str.lstrip Chars.is_space (String "'" s)) with (String "'" s).
  change (String "'" s) with (String "'" "" ++ s)%string.
  rewrite rstrip_app.
  assert (exists r, (if String.eqb (Str.rstrip Chars.is_space s) ""
                     then Str.rstrip Chars.is_space (String "'" "")
                     else (String "'" "" ++ Str.rstrip Chars.is_space s)%string)
                    = String "'" r) as [r ->].
  { destruct (String.eqb _ ""); eexists; reflexivity. }
  reflexivity.
Qed.

End CoerceFacts.

(** X22. [_coerce_float] reads a number between two single quotes as the
    number, while a text that starts with a quote and does not end with
    one is no number; a truth value counts as 1 or 0, and a whole number
    as itself. *)
Theorem quoted_numbers (s : string) :
  Str.forallb (fun c => negb (Ascii.eqb "'" c)) s = true ->
  Py._coerce_float (Some (Py.HStr ("'" ++ s ++ "'"))) = Num.py_float s
  /\ (s <> "" -> Py._coerce_float (Some (Py.HStr ("'" ++ s))) = None)
  /\ (forall z, Py._coerce_float (Some (Py.HInt z)) = Some (inject_Z z))
  /\ Py._coerce_float (Some (Py.HBool true)) = Some 1%Q.
Proof.
  intros H. split; [|split; [|split; [reflexivity|reflexivity]]].
  - unfold Py._coerce_float.
    change ("'" ++ s ++ "'")%string with (String "'" (s ++ "'")).
    assert (Str.endswith "'" (String "'" (s ++ "'")) = true) as ->
      by (apply (endswith_app (String "'" s) "'")).
    change (Str.startswith "'" (String "'" (s ++ "'"))) with (String.prefix "" (s ++ "'")).
    assert (String.prefix "" (s ++ "'") = true) as ->
      by (destruct (s ++ "'")%string; reflexivity).
    cbn [andb]. rewrite (strip_quoted s H). reflexivity.
  - intros Hne. unfold Py._coerce_float.
    change ("'" ++ s)%string with (String "'" s).
    assert (Str.endswith "'" (String "'" s) = false) as ->.
    { destruct (Str.endswith "'" (String "'" s)) eqn:E; [|reflexivity].
      apply endswith_split in E. destruct E as [[|c a] E].
      - simpl in E. injection E as E. contradiction.
      - simpl in E. injection E as _ E. rewrite E, str_forallb_app in H.
        apply andb_true_iff in H. destruct H as [_ H]. simpl in H. discriminate. }
    rewrite andb_false_r. apply py_float_quote.
Qed.

(** The value ['30.0'] of a header card. *)
Lemma quoted_numbers_witness :
  Py._coerce_float (Some (Py.HStr "'30.0'")) = Some (300 # 10)%Q.
Proof.
  exact (proj1 (quoted_numbers "30.0" eq_refl)).
Defined.

Section HeaderFacts.
Import Py.
Variable P : platform.

Lemma header_loop_found (f : stream) (buf0 xml : string) :
  header_loop P buf0 f = Some xml ->
  exists n m,
    (0 < n)%nat
    /\ (N.of_nat (String.length (buf0 ++ Run.first_chunks n f)) <= MAX_HEADER_BYTES)%N
    /\ Re.search _XISF_CLOSE_RE (decode_utf8 P (buf0 ++ Run.first_chunks n f)) = Some m
    /\ xml = Str.take (Re.m_end m) (decode_utf8 P (buf0 ++ Run.first_chunks n f))
    /\ forall n', (0 < n' < n)%nat ->
         Re.search _XISF_CLOSE_RE (decode_utf8 P (buf0 ++ Run.first_chunks n' f))
         = None.
Proof.
  revert buf0. induction f as [| |chunk more IH]; intros buf0 H;
    try discriminate.
  cbn [header_loop] in H.
  destruct (String.eqb chunk ""); [discriminate|].
  destruct (N.ltb_spec MAX_HEADER_BYTES (N.of_nat (String.length (buf0 ++ chunk))))
    as [Hbig|Hok]; [discriminate|].
  destruct (Re.search _XISF_CLOSE_RE (decode_utf8 P (buf0 ++ chunk))) as [m|] eqn:Es.
  - injection H as <-. exists 1%nat, m.
    assert (Run.first_chunks 1 (Chunk chunk more) = chunk) as ->
      by (simpl; apply string_app_nil_r).
    repeat split; try assumption; try lia.
  - destruct (IH _ H) as [n [m [Hn [Hlen [Hm [Hx Hfirst]]]]]].
    rewrite string_app_assoc in Hlen, Hm, Hx.
    exists (S n), m. cbn [Run.first_chunks].
    repeat split; try assumption; try lia.
    intros [|n'] Hn'; [lia|]. cbn [Run.first_chunks].
    destruct n' as [|n'].
    + simpl. rewrite string_app_nil_r. exact Es.
    + rewrite <- string_app_assoc. apply Hfirst. lia.
Qed.

End HeaderFacts.

(** X23. An XISF header that [_xisf_header_xml] returns was found in
    what the first reads of the file give together, a buffer of at most
    [MAX_HEADER_BYTES] bytes: it is the decoded text of that buffer up to
    the end of the first closing tag, and no shorter run of reads holds a
    closing tag. A file that cannot be read, or that has no byte, gives
    no header. *)
Theorem header_within_the_limit (P : Py.platform) (path xml : string) :
  Py._xisf_header_xml P path = Some xml ->
  exists n m,
    (N.of_nat (String.length (Run.first_chunks n (Py.open_rb P path)))
     <= Py.MAX_HEADER_BYTES)%N
    /\ Re.search Py._XISF_CLOSE_RE
         (Py.decode_utf8 P (Run.first_chunks n (Py.open_rb P path))) = Some m
    /\ xml = Str.take (Re.m_end m)
               (Py.decode_utf8 P (Run.first_chunks n (Py.open_rb P path)))
    /\ (forall n', (0 < n' < n)%nat ->
          Re.search Py._XISF_CLOSE_RE
            (Py.decode_utf8 P (Run.first_chunks n' (Py.open_rb P path))) = None)
    /\ Py.open_rb P path <> Py.Eof /\ Py.open_rb P path <> Py.Broken.
Proof.
  unfold Py._xisf_header_xml. intros H.
  destruct (header_loop_found P _ _ _ H) as [n [m [_ [Hlen [Hm [Hx Hfirst]]]]]].
  exists n, m. simpl in Hlen, Hm, Hx, Hfirst.
  repeat split; try assumption.
  - intros E. rewrite E in H. discriminate.
  - intros E. rewrite E in H. discriminate.
Qed.

(** A header that ends in the second piece of the file. *)
Lemma header_within_the_limit_witness :
  let P := Py.mkPlatform (fun p => p) (fun d f => (d ++ "/" ++ f)%string)
             (fun _ => true) (fun _ => Py.Ok []) Scan.splitext_ext (fun _ => "")
             false (fun _ => Py.Raise Py.OtherError)
             (fun _ => Py.Chunk "<xisf><Image/>" (Py.Chunk "</xisf>data" Py.Eof))
             (fun b => b) (fun _ => Py.Raise Py.OtherError) in
  Py._xisf_header_xml P "a.xisf" = Some "<xisf><Image/></xisf>"
  /\ exists n m,
       (N.of_nat (String.length (Run.first_chunks n (Py.open_rb P "a.xisf")))
        <= Py.MAX_HEADER_BYTES)%N
       /\ Re.search Py._XISF_CLOSE_RE
            (Py.decode_utf8 P (Run.first_chunks n (Py.open_rb P "a.xisf"))) = Some m
       /\ "<xisf><Image/></xisf>"
          = Str.take (Re.m_end m)
              (Py.decode_utf8 P (Run.first_chunks n (Py.open_rb P "a.xisf")))
       /\ (forall n', (0 < n' < n)%nat ->
             Re.search Py._XISF_CLOSE_RE
               (Py.decode_utf8 P (Run.first_chunks n' (Py.open_rb P "a.xisf"))) = None)
       /\ Py.open_rb P "a.xisf" <> Py.Eof /\ Py.open_rb P "a.xisf" <> Py.Broken.
Proof.
  intros P. split; [reflexivity|].
  apply (header_within_the_limit P "a.xisf" "<xisf><Image/></xisf>").
  reflexivity.
Defined.

(** ** When no dark is found *)

Section NoDark.
Import KDict Js.

Lemma sort_by_dist_nil (exp : Q) (l : list cand) :
  sort_by_dist exp l = [] -> l = [].
Proof.
  intros E. destruct (sort_by_dist_fold exp l [] I) as [_ Hin].
  fold (sort_by_dist exp l) in Hin. rewrite E in Hin.
  destruct l as [|c l]; [reflexivity|].
  destruct (proj2 (Hin c) (or_intror (or_introl eq_refl))).
Qed.

Lemma groupByExp_none (cats : list dark) (t : dark_type) :
  (forall c, In c cats -> type c <> t) -> groupByExp cats t = [].
Proof.
  intros H. destruct (groupByExp cats t) as [|[k b] rest] eqn:E; [reflexivity|].
  assert (In k (map fst (groupByExp cats t))) as Hk
    by (rewrite E; left; reflexivity).
  apply In_groupByExp_keys in Hk. destruct Hk as [c [Hc [Ht _]]].
  destruct (H c Hc Ht).
Qed.

Lemma groupByExp_some (cats : list dark) (t : dark_type) (c : dark) :
  In c cats -> type c = t -> groupByExp cats t <> [].
Proof.
  intros Hc Ht E.
  assert (In c (flat_map snd (groupByExp cats t))) as Hin
    by (apply In_flat_groupByExp; auto).
  rewrite E in Hin. exact Hin.
Qed.

End NoDark.

(** X24. [pickDarkFor] finds no dark, and returns null, exactly when
    the catalog has no entry of any type at the key of the exposure and
    either the nearest exposure is not allowed or the catalog has neither
    a master dark nor a raw dark at all: dark-flats of another exposure
    are never used. The world is then as it was. *)
Theorem no_dark_is_found
    (II_ENUM : Js.enum_table) (new_ImageIntegration : Js.obj)
    (executeGlobal : Js.world -> Js.obj -> bool)
    (saveXISF : Js.world -> string -> bool)
    (allow : bool) (exp : Q) (want : Scan.want) (cacheDir : string)
    (cats : list Js.dark) (rej : option Js.rej_cfg) (hintsCal : string)
    (m : Js.match_cfg) (w : Js.world) :
  let k := Js.kexp exp in
  let r := Js.pickDarkFor II_ENUM new_ImageIntegration executeGlobal saveXISF
             allow exp want cacheDir cats rej hintsCal m w in
  (fst r = Js.Ret None
   <-> (Js.entries_at cats Js.MASTERDARKFLAT k = []
        /\ Js.entries_at cats Js.DARKFLAT k = []
        /\ Js.entries_at cats Js.MASTERDARK k = []
        /\ Js.entries_at cats Js.DARK k = [])
       /\ (allow = false
           \/ forall c, In c cats ->
                Js.type c <> Js.MASTERDARK /\ Js.type c <> Js.DARK))
  /\ (fst r = Js.Ret None -> snd r = w).
Proof.
  intros k r. unfold r.
  rewrite (pickDarkFor_tiers II_ENUM new_ImageIntegration executeGlobal saveXISF).
  cbv zeta. fold k.
  assert (forall (A : Type) (mm : Js.M A) (b : Js.selection),
            fst (Js.bind mm (fun _ => Js.ret (Some b)) w) <> Js.Ret None) as Hb.
  { intros A mm b. unfold Js.bind. destruct (mm w) as [[a|msg] w']; simpl;
      discriminate. }
  destruct (Js.entries_at cats Js.MASTERDARKFLAT k) as [|c1 l1].
  2: { split; [split; [discriminate|intros [[H _] _]; discriminate]|discriminate]. }
  destruct (Js.entries_at cats Js.DARKFLAT k) as [|c2 l2].
  2: { split; [split|]; try (intros H; destruct (Hb _ _ _ H)).
       intros [[_ [H _]] _]. discriminate. }
  destruct (Js.entries_at cats Js.MASTERDARK k) as [|c3 l3].
  2: { split; [split; [discriminate|intros [[_ [_ [H _]]] _]; discriminate]
              |discriminate]. }
  destruct (Js.entries_at cats Js.DARK k) as [|c4 l4].
  2: { split; [split|]; try (intros H; destruct (Hb _ _ _ H)).
       intros [[_ [_ [_ H]]] _]. discriminate. }
  destruct allow.
  2: { split; [split; [intros _; auto|reflexivity]|reflexivity]. }
  destruct (existsb (fun c => Js.dark_type_eqb (Js.type c) Js.MASTERDARK
                              || Js.dark_type_eqb (Js.type c) Js.DARK) cats) eqn:Ex.
  - apply existsb_exists in Ex. destruct Ex as [c [Hc Ht]].
    assert (fst (Js.bind
                   (Js.build_all II_ENUM new_ImageIntegration executeGlobal
                      saveXISF cacheDir hintsCal rej (Js.groupByExp cats Js.DARK))
                   (fun built =>
                      match Js.sort_by_dist exp
                              (map (fun c0 => (Js.path c0, Js.exposure c0))
                                 (flat_map snd (Js.groupByExp cats Js.MASTERDARK))
                               ++ built) with
                      | [] => Js.ret None
                      | best3 :: _ =>
                          Js.ret (Some (Js.mkSel (fst best3) true
                                          "MasterDark(nearest+optimize)"))
                      end) w) <> Js.Ret None) as Hne.
    { unfold Js.bind.
      destruct (Js.build_all II_ENUM new_ImageIntegration executeGlobal saveXISF
                  cacheDir hintsCal rej (Js.groupByExp cats Js.DARK) w)
        as [[built|msg] w'] eqn:Eb; [|simpl; discriminate].
      apply build_all_ret in Eb.
      destruct (Js.sort_by_dist exp _) as [|best3 rest] eqn:Es;
        [|simpl; discriminate].
      apply sort_by_dist_nil in Es. apply app_eq_nil in Es.
      destruct Es as [E1 E2]. exfalso.
      apply orb_true_iff in Ht. destruct Ht as [Ht|Ht];
        apply dark_type_eqb_eq in Ht.
      - apply map_eq_nil in E1.
        assert (In c (flat_map snd (Js.groupByExp cats Js.MASTERDARK))) as Hin
          by (apply In_flat_groupByExp; auto).
        rewrite E1 in Hin. exact Hin.
      - rewrite Eb in E2. apply map_eq_nil in E2.
        exact (groupByExp_some cats Js.DARK c Hc Ht E2). }
    split; [split|]; try (intros H; destruct (Hne H)).
    intros [_ [H|H]]; [discriminate|].
    destruct (H c Hc) as [H1 H2].
    apply orb_true_iff in Ht. destruct Ht as [Ht|Ht];
      apply dark_type_eqb_eq in Ht; contradiction.
  - assert (forall c, In c cats ->
              Js.type c <> Js.MASTERDARK /\ Js.type c <> Js.DARK) as Hnone.
    { intros c Hc.
      assert (Js.dark_type_eqb (Js.type c) Js.MASTERDARK
              || Js.dark_type_eqb (Js.type c) Js.DARK = false) as Hf.
      { destruct (Js.dark_type_eqb (Js.type c) Js.MASTERDARK
                  || Js.dark_type_eqb (Js.type c) Js.DARK) eqn:E; [|reflexivity].
        assert (existsb (fun c => Js.dark_type_eqb (Js.type c) Js.MASTERDARK
                                  || Js.dark_type_eqb (Js.type c) Js.DARK) cats
                = true) as Ht
          by (apply existsb_exists; exists c; auto).
        congruence. }
      apply orb_false_iff in Hf. destruct Hf as [H1 H2].
      split; intros Ht; apply dark_type_eqb_eq in Ht; congruence. }
    rewrite (groupByExp_none cats Js.DARK) by (intros c Hc; apply Hnone; exact Hc).
    rewrite (groupByExp_none cats Js.MASTERDARK)
      by (intros c Hc; apply Hnone; exact Hc).
    split; [split; [intros _; auto|reflexivity]|reflexivity].
Qed.

(** Dark-flats of 1 s only, and flats of 2 s. *)
Lemma no_dark_is_found_witness :
  let d p := Js.mkDark p Js.DARKFLAT 1 None None None None in
  Js.pickDarkFor Sample.enum Sample.fresh Sample.always Sample.saves
    true 2 (Js.run_want None) "cache" [d "a"; d "b"; d "c"] None ""
    Js.shipped_match Sample.empty_world
  = (Js.Ret None, Sample.empty_world).
Proof.
  intros d.
  pose proof (no_dark_is_found Sample.enum Sample.fresh Sample.always Sample.saves
                true 2 (Js.run_want None) "cache" [d "a"; d "b"; d "c"] None ""
                Js.shipped_match Sample.empty_world) as H.
  cbv zeta in H. destruct H as [H1 H2].
  assert (fst (Js.pickDarkFor Sample.enum Sample.fresh Sample.always Sample.saves
                 true 2 (Js.run_want None) "cache" [d "a"; d "b"; d "c"] None ""
                 Js.shipped_match Sample.empty_world) = Js.Ret None) as E.
  { apply H1. split; [repeat split; reflexivity|]. right.
    intros c [<-|[<-|[<-|[]]]]; split; discriminate. }
  specialize (H2 E).
  destruct (Js.pickDarkFor _ _ _ _ _ _ _ _ _ _ _ _ _) as [o w'].
  simpl in E, H2. congruence.
Defined.

(** ** The ticks of the two trees *)

Section TickFacts.
Import Py Scan Darks.

Lemma allowed_set_all_false (rows : list type_item) :
  allowed (Run._set_all_darks false rows) = [].
Proof.
  unfold allowed, Run._set_all_darks.
  induction rows as [|t rows IH]; [reflexivity|].
  cbn [map flat_map ti_exps]. rewrite IH, app_nil_r.
  induction (ti_exps t) as [|e es IHe]; [reflexivity|].
  cbn [map flat_map ei_files]. rewrite IHe, app_nil_r.
  induction (ei_files e) as [|f fs IHf]; [reflexivity|exact IHf].
Qed.

Lemma set_all_darks_twice (b b' : bool) (rows : list type_item) :
  Run._set_all_darks b (Run._set_all_darks b' rows) = Run._set_all_darks b rows.
Proof.
  unfold Run._set_all_darks. rewrite map_map. apply map_ext. intros t.
  cbn [ti_text ti_exps]. f_equal. rewrite map_map. apply map_ext. intros e.
  cbn [ei_text ei_files]. f_equal. rewrite map_map. reflexivity.
Qed.

Lemma set_all_darks_ticked (rows : list type_item) :
  (forall t e f, In t rows -> In e (ti_exps t) -> In f (ei_files e) ->
     fi_checked f = true) ->
  Run._set_all_darks true rows = rows.
Proof.
  intros H. unfold Run._set_all_darks.
  rewrite <- (map_id rows) at 2. apply map_ext_in. intros [tt es] Ht.
  cbn [ti_text ti_exps]. f_equal.
  rewrite <- (map_id es) at 2. apply map_ext_in. intros [et fs] He.
  cbn [ei_text ei_files]. f_equal.
  rewrite <- (map_id fs) at 2. apply map_ext_in. intros [ft fc] Hf.
  cbn [fi_text]. f_equal. symmetry.
  exact (H (mkTypeItem tt es) (mkExpItem et fs) (mkFileItem ft fc) Ht He Hf).
Qed.

(** After a dark scan every file row is ticked, and the ticked rows
    cover the catalog. *)
Lemma allowed_darks_tree (P : platform) (dark_roots : list (string * dir_tree))
    (st : dark_state) :
  scan_darks P dark_roots = Ok st ->
  _gather_allowed_darks (dark_tree st) (dark_catalog st) = dark_catalog st
  /\ forall t e f, In t (dark_tree st) -> In e (ti_exps t) -> In f (ei_files e) ->
       fi_checked f = true.
Proof.
  intros Hs.
  assert (dark_tree st = [] /\ dark_catalog st = []
          \/ dark_tree st
             = map (type_row (dark_catalog st))
                 [Js.MASTERDARKFLAT; Js.MASTERDARK; Js.DARKFLAT; Js.DARK]) as Htree.
  { unfold scan_darks in Hs. destruct dark_roots as [|rt roots].
    - injection Hs as <-. left. split; reflexivity.
    - destruct (_scan_files_meta_threaded P _) as [out|e]; [|discriminate].
      injection Hs as <-. right. reflexivity. }
  split.
  - destruct Htree as [[_ ->]|Htree]; [reflexivity|].
    unfold _gather_allowed_darks. apply filter_all. intros d Hd.
    apply existsb_exists. exists (Js.path d). split; [|apply String.eqb_refl].
    apply allowed_iff.
    destruct (proj2 (type_row_files (dark_catalog st) (Js.type d)
                       (mkFileItem (Js.path d) true)))
      as [e [He Hf]]; [exists d; auto|].
    exists (type_row (dark_catalog st) (Js.type d)), e,
      (mkFileItem (Js.path d) true).
    split; [|auto]. rewrite Htree. apply in_map.
    destruct (Js.type d); simpl; tauto.
  - intros t e f Ht He Hf.
    destruct Htree as [[Htree _]|Htree]; [rewrite Htree in Ht; contradiction|].
    rewrite Htree in Ht. apply in_map_iff in Ht. destruct Ht as [typ [<- _]].
    destruct (proj1 (type_row_files (dark_catalog st) typ f))
      as [d [Hd [_ ->]]]; [exists e; auto|].
    reflexivity.
Qed.

End TickFacts.

(** X25. Only ticked directories are gathered for a run, each with the
    groups of its rows and in the order of the tree: with every directory
    unticked the plan gathered is empty, and with every directory ticked
    it has one job per directory row. Likewise no dark is gathered once
    every row of the dark tree is unticked, and ticking all rows again
    after a dark scan gathers the whole catalog. *)
Theorem ticks_decide_what_runs (P : Py.platform) :
  (forall rows j,
     In j (Scan._gather_selected_plan P rows) ->
     exists d, In d rows /\ Scan.di_checked d = true
               /\ j = Scan.mkJob (Scan.di_text d)
                        (Scan.gather_groups P (Scan.di_text d) (Scan.di_groups d)))
  /\ (forall rows, Scan._gather_selected_plan P (Run._set_all_dirs false rows) = [])
  /\ (forall rows,
        Scan._gather_selected_plan P (Run._set_all_dirs true rows)
        = map (fun d =>
                 Scan.mkJob (Scan.di_text d)
                   (Scan.gather_groups P (Scan.di_text d) (Scan.di_groups d)))
            rows)
  /\ (forall rows catalog,
        Darks._gather_allowed_darks (Run._set_all_darks false rows) catalog = [])
  /\ (forall dark_roots st b,
        Darks.scan_darks P dark_roots = Py.Ok st ->
        Darks._gather_allowed_darks
          (Run._set_all_darks true (Run._set_all_darks b (Darks.dark_tree st)))
          (Darks.dark_catalog st)
        = Darks.dark_catalog st).
Proof.
  split; [|split; [|split; [|split]]].
  - induction rows as [|d rows IH]; intros j Hj; [contradiction|].
    cbn [Scan._gather_selected_plan] in Hj.
    destruct (Scan.di_checked d) eqn:Ed.
    + destruct Hj as [<-|Hj].
      * exists d. split; [left; reflexivity|]. split; [exact Ed|reflexivity].
      * destruct (IH j Hj) as [d' [Hd' H]]. exists d'. split; [right; exact Hd'|exact H].
    + destruct (IH j Hj) as [d' [Hd' H]]. exists d'. split; [right; exact Hd'|exact H].
  - induction rows as [|d rows IH]; [reflexivity|exact IH].
  - induction rows as [|d rows IH]; [reflexivity|].
    cbn [Run._set_all_dirs map Scan._gather_selected_plan Scan.di_checked
         Scan.di_text Scan.di_groups].
    f_equal. exact IH.
  - intros rows catalog. unfold Darks._gather_allowed_darks.
    rewrite allowed_set_all_false.
    induction catalog as [|d l IH]; [reflexivity|exact IH].
  - intros roots st b Hs. rewrite set_all_darks_twice.
    destruct (allowed_darks_tree P roots st Hs) as [Hall Hticked].
    rewrite set_all_darks_ticked; [exact Hall|].
    intros t e f Ht He Hf. exact (Hticked t e f Ht He Hf).
Qed.

(** Two directory rows, the second one unticked. *)
Lemma ticks_decide_what_runs_witness :
  let P := Sample.machine [] (Py.Raise Py.OtherError) in
  let rows := [Scan.mkDirItem "D:\a" true [Scan.mkGroupItem "2.000s  (3 files)" ["x"; "y"; "z"]];
               Scan.mkDirItem "D:\b" false [Scan.mkGroupItem "1.000s  (3 files)" ["u"; "v"; "w"]]] in
  map Scan.dirPath (Scan._gather_selected_plan P rows) = ["D:\a"]
  /\ Scan._gather_selected_plan P (Run._set_all_dirs false rows) = []
  /\ map Scan.dirPath (Scan._gather_selected_plan P (Run._set_all_dirs true rows))
     = ["D:\a"; "D:\b"].
Proof.
  intros P rows. split; [reflexivity|]. split.
  - exact (proj1 (proj2 (ticks_decide_what_runs P)) rows).
  - reflexivity.
Defined.
